(** * A SOCKS5 proxy (socks.py): session handler and relay

    Shallow embedding of [SocksProxy.handle], [get_available_methods],
    [verify_credentials], [generate_failed_reply] and [forward_tcp], and
    the properties of the handshake state machine and of the relay.

    The handler is asynchronous Python code over two sockets.  Each
    coroutine becomes a computation in a small monad [M] that threads the
    state of the two sockets, collects the log of the socket and logging
    calls it makes, and may raise a Python exception. *)

From Stdlib Require Import List NArith Bool Arith Lia.
From Stdlib.Strings Require Import Byte.
Import ListNotations.

Set Implicit Arguments.

(** ** Python values *)

Abbreviation bytes := (list byte) (only parsing).

(** A Python [str] is its sequence of code points. *)
Abbreviation pystr := (list N) (only parsing).

(** [None] is Python's [None]: argparse leaves an option that was not given
    at [None]. *)
Abbreviation pyopt_str := (option (list N)) (only parsing).

Fixpoint str_eqb (a b : pystr) : bool :=
  match a, b with
  | [], [] => true
  | x :: a', y :: b' => N.eqb x y && str_eqb a' b'
  | _, _ => false
  end.

(** [s == cfg] for a decoded string [s] and a configured value. *)
Definition py_eq (s : pystr) (cfg : pyopt_str) : bool :=
  match cfg with
  | Some c => str_eqb s c
  | None => false
  end.

(** The exceptions the handler can meet. *)
Inductive exn : Type :=
| StructError        (* struct.error: wrong buffer size, value out of range *)
| AssertionError
| TypeError
| UnicodeDecodeError
| UnboundLocalError
| IndexError
| OSError            (* socket errors *)
| TaskError.         (* curio: join() on a task that crashed *)

(** What a coroutine comes to: a value, an exception, or (for the model of
    a loop) no answer within the fuel given. *)
Inductive result (A : Type) : Type :=
| Ret (a : A)
| Raise (e : exn)
| OutOfFuel.

Arguments Raise {A} e.
Arguments OutOfFuel {A}.

(** ** Sockets

    What a socket will deliver is a list of segments, in arrival order; a
    [Fault] is a read error.  A [recv] returns at most [n] bytes of the
    first segment that has any, so a short read is possible; past the last
    segment the peer has closed and [recv] returns [b'']. *)

Inductive seg : Type :=
| Data (bs : bytes)
| Fault.

(** [wbudget]: how many more [sendall] calls succeed before the socket's
    write side breaks ([None]: it never does). *)
Record sock : Type := mkSock {
  inbox : list seg;
  wbudget : option nat
}.

(** What is left of a segment stays at the front, unless nothing is. *)
Definition unread (bs : bytes) (rest : list seg) : list seg :=
  match bs with
  | [] => rest
  | _ :: _ => Data bs :: rest
  end.

Fixpoint sock_recv_pos (n : nat) (i : list seg) : option bytes * list seg :=
  match i with
  | [] => (Some [], [])
  | Fault :: rest => (None, rest)
  | Data [] :: rest => sock_recv_pos n rest
  | Data bs :: rest => (Some (firstn n bs), unread (skipn n bs) rest)
  end.

Definition sock_recv (n : nat) (i : list seg) : option bytes * list seg :=
  match n with
  | O => (Some [], i)
  | _ => sock_recv_pos n i
  end.

Definition sock_send (s : sock) : option sock :=
  match wbudget s with
  | None => Some s
  | Some O => None
  | Some (S k) => Some (mkSock (inbox s) (Some k))
  end.

Inductive who : Type := Client | Remote.

Definition who_eqb (a b : who) : bool :=
  match a, b with
  | Client, Client | Remote, Remote => true
  | _, _ => false
  end.

(** [conn] is the accepted client connection, [remote] the outbound socket
    (meaningful once [connect] has succeeded). *)
Record world : Type := mkWorld {
  conn : sock;
  remote : sock
}.

Definition get_sock (x : who) (w : world) : sock :=
  match x with Client => conn w | Remote => remote w end.

Definition set_sock (x : who) (s : sock) (w : world) : world :=
  match x with
  | Client => mkWorld s (remote w)
  | Remote => mkWorld (conn w) s
  end.

(** ** Events

    The log of a coroutine: the socket calls in program order, the calls of
    [logging.info] (line 73), [logging.error] (line 84) and
    [logging.exception] (line 138), and task creation and join.  [Join]
    carries the log of the joined task.  [Close] is [await x.close()];
    [CloseCall] is the call [x.close()] that lines 44 and 75 make without
    awaiting it, which creates the coroutine and does not run it. *)

#[warnings="-register-all"] Inductive event : Type :=
| Recv (x : who) (n : nat) (data : bytes)
| RecvFault (x : who) (n : nat)
| Sent (x : who) (data : bytes)
| SendFault (x : who) (data : bytes)
| Close (x : who)
| CloseCall (x : who)
| Bind (eip : pystr)
| Connected (address : pystr) (port : N)
| LogError (e : exn)
| LogException (e : exn)
| Spawn (src dst : who)
| Join (src dst : who) (log : list event).

(** ** The monad *)

Definition M (A : Type) : Type := world -> result A * world * list event.

Definition ret {A} (a : A) : M A := fun w => (Ret a, w, []).

Definition raise {A} (e : exn) : M A := fun w => (Raise e, w, []).

Definition bind {A B} (m : M A) (f : A -> M B) : M B :=
  fun w =>
    match m w with
    | (Ret a, w1, t1) =>
        match f a w1 with
        | (r, w2, t2) => (r, w2, t1 ++ t2)
        end
    | (Raise e, w1, t1) => (Raise e, w1, t1)
    | (OutOfFuel, w1, t1) => (OutOfFuel, w1, t1)
    end.

(** [try: m  except Exception as e: h e] (every exception of [exn] is an
    [Exception]). *)
Definition try_except {A} (m : M A) (h : exn -> M A) : M A :=
  fun w =>
    match m w with
    | (Raise e, w1, t1) =>
        match h e w1 with
        | (r, w2, t2) => (r, w2, t1 ++ t2)
        end
    | other => other
    end.

Definition lift {A} (r : result A) : M A := fun w => (r, w, []).

Definition emit (e : event) : M unit := fun w => (Ret tt, w, [e]).

Declare Scope py_scope.
Delimit Scope py_scope with py.
Notation "x <- m ;; k" := (bind m (fun x => k))
  (at level 61, m at next level, right associativity) : py_scope.
Notation "' pat <- m ;; k" := (bind m (fun x => match x with pat => k end))
  (at level 61, pat pattern, m at next level, right associativity) : py_scope.
Notation "m ;; k" := (bind m (fun _ => k))
  (at level 61, right associativity) : py_scope.
Open Scope py_scope.

Definition outcome {A} (x : result A * world * list event) : result A :=
  fst (fst x).
Definition final {A} (x : result A * world * list event) : world :=
  snd (fst x).
Definition log {A} (x : result A * world * list event) : list event :=
  snd x.

(** ** Socket calls *)

(** [await x.recv(n)] *)
Definition recv (x : who) (n : N) : M bytes :=
  fun w =>
    let s := get_sock x w in
    match sock_recv (N.to_nat n) (inbox s) with
    | (Some data, i) =>
        (Ret data, set_sock x (mkSock i (wbudget s)) w,
         [Recv x (N.to_nat n) data])
    | (None, i) =>
        (Raise OSError, set_sock x (mkSock i (wbudget s)) w,
         [RecvFault x (N.to_nat n)])
    end.

(** [await x.sendall(data)] *)
Definition sendall (x : who) (data : bytes) : M unit :=
  fun w =>
    match sock_send (get_sock x w) with
    | Some s => (Ret tt, set_sock x s w, [Sent x data])
    | None => (Raise OSError, w, [SendFault x data])
    end.

(** [await x.close()] *)
Definition close (x : who) : M unit := emit (Close x).

(** [x.close()], not awaited *)
Definition close_call (x : who) : M unit := emit (CloseCall x).

(** ** struct, ord, inet_ntoa *)

Definition ord (b : bytes) : result N :=
  match b with
  | [c] => Ret (Byte.to_N c)
  | _ => Raise TypeError
  end.

Definition unpack_BB (b : bytes) : result (N * N) :=
  match b with
  | [b0; b1] => Ret (Byte.to_N b0, Byte.to_N b1)
  | _ => Raise StructError
  end.

Definition unpack_BBBB (b : bytes) : result (N * N * N * N) :=
  match b with
  | [b0; b1; b2; b3] =>
      Ret (Byte.to_N b0, Byte.to_N b1, Byte.to_N b2, Byte.to_N b3)
  | _ => Raise StructError
  end.

Definition unpack_H (b : bytes) : result N :=
  match b with
  | [b0; b1] => Ret (Byte.to_N b0 * 256 + Byte.to_N b1)%N
  | _ => Raise StructError
  end.

Definition unpack_I (b : bytes) : result N :=
  match b with
  | [b0; b1; b2; b3] =>
      Ret (((Byte.to_N b0 * 256 + Byte.to_N b1) * 256 + Byte.to_N b2) * 256
           + Byte.to_N b3)%N
  | _ => Raise StructError
  end.

Definition pack_B (n : N) : result bytes :=
  match Byte.of_N n with
  | Some b => Ret [b]
  | None => Raise StructError
  end.

Definition rbind {A B} (r : result A) (f : A -> result B) : result B :=
  match r with
  | Ret a => f a
  | Raise e => Raise e
  | OutOfFuel => OutOfFuel
  end.

Definition pack_H (n : N) : result bytes :=
  if (n <? 65536)%N then
    rbind (pack_B (n / 256)) (fun hi =>
    rbind (pack_B (n mod 256)) (fun lo => Ret (hi ++ lo)))
  else Raise StructError.

Definition pack_I (n : N) : result bytes :=
  if (n <? 4294967296)%N then
    rbind (pack_H (n / 65536)) (fun hi =>
    rbind (pack_H (n mod 65536)) (fun lo => Ret (hi ++ lo)))
  else Raise StructError.

(** [struct.pack("!BB", a, b)] *)
Definition pack_BB (a b : N) : result bytes :=
  rbind (pack_B a) (fun x =>
  rbind (pack_B b) (fun y => Ret (x ++ y))).

(** [struct.pack("!BBBBIH", a, b, c, d, i, h)] *)
Definition pack_BBBBIH (a b c d i h : N) : result bytes :=
  rbind (pack_B a) (fun xa =>
  rbind (pack_B b) (fun xb =>
  rbind (pack_B c) (fun xc =>
  rbind (pack_B d) (fun xd =>
  rbind (pack_I i) (fun xi =>
  rbind (pack_H h) (fun xh => Ret (xa ++ xb ++ xc ++ xd ++ xi ++ xh))))))).

(** [reply[1]] *)
Definition index1 (b : bytes) : result N :=
  match nth_error b 1 with
  | Some c => Ret (Byte.to_N c)
  | None => Raise IndexError
  end.

Definition str_of_octet (n : N) : pystr :=
  (if n <? 10 then [48 + n]
   else if n <? 100 then [48 + n / 10; 48 + n mod 10]
   else [48 + n / 100; 48 + (n / 10) mod 10; 48 + n mod 10])%N.

(** [socket.inet_ntoa(b)]: the dotted quad; [OSError] unless [b] has four
    bytes. *)
Definition inet_ntoa (b : bytes) : result pystr :=
  match b with
  | [b0; b1; b2; b3] =>
      Ret (str_of_octet (Byte.to_N b0) ++ [46%N] ++
           str_of_octet (Byte.to_N b1) ++ [46%N] ++
           str_of_octet (Byte.to_N b2) ++ [46%N] ++
           str_of_octet (Byte.to_N b3))
  | _ => Raise OSError
  end.

(** ** bytes.decode('utf-8'), strict *)

Definition in_range (lo hi : N) (b : byte) : bool :=
  ((lo <=? Byte.to_N b) && (Byte.to_N b <=? hi))%N.

Definition low6 (b : byte) : N := (Byte.to_N b - 128)%N.

Fixpoint utf8_decode (b : bytes) : option pystr :=
  match b with
  | [] => Some []
  | b0 :: t0 =>
      let n0 := Byte.to_N b0 in
      if (n0 <? 128)%N then option_map (cons n0) (utf8_decode t0)
      else if (n0 <? 194)%N then None
      else if (n0 <? 224)%N then
        match t0 with
        | b1 :: t1 =>
            if in_range 128 191 b1
            then option_map (cons ((n0 - 192) * 64 + low6 b1)%N)
                            (utf8_decode t1)
            else None
        | _ => None
        end
      else if (n0 <? 240)%N then
        match t0 with
        | b1 :: b2 :: t2 =>
            if in_range (if (n0 =? 224)%N then 160 else 128)
                        (if (n0 =? 237)%N then 159 else 191) b1
               && in_range 128 191 b2
            then option_map
                   (cons (((n0 - 224) * 64 + low6 b1) * 64 + low6 b2)%N)
                   (utf8_decode t2)
            else None
        | _ => None
        end
      else if (n0 <? 245)%N then
        match t0 with
        | b1 :: b2 :: b3 :: t3 =>
            if in_range (if (n0 =? 240)%N then 144 else 128)
                        (if (n0 =? 244)%N then 143 else 191) b1
               && in_range 128 191 b2 && in_range 128 191 b3
            then option_map
                   (cons ((((n0 - 240) * 64 + low6 b1) * 64 + low6 b2) * 64
                          + low6 b3)%N)
                   (utf8_decode t3)
            else None
        | _ => None
        end
      else None
  end.

(** [b.decode('utf-8')] *)
Definition decode (b : bytes) : result pystr :=
  match utf8_decode b with
  | Some s => Ret s
  | None => Raise UnicodeDecodeError
  end.

(** ** The proxy object and the network *)

Definition SOCKS_VERSION : N := 5.

Record SocksProxy : Type := mkSocksProxy {
  host : pystr;
  port : N;
  username : pyopt_str;
  password : pyopt_str;
  eip : pystr
}.

(** ['0.0.0.0'] *)
Definition any_address : pystr := [48; 46; 48; 46; 48; 46; 48]%N.

(** The part of the world the handler reaches through the [socket] module:
    whether [remote.bind((eip, 0))] succeeds, and what
    [remote.connect((address, port))] does: [None] when it raises, else the
    local name of the new socket (address as [inet_aton] packs it, and
    port, as [getsockname] reports them) and what the peer will deliver. *)
Record network : Type := mkNetwork {
  bind_ok : pystr -> bool;
  dial : pystr -> N -> option (bytes * N * sock)
}.

(** Reading a local variable that may not have been assigned. *)
Definition local {A} (v : option A) : M A :=
  match v with
  | Some a => ret a
  | None => raise UnboundLocalError
  end.

Definition assert (b : bool) : M unit :=
  if b then ret tt else raise AssertionError.

(** ** forward_tcp (lines 130-139) *)

Definition CHUNK : N := 4096.

(** One turn of the [while True] loop per unit of fuel; the result of the
    [try] statement is whether the loop goes on. *)
Fixpoint forward_loop (fuel : nat) (src dst : who) : M unit :=
  match fuel with
  | O => lift OutOfFuel
  | S k =>
      again <- try_except
                 (data <- recv src CHUNK ;;
                  sendall dst data ;;
                  ret (match data with [] => false | _ :: _ => true end))
                 (fun e => emit (LogException e) ;; ret false) ;;
      if again then forward_loop k src dst else ret tt
  end.

Definition seg_weight (s : seg) : nat :=
  match s with
  | Data bs => S (length bs)
  | Fault => 1
  end.

Fixpoint weight (i : list seg) : nat :=
  match i with
  | [] => 0
  | s :: rest => seg_weight s + weight rest
  end.

(** The loop runs with more fuel than the source has bytes and segments
    left; [forward_tcp_returns] shows that it never runs out. *)
Definition forward_tcp (src dst : who) : M unit :=
  fun w => forward_loop (S (weight (inbox (get_sock src w)))) src dst w.

(** ** Tasks

    The two relay tasks share no variable: the task from [src] to [dst]
    uses only the read side of [src] and the write side of [dst].  What a
    task does is therefore fixed when it is spawned, and [spawn] computes
    it there; [relay_order] shows that the order of the two is
    immaterial. *)

Record task : Type := mkTask {
  t_src : who;
  t_dst : who;
  t_result : result unit;
  t_log : list event
}.

(** [await spawn(self.forward_tcp, src, dst)] *)
Definition spawn (src dst : who) : M task :=
  fun w =>
    match forward_tcp src dst w with
    | (r, w1, t) => (Ret (mkTask src dst r t), w1, [Spawn src dst])
    end.

(** [await job.join()] *)
Definition join (j : task) : M unit :=
  fun w =>
    (match t_result j with
     | Ret _ => Ret tt
     | Raise _ => Raise TaskError
     | OutOfFuel => OutOfFuel
     end, w, [Join (t_src j) (t_dst j) (t_log j)]).

(** ** get_available_methods (lines 99-103) *)

Fixpoint get_methods_loop (k : nat) (x : who) (methods : list N)
  : M (list N) :=
  match k with
  | O => ret methods
  | S k' =>
      b <- recv x 1 ;;
      m <- lift (ord b) ;;
      get_methods_loop k' x (methods ++ [m])
  end.

Definition get_available_methods (x : who) (n : N) : M (list N) :=
  get_methods_loop (N.to_nat n) x [].

(** ** verify_credentials (lines 105-125) *)

Definition verify_credentials (self : SocksProxy) (x : who) : M bool :=
  b <- recv x 1 ;;
  version <- lift (ord b) ;;
  assert (version =? 1)%N ;;
  b <- recv x 1 ;;
  username_len <- lift (ord b) ;;
  b <- recv x username_len ;;
  username' <- lift (decode b) ;;
  b <- recv x 1 ;;
  password_len <- lift (ord b) ;;
  b <- recv x password_len ;;
  password' <- lift (decode b) ;;
  if py_eq username' (username self) && py_eq password' (password self)
  then
    response <- lift (pack_BB version 0) ;;
    sendall x response ;;
    ret true
  else
    response <- lift (pack_BB version 255) ;;
    sendall x response ;;
    close x ;;
    ret false.

(** ** generate_failed_reply (lines 127-128) *)

Definition generate_failed_reply (address_type error_number : N)
  : result bytes :=
  pack_BBBBIH SOCKS_VERSION error_number 0 address_type 0 0.

(** ** handle (lines 26-97)

    [assert] statements are executed (the interpreter does not run with
    [-O]); [socket.socket] itself succeeds. *)

(** Lines 29-48: the greeting.  [true] when method 2 was offered and has
    been selected, [false] when the handler has returned (line 45). *)
Definition handle_greeting : M bool :=
  header <- recv Client 2 ;;
  '(version, nmethods) <- lift (unpack_BB header) ;;
  assert (version =? SOCKS_VERSION)%N ;;
  assert (0 <? nmethods)%N ;;
  methods <- get_available_methods Client nmethods ;;
  if negb (existsb (N.eqb 2) methods) then
    close_call Client ;;
    ret false
  else
    welcome <- lift (pack_BB SOCKS_VERSION 2) ;;
    sendall Client welcome ;;
    ret true.

(** Lines 57-61.  [address] stays unassigned for an address type other
    than 1 and 3.  In line 60 the subscript binds tighter than [await]:
    [conn.recv(1)[0]] subscripts the coroutine that [conn.recv(1)] returns,
    which raises [TypeError] before anything is read. *)
Definition read_address (address_type : N) : M (option pystr) :=
  if (address_type =? 1)%N then
    b <- recv Client 4 ;;
    address <- lift (inet_ntoa b) ;;
    ret (Some address)
  else if (address_type =? 3)%N then
    raise TypeError
  else ret None.

(** [await remote.connect((address, port))], then
    [remote.getsockname()]. *)
Definition connect (net : network) (address : pystr) (port : N)
  : M (bytes * N) :=
  fun w =>
    match dial net address port with
    | Some (name, peer) => (Ret name, set_sock Remote peer w, [])
    | None => (Raise OSError, w, [])
    end.

(** The body of the [try] statement, lines 67-81.  Its value is the reply,
    or [None] when the handler has returned (line 76). *)
Definition try_connect (self : SocksProxy) (net : network)
    (cmd address_type : N) (address : option pystr) (port : N)
  : M (option bytes) :=
  if (cmd =? 1)%N then
    (if negb (str_eqb (eip self) any_address)
     then (if bind_ok net (eip self)
           then emit (Bind (eip self))
           else raise OSError)
     else ret tt) ;;
    address' <- local address ;;
    bind_address <- connect net address' port ;;
    emit (Connected address' port) ;;
    addr <- lift (unpack_I (fst bind_address)) ;;
    let port := snd bind_address in
    reply <- lift (pack_BBBBIH SOCKS_VERSION 0 0 address_type addr port) ;;
    ret (Some reply)
  else
    close_call Client ;;
    ret None.

(** Lines 65-97: the reply and the relay, once the request has been
    read. *)
Definition reply_and_relay (self : SocksProxy) (net : network)
    (cmd address_type : N) (address : option pystr) (port : N) : M unit :=
  r <- try_except
         (try_connect self net cmd address_type address port)
         (fun err =>
            emit (LogError err) ;;
            reply <- lift (generate_failed_reply address_type 5) ;;
            ret (Some reply)) ;;
  match r with
  | None => ret tt
  | Some reply =>
      sendall Client reply ;;
      status <- lift (index1 reply) ;;
      jobs <- (if (status =? 0)%N && (cmd =? 1)%N
               then
                 job1 <- spawn Client Remote ;;
                 job2 <- spawn Remote Client ;;
                 ret (Some job1, Some job2)
               else ret (None, None)) ;;
      job1 <- local (fst jobs) ;;
      join job1 ;;
      job2 <- local (snd jobs) ;;
      join job2 ;;
      close Client
  end.

(** Lines 53-97: the request, then the reply and the relay. *)
Definition handle_request (self : SocksProxy) (net : network) : M unit :=
  b <- recv Client 4 ;;
  '(version, cmd, _, address_type) <- lift (unpack_BBBB b) ;;
  assert (version =? SOCKS_VERSION)%N ;;
  address <- read_address address_type ;;
  b <- recv Client 2 ;;
  port <- lift (unpack_H b) ;;
  reply_and_relay self net cmd address_type address port.

(** The handler: the phases in sequence; lines 42-45 and 50-51 are
    the two early returns. *)
Definition handle (self : SocksProxy) (net : network) : M unit :=
  selected <- handle_greeting ;;
  if negb selected then ret tt
  else
    ok <- verify_credentials self Client ;;
    if negb ok then ret tt
    else handle_request self net.

(** * The vocabulary of the statements *)

(** The events [p] holds of, from the front of a log, and what comes
    after them. *)
Fixpoint take_while (p : event -> bool) (t : list event) : list event :=
  match t with
  | e :: t' => if p e then e :: take_while p t' else []
  | [] => []
  end.

Fixpoint skip_while (p : event -> bool) (t : list event) : list event :=
  match t with
  | e :: t' => if p e then skip_while p t' else t
  | [] => []
  end.

(** No event of the log satisfies [p]. *)
Definition none (p : event -> bool) (t : list event) : Prop :=
  Forall (fun e => p e = false) t.

(** The bytes a socket delivers before its first read error. *)
Fixpoint stream_bytes (i : list seg) : bytes :=
  match i with
  | [] => []
  | Data bs :: rest => bs ++ stream_bytes rest
  | Fault :: _ => []
  end.

(** The bytes written to [x] in a log. *)
Fixpoint sent_bytes (x : who) (t : list event) : bytes :=
  match t with
  | [] => []
  | Sent y d :: t' =>
      if who_eqb x y then d ++ sent_bytes x t' else sent_bytes x t'
  | _ :: t' => sent_bytes x t'
  end.

(** The logs a relay direction can leave: nonempty chunks forwarded as
    read, then the end of the stream, a read fault or a write fault. *)
Inductive relay_log (src dst : who) : list event -> Prop :=
| relay_eof :
    relay_log src dst [Recv src (N.to_nat CHUNK) []; Sent dst []]
| relay_read_fault :
    relay_log src dst [RecvFault src (N.to_nat CHUNK); LogException OSError]
| relay_write_fault data :
    length data <= N.to_nat CHUNK ->
    relay_log src dst [Recv src (N.to_nat CHUNK) data; SendFault dst data;
                       LogException OSError]
| relay_more data t :
    data <> [] ->
    length data <= N.to_nat CHUNK ->
    relay_log src dst t ->
    relay_log src dst (Recv src (N.to_nat CHUNK) data :: Sent dst data :: t).

(** [after t x]: the run [x], with the events [t] before it. *)
Definition after {A} (t : list event) (x : result A * world * list event)
  : result A * world * list event :=
  (outcome x, final x, t ++ log x).

(** The write budget after one successful [sendall]. *)
Definition spend (k : option nat) : option nat :=
  match k with
  | None => None
  | Some n => Some (pred n)
  end.

(** The log of a greeting with the methods [ms]. *)
Definition greeting_log (nmethods : byte) (ms : bytes) : list event :=
  Recv Client 2 [x05; nmethods] :: map (fun b => Recv Client 1 [b]) ms.

(** The reads of an auth request. *)
Definition auth_log (ulen : byte) (uname : bytes) (plen : byte) (pw : bytes)
  : list event :=
  [Recv Client 1 [x01]; Recv Client 1 [ulen];
   Recv Client (length uname) uname;
   Recv Client 1 [plen]; Recv Client (length pw) pw].

Definition is_read (e : event) : bool :=
  match e with
  | Recv Client _ _ | RecvFault Client _ => true
  | _ => false
  end.

(** Reads, and the calls that set up the outbound socket. *)
Definition is_prep (e : event) : bool :=
  match e with
  | Recv Client _ _ | RecvFault Client _ | Bind _ | Connected _ _ => true
  | _ => false
  end.

Definition reads (t : list event) : Prop :=
  Forall (fun e => is_read e = true) t.

Inductive greeting_end : result bool -> list event -> Prop :=
| GreetSelected : greeting_end (Ret true) [Sent Client [x05; x02]]
| GreetRefused : greeting_end (Ret false) [CloseCall Client]
| GreetAbort e : greeting_end (Raise e) []
| GreetLost : greeting_end (Raise OSError) [SendFault Client [x05; x02]].

Inductive verify_end : result bool -> list event -> Prop :=
| AuthOk : verify_end (Ret true) [Sent Client [x01; x00]]
| AuthBad : verify_end (Ret false) [Sent Client [x01; xff]; Close Client]
| AuthAbort e : verify_end (Raise e) []
| AuthLost d : verify_end (Raise OSError) [SendFault Client d].

(** The failure reply for the address type [a]. *)
Definition failed_reply (a : byte) : list byte :=
  [x05; x05; x00; a; x00; x00; x00; x00; x00; x00].

(** A success reply for the address type [a]: ten bytes, of which the
    last six are the bound address and port. *)
Definition ok_reply (a : byte) (reply : list byte) : Prop :=
  exists bound, reply = [x05; x00; x00; a] ++ bound /\ length bound = 6.

Definition preps (t : list event) : Prop :=
  Forall (fun e => is_prep e = true) t.

(** The ways the [try] body can end. *)
Inductive connect_end (cmd : N) (a : byte) (address : option (list N))
  : result (option (list byte)) -> list event -> Prop :=
| ConnNot :
    (cmd =? 1)%N = false ->
    connect_end cmd a address (Ret None) [CloseCall Client]
| ConnFail e ps :
    (cmd =? 1)%N = true -> preps ps ->
    connect_end cmd a address (Raise e) ps
| ConnOk reply ps ad p :
    (cmd =? 1)%N = true -> preps ps ->
    address = Some ad -> In (Connected ad p) ps -> ok_reply a reply ->
    connect_end cmd a address (Ret (Some reply)) ps.

(** The command and address type of the request read first. *)
Definition header_of (t : list event) : option (byte * byte) :=
  match t with
  | Recv Client _ [_; c; _; a] :: _ => Some (c, a)
  | _ => None
  end.

Definition connected (ps : list event) : Prop :=
  exists ad p, In (Connected ad p) ps.

(** The ways the request phase (lines 53-97) can end, after the reads and
    the set-up of the outbound socket [ps]. *)
Inductive ending
  : option (byte * byte) -> result unit -> list event -> list event -> Prop :=
| EndAbort hdr e ps :
    reads ps -> ending hdr (Raise e) ps []
| EndNotConnect c a ps :
    c <> x01 -> reads ps ->
    ending (Some (c, a)) (Ret tt) ps [CloseCall Client]
| EndRefused a ps e :
    ending (Some (x01, a)) (Raise UnboundLocalError) ps
      [LogError e; Sent Client (failed_reply a)]
| EndRefusedLost a ps e :
    ending (Some (x01, a)) (Raise OSError) ps
      [LogError e; SendFault Client (failed_reply a)]
| EndReplyLost ps reply :
    connected ps -> ok_reply x01 reply ->
    ending (Some (x01, x01)) (Raise OSError) ps [SendFault Client reply]
| EndRelay ps reply t1 t2 :
    connected ps -> ok_reply x01 reply ->
    relay_log Client Remote t1 -> relay_log Remote Client t2 ->
    ending (Some (x01, x01)) (Ret tt) ps
      [Sent Client reply; Spawn Client Remote; Spawn Remote Client;
       Join Client Remote t1; Join Remote Client t2; Close Client].

Inductive greeting_stop : result unit -> list event -> Prop :=
| StopRefused : greeting_stop (Ret tt) [CloseCall Client]
| StopGreeting e : greeting_stop (Raise e) []
| StopSelection : greeting_stop (Raise OSError) [SendFault Client [x05; x02]].

Inductive auth_stop : result unit -> list event -> Prop :=
| StopRejected :
    auth_stop (Ret tt) [Sent Client [x01; xff]; Close Client]
| StopAuth e : auth_stop (Raise e) []
| StopAuthReply d : auth_stop (Raise OSError) [SendFault Client d].

Inductive session : result unit -> list event -> Prop :=
| SessGreeting out rs tl :
    reads rs -> greeting_stop out tl ->
    session out (rs ++ tl)
| SessAuth out rs1 rs2 tl :
    reads rs1 -> reads rs2 -> auth_stop out tl ->
    session out (rs1 ++ Sent Client [x05; x02] :: rs2 ++ tl)
| SessRequest out rs1 rs2 ps tl :
    reads rs1 -> reads rs2 -> preps ps ->
    ending (header_of (ps ++ tl)) out ps tl ->
    session out (rs1 ++ Sent Client [x05; x02]
                     :: rs2 ++ Sent Client [x01; x00] :: ps ++ tl).

(** Task creation and join, and any use of the outbound socket. *)
Definition is_relay (e : event) : bool :=
  match e with
  | Spawn _ _ | Join _ _ _ => true
  | Recv Remote _ _ | RecvFault Remote _ => true
  | Sent Remote _ | SendFault Remote _ => true
  | _ => false
  end.

(** A reply to the request: ten bytes sent to the client. *)
Definition is_reply (e : event) : bool :=
  match e with
  | Sent Client r => Nat.eqb (length r) 10
  | _ => false
  end.

(** The auth success reply. *)
Definition is_auth_ok (e : event) : bool :=
  match e with
  | Sent Client [a; b] => (Byte.to_N a =? 1)%N && (Byte.to_N b =? 0)%N
  | _ => false
  end.

Definition is_close (e : event) : bool :=
  match e with
  | Close Client | CloseCall Client => true
  | _ => false
  end.

Definition is_close_remote (e : event) : bool :=
  match e with
  | Close Remote | CloseCall Remote => true
  | _ => false
  end.

(** The claim C3 as the specification states it: once both relay tasks
    have been joined, the handler closes the client connection and the
    outbound socket. *)
Definition closes_both_after_relay (self : SocksProxy) (net : network)
    (w : world) : Prop :=
  forall pre t1 t2 post,
    log (handle self net w)
    = pre ++ Join Client Remote t1 :: Join Remote Client t2 :: post ->
    In (Close Client) post /\
    (In (Close Remote) post \/ In (CloseCall Remote) post).

(** The log of the task joined by the [i]-th event. *)
Definition joined (t : list event) (i : nat) : list event :=
  match nth_error t i with
  | Some (Join _ _ l) => l
  | _ => []
  end.

Definition is_log_error (e : event) : bool :=
  match e with
  | LogError _ => true
  | _ => false
  end.

Definition is_selection (e : event) : bool :=
  match e with
  | Sent Client _ => true
  | _ => false
  end.

Definition is_auth_reply (e : event) : bool :=
  match e with
  | Sent Client (b :: _) => (Byte.to_N b =? 1)%N
  | _ => false
  end.

(** The loop of [forward_tcp] on the read side [i] of its source and the
    write budget [k] of its destination alone. *)
Fixpoint relay_run (fuel : nat) (src dst : who) (i : list seg)
    (k : option nat) : result unit * (list seg * option nat) * list event :=
  match fuel with
  | O => (OutOfFuel, (i, k), [])
  | S fuel' =>
      match sock_recv (N.to_nat CHUNK) i with
      | (None, i1) =>
          (Ret tt, (i1, k),
           [RecvFault src (N.to_nat CHUNK); LogException OSError])
      | (Some data, i1) =>
          match k with
          | Some O =>
              (Ret tt, (i1, k),
               [Recv src (N.to_nat CHUNK) data; SendFault dst data;
                LogException OSError])
          | _ =>
              match data with
              | [] =>
                  (Ret tt, (i1, spend k),
                   [Recv src (N.to_nat CHUNK) data; Sent dst data])
              | _ :: _ =>
                  match relay_run fuel' src dst i1 (spend k) with
                  | (r, s, t) =>
                      (r, s,
                       Recv src (N.to_nat CHUNK) data :: Sent dst data :: t)
                  end
              end
          end
      end
  end.

(** The world after a direction has left its source with [i] and its
    destination with the budget [k]. *)
Definition after_relay (src dst : who) (i : list seg) (k : option nat)
    (w : world) : world :=
  set_sock dst (mkSock (inbox (get_sock dst w)) k)
    (set_sock src (mkSock i (wbudget (get_sock src w))) w).

(** [await x.close()] *)
Definition is_await_close (e : event) : bool :=
  match e with
  | Close _ => true
  | _ => false
  end.

(** The calls that set up the outbound socket. *)
Definition is_setup (e : event) : bool :=
  match e with
  | Bind _ | Connected _ _ => true
  | _ => false
  end.

(** What only a session past authentication can log. *)
Definition is_past_auth (e : event) : bool :=
  is_auth_ok e || is_relay e || is_setup e.


(** [remote.bind((eip, 0))], when an external address is configured. *)
Definition binding (self : SocksProxy) : list event :=
  if str_eqb (eip self) any_address then [] else [Bind (eip self)].

(** The number of bytes that the reads of a log have taken from [x]. *)
Fixpoint bytes_read (x : who) (t : list event) : nat :=
  match t with
  | [] => 0
  | Recv y _ d :: t' =>
      (if who_eqb x y then length d else 0) + bytes_read x t'
  | _ :: t' => bytes_read x t'
  end.

(** What the handler itself writes to the client, in order. *)
Fixpoint client_writes (t : list event) : list (list byte) :=
  match t with
  | [] => []
  | Sent Client d :: t' => d :: client_writes t'
  | _ :: t' => client_writes t'
  end.

(** An error on the client connection. *)
Definition is_fault (e : event) : bool :=
  match e with
  | RecvFault Client _ | SendFault Client _ => true
  | _ => false
  end.

(** A run in which an error on the client connection, if there is one, is
    the last event, and [OSError] the outcome. *)
Definition stops_at_fault {A} (x : result A * world * list event) : Prop :=
  none is_fault (log x) \/
  exists pre e,
    log x = pre ++ [e] /\ is_fault e = true /\ none is_fault pre /\
    outcome x = Raise OSError.

(** ** Example sessions *)

Module Demo.

(** user / pass *)
Definition proxy : SocksProxy :=
  mkSocksProxy any_address 11080
    (Some [117; 115; 101; 114]%N) (Some [112; 97; 115; 115]%N) any_address.

(** 127.0.0.1 answers with two bytes and closes; no other host can be
    reached. *)
Definition peer : sock := mkSock [Data ["H"; "i"]%byte] None.

Definition net : network :=
  mkNetwork (fun _ => true)
    (fun a p =>
       if str_eqb a [49; 50; 55; 46; 48; 46; 48; 46; 49]%N
       then Some ([x0a; x00; x00; x02], 40000%N, peer)
       else None).

Definition greeting : list byte := [x05; x01; x02].
Definition auth : list byte :=
  [x01; x04; "u"; "s"; "e"; "r"; x04; "p"; "a"; "s"; "s"]%byte.

Definition client (request : list byte) (data : list seg) : world :=
  mkWorld (mkSock (Data greeting :: Data auth :: Data request :: data) None)
          (mkSock [] None).

(** CONNECT 127.0.0.1:80, then three bytes for the target. *)
Definition connect_ok : world :=
  client [x05; x01; x00; x01; x7f; x00; x00; x01; x00; x50]
         [Data [x01; x02; x03]].

(** CONNECT 127.0.0.2:80, which cannot be reached. *)
Definition connect_refused : world :=
  client [x05; x01; x00; x01; x7f; x00; x00; x02; x00; x50] [].

(** CONNECT example.com:80, by name. *)
Definition connect_domain : world :=
  client ([x05; x01; x00; x03; x0b; "e"; "x"; "a"; "m"; "p"; "l"; "e"; ".";
           "c"; "o"; "m"; x00; x50]%byte) [].

(** CONNECT [::1]:80, an IPv6 address (address type 4). *)
Definition connect_ipv6 : world :=
  client [x05; x01; x00; x04;
          x00; x00; x00; x00; x00; x00; x00; x00;
          x00; x00; x00; x00; x00; x00; x00; x01; x00; x50] [].

(** BIND 127.0.0.1:80 (command 2). *)
Definition bind_request : world :=
  client [x05; x02; x00; x01; x7f; x00; x00; x01; x00; x50] [].

End Demo.

(** * Properties *)

(** ** The model at work *)

Example recv_short :
  sock_recv 4 [Data [x01; x02]; Data [x03]] = (Some [x01; x02], [Data [x03]]).
Proof. reflexivity. Qed.

Example recv_part :
  sock_recv 2 [Data [x01; x02; x03]] = (Some [x01; x02], [Data [x03]]).
Proof. reflexivity. Qed.

Example recv_closed : sock_recv 2 [] = (Some [], []).
Proof. reflexivity. Qed.

Example recv_fault : sock_recv 2 [Fault; Data [x01]] = (None, [Data [x01]]).
Proof. reflexivity. Qed.

Example inet_ntoa_loopback :
  inet_ntoa [x7f; x00; x00; x01]
  = Ret [49; 50; 55; 46; 48; 46; 48; 46; 49]%N.
Proof. reflexivity. Qed.

Example unpack_port : unpack_H [x1f; x90] = Ret 8080%N.
Proof. reflexivity. Qed.

Example pack_reply :
  pack_BBBBIH 5 0 0 1 167772162 40000
  = Ret [x05; x00; x00; x01; x0a; x00; x00; x02; x9c; x40].
Proof. reflexivity. Qed.

Example pack_port_range : pack_H 65536 = Raise StructError.
Proof. reflexivity. Qed.

Example utf8_ascii : utf8_decode ["u"; "s"; "e"; "r"]%byte
                     = Some [117; 115; 101; 114]%N.
Proof. reflexivity. Qed.

Example utf8_euro : utf8_decode [xe2; x82; xac] = Some [8364%N].
Proof. reflexivity. Qed.

Example utf8_four_bytes :
  utf8_decode [xf0; x9f; x98; x80] = Some [128512%N].
Proof. reflexivity. Qed.

Example utf8_overlong : utf8_decode [xc0; x80] = None.
Proof. reflexivity. Qed.

Example utf8_surrogate : utf8_decode [xed; xa0; x80] = None.
Proof. reflexivity. Qed.

Example utf8_truncated : utf8_decode [xe2; x82] = None.
Proof. reflexivity. Qed.

Example utf8_stray : utf8_decode [xff] = None.
Proof. reflexivity. Qed.

(** A whole session: greeting, auth, CONNECT 127.0.0.1:80, then three
    bytes to the target and two bytes back. *)
Example session_connect_ok :
  handle Demo.proxy Demo.net Demo.connect_ok
  = (Ret tt,
     mkWorld (mkSock [] None) (mkSock [] None),
     [Recv Client 2 [x05; x01]; Recv Client 1 [x02];
      Sent Client [x05; x02];
      Recv Client 1 [x01]; Recv Client 1 [x04];
      Recv Client 4 ["u"; "s"; "e"; "r"]%byte;
      Recv Client 1 [x04];
      Recv Client 4 ["p"; "a"; "s"; "s"]%byte;
      Sent Client [x01; x00];
      Recv Client 4 [x05; x01; x00; x01];
      Recv Client 4 [x7f; x00; x00; x01];
      Recv Client 2 [x00; x50];
      Connected [49; 50; 55; 46; 48; 46; 48; 46; 49]%N 80;
      Sent Client [x05; x00; x00; x01; x0a; x00; x00; x02; x9c; x40];
      Spawn Client Remote; Spawn Remote Client;
      Join Client Remote
        [Recv Client (N.to_nat CHUNK) [x01; x02; x03];
         Sent Remote [x01; x02; x03];
         Recv Client (N.to_nat CHUNK) []; Sent Remote []];
      Join Remote Client
        [Recv Remote (N.to_nat CHUNK) ["H"; "i"]%byte;
         Sent Client ["H"; "i"]%byte;
         Recv Remote (N.to_nat CHUNK) []; Sent Client []];
      Close Client]).
Proof. vm_compute. reflexivity. Qed.

Opaque CHUNK.

(** ** Sockets *)

Lemma sock_recv_pos_length n i data i' :
  sock_recv_pos n i = (Some data, i') -> length data <= n.
Proof.
  revert data i'.
  induction i as [|[[|b bs]|] rest IH]; simpl; intros data i' E.
  - inversion E. simpl. lia.
  - eauto.
  - inversion E. apply firstn_le_length.
  - discriminate.
Qed.

Lemma sock_recv_length n i data i' :
  sock_recv n i = (Some data, i') -> length data <= n.
Proof.
  destruct n; simpl; intros E.
  - inversion E. simpl. lia.
  - eapply sock_recv_pos_length; eauto.
Qed.

Lemma weight_unread bs rest :
  weight (unread bs rest) <= S (length bs) + weight rest.
Proof. destruct bs; simpl; lia. Qed.

Lemma stream_unread bs rest :
  stream_bytes (unread bs rest) = bs ++ stream_bytes rest.
Proof. destruct bs; reflexivity. Qed.

Lemma sock_recv_pos_weight n i data i' :
  sock_recv_pos n i = (Some data, i') -> data <> [] -> weight i' < weight i.
Proof.
  revert data i'.
  induction i as [|[[|b bs]|] rest IH]; simpl; intros data i' E Hne.
  - inversion E. congruence.
  - specialize (IH _ _ E Hne). lia.
  - inversion E; subst. destruct n as [|n]; [simpl in Hne; congruence|].
    pose proof (weight_unread (skipn (S n) (b :: bs)) rest).
    simpl in *. pose proof (length_skipn n bs). lia.
  - discriminate.
Qed.

Lemma sock_recv_weight n i data i' :
  sock_recv n i = (Some data, i') -> data <> [] -> weight i' < weight i.
Proof.
  destruct n; simpl; intros E Hne.
  - inversion E. congruence.
  - eapply sock_recv_pos_weight; eauto.
Qed.

Lemma sock_recv_pos_stream n i data i' :
  sock_recv_pos n i = (Some data, i') ->
  stream_bytes i = data ++ stream_bytes i'.
Proof.
  revert data i'.
  induction i as [|[[|b bs]|] rest IH]; simpl; intros data i' E.
  - inversion E. reflexivity.
  - eauto.
  - inversion E; subst. rewrite stream_unread. cbn [stream_bytes].
    rewrite app_assoc, (firstn_skipn n (b :: bs)). reflexivity.
  - discriminate.
Qed.

Lemma sock_recv_stream n i data i' :
  sock_recv n i = (Some data, i') ->
  stream_bytes i = data ++ stream_bytes i'.
Proof.
  destruct n; simpl; intros E.
  - inversion E. reflexivity.
  - eapply sock_recv_pos_stream; eauto.
Qed.

Lemma sock_recv_pos_fault n i i' :
  sock_recv_pos n i = (None, i') -> stream_bytes i = [].
Proof.
  induction i as [|[[|b bs]|] rest IH]; simpl; intros E;
    try discriminate; auto.
Qed.

Lemma sock_recv_fault n i i' :
  sock_recv n i = (None, i') -> stream_bytes i = [].
Proof.
  destruct n; simpl; intros E; [discriminate|].
  eapply sock_recv_pos_fault; eauto.
Qed.

(** A read of at least one byte returns none only at the end of the
    stream. *)
Lemma sock_recv_eof n i i' :
  0 < n -> sock_recv n i = (Some [], i') -> stream_bytes i' = [].
Proof.
  destruct n as [|n]; [lia|]. intros _. simpl.
  induction i as [|[[|b bs]|] rest IH]; simpl; intros E.
  - inversion E. reflexivity.
  - auto.
  - discriminate.
  - discriminate.
Qed.

(** A message that has arrived whole is read whole. *)
Lemma sock_recv_front a b rest :
  sock_recv (length a) (unread (a ++ b) rest) = (Some a, unread b rest).
Proof.
  destruct a as [|x a]; [reflexivity|].
  assert (F : firstn (length (x :: a)) ((x :: a) ++ b) = x :: a).
  { rewrite firstn_app, firstn_all, Nat.sub_diag.
    apply app_nil_r. }
  assert (K : skipn (length (x :: a)) ((x :: a) ++ b) = b).
  { rewrite skipn_app, skipn_all, Nat.sub_diag. reflexivity. }
  simpl in *. rewrite F, K. reflexivity.
Qed.

Lemma who_eqb_refl x : who_eqb x x = true.
Proof. destruct x; reflexivity. Qed.

Lemma inbox_set_same x s w : inbox (get_sock x (set_sock x s w)) = inbox s.
Proof. destruct x; reflexivity. Qed.

(** A [recv] leaves every write side as it is, and a [sendall] every read
    side. *)
Lemma wbudget_after_recv x y i w :
  wbudget (get_sock y (set_sock x (mkSock i (wbudget (get_sock x w))) w))
  = wbudget (get_sock y w).
Proof. destruct x, y; reflexivity. Qed.

Lemma inbox_after_send x y s w :
  sock_send (get_sock x w) = Some s ->
  inbox (get_sock y (set_sock x s w)) = inbox (get_sock y w).
Proof.
  unfold sock_send.
  destruct (wbudget (get_sock x w)) as [[|k]|] eqn:E; intros H;
    inversion H; subst; destruct x, y; reflexivity.
Qed.

Lemma wbudget_unlimited x s w :
  wbudget (get_sock x w) = None ->
  sock_send (get_sock x w) = Some s ->
  wbudget (get_sock x (set_sock x s w)) = None.
Proof.
  unfold sock_send. intros E. rewrite E. intros H; inversion H; subst.
  destruct x; exact E.
Qed.

(** ** The relay *)

Lemma forward_loop_spec src dst fuel : forall w,
  weight (inbox (get_sock src w)) < fuel ->
  outcome (forward_loop fuel src dst w) = Ret tt /\
  relay_log src dst (log (forward_loop fuel src dst w)) /\
  (exists rest,
     stream_bytes (inbox (get_sock src w))
     = sent_bytes dst (log (forward_loop fuel src dst w)) ++ rest) /\
  (wbudget (get_sock dst w) = None ->
   sent_bytes dst (log (forward_loop fuel src dst w))
   = stream_bytes (inbox (get_sock src w))).
Proof.
  induction fuel as [|fuel IH]; intros w Hw; [lia|].
  cbn [forward_loop]. unfold bind at 1, try_except, bind, recv.
  cbv zeta.
  destruct (sock_recv (N.to_nat CHUNK) (inbox (get_sock src w)))
    as [[data|] i'] eqn:E.
  - pose proof (sock_recv_length _ _ E) as Hlen.
    pose proof (sock_recv_stream _ _ E) as Hstream.
    set (w1 := set_sock src (mkSock i' (wbudget (get_sock src w))) w).
    unfold sendall.
    destruct (sock_send (get_sock dst w1)) as [s|] eqn:ES.
    + destruct data as [|b data].
      * cbn. rewrite who_eqb_refl. cbn. repeat split.
        -- constructor.
        -- eexists. exact Hstream.
        -- intros _. rewrite Hstream. cbn. symmetry.
           eapply sock_recv_eof; [|exact E]. vm_compute. lia.
      * set (w2 := set_sock dst s w1).
        assert (Hin : inbox (get_sock src w2) = i').
        { unfold w2. rewrite (inbox_after_send _ _ _ ES).
          unfold w1. apply inbox_set_same. }
        assert (Hlt : weight (inbox (get_sock src w2)) < fuel).
        { rewrite Hin.
          assert (weight i' < weight (inbox (get_sock src w)))
            by (eapply sock_recv_weight; [exact E | discriminate]).
          lia. }
        destruct (IH w2 Hlt) as (Ho & Hl & [rest Hp] & Hf).
        destruct (forward_loop fuel src dst w2) as [[r w3] t3] eqn:EF.
        cbn in Ho, Hl, Hp, Hf |- *. rewrite EF. cbn.
        rewrite who_eqb_refl. subst r.
        repeat split.
        -- constructor; [discriminate | exact Hlen | exact Hl].
        -- exists rest. rewrite Hstream, <- Hin, Hp.
           cbn. rewrite <- ?app_assoc. reflexivity.
        -- intros Hb. rewrite Hf, Hstream, Hin; [reflexivity|].
           unfold w2. apply wbudget_unlimited; [|exact ES].
           unfold w1. rewrite wbudget_after_recv. exact Hb.
    + cbn. repeat split.
      * constructor. exact Hlen.
      * eexists. reflexivity.
      * intros Hb. exfalso. unfold w1 in ES. unfold sock_send in ES.
        rewrite wbudget_after_recv, Hb in ES. discriminate.
  - cbn. repeat split.
    + constructor.
    + eexists. reflexivity.
    + intros _. symmetry. eapply sock_recv_fault; eauto.
Qed.

(** With enough fuel the loop does not depend on the fuel. *)
Lemma forward_loop_fuel src dst f1 : forall f2 w,
  weight (inbox (get_sock src w)) < f1 ->
  weight (inbox (get_sock src w)) < f2 ->
  forward_loop f1 src dst w = forward_loop f2 src dst w.
Proof.
  induction f1 as [|f1 IH]; intros f2 w H1 H2; [lia|].
  destruct f2 as [|f2]; [lia|].
  cbn [forward_loop]. unfold bind at 1 3, try_except, bind, recv.
  cbv zeta.
  destruct (sock_recv (N.to_nat CHUNK) (inbox (get_sock src w)))
    as [[data|] i'] eqn:E; [|reflexivity].
  set (w1 := set_sock src (mkSock i' (wbudget (get_sock src w))) w).
  unfold sendall.
  destruct (sock_send (get_sock dst w1)) as [s|] eqn:ES; [|reflexivity].
  destruct data as [|b data]; [reflexivity|].
  cbn.
  assert (Hin : inbox (get_sock src (set_sock dst s w1)) = i').
  { rewrite (inbox_after_send _ _ _ ES). unfold w1. apply inbox_set_same. }
  assert (weight i' < weight (inbox (get_sock src w)))
    by (eapply sock_recv_weight; [exact E | discriminate]).
  rewrite (IH f2 (set_sock dst s w1)); [reflexivity | |]; rewrite Hin; lia.
Qed.

Lemma forward_tcp_fuel src dst fuel w :
  weight (inbox (get_sock src w)) < fuel ->
  forward_loop fuel src dst w = forward_tcp src dst w.
Proof.
  intros H. unfold forward_tcp. apply forward_loop_fuel; lia.
Qed.

Lemma forward_tcp_returns src dst w :
  outcome (forward_tcp src dst w) = Ret tt.
Proof.
  unfold forward_tcp. apply forward_loop_spec. lia.
Qed.

(** ** Running the monad *)

Lemma bind_run {A B} (m : M A) (f : A -> M B) w a w1 t1 :
  m w = (Ret a, w1, t1) -> bind m f w = after t1 (f a w1).
Proof.
  intros E. unfold bind, after. rewrite E.
  destruct (f a w1) as [[r w2] t2]. reflexivity.
Qed.

Arguments bind_run {A B m} f {w a w1 t1} _.

Lemma bind_raise {A B} (m : M A) (f : A -> M B) w e w1 t1 :
  m w = (Raise e, w1, t1) -> bind m f w = (Raise e, w1, t1).
Proof. intros E. unfold bind. rewrite E. reflexivity. Qed.

Arguments bind_raise {A B m} f {w e w1 t1} _.

Lemma after_after {A} t1 t2 (x : result A * world * list event) :
  after t1 (after t2 x) = after (t1 ++ t2) x.
Proof. unfold after. cbn. rewrite app_assoc. reflexivity. Qed.

Lemma after_nil {A} (x : result A * world * list event) : after [] x = x.
Proof. destruct x as [[r w] t]. reflexivity. Qed.

Lemma log_after {A} t (x : result A * world * list event) :
  log (after t x) = t ++ log x.
Proof. reflexivity. Qed.

Lemma outcome_after {A} t (x : result A * world * list event) :
  outcome (after t x) = outcome x.
Proof. reflexivity. Qed.

Lemma final_after {A} t (x : result A * world * list event) :
  final (after t x) = final x.
Proof. reflexivity. Qed.

Lemma recv_script n a b rest k r :
  N.to_nat n = length a ->
  recv Client n (mkWorld (mkSock (unread (a ++ b) rest) k) r)
  = (Ret a, mkWorld (mkSock (unread b rest) k) r,
     [Recv Client (length a) a]).
Proof.
  intros H. unfold recv. cbn [get_sock conn inbox wbudget set_sock remote].
  rewrite H, sock_recv_front. reflexivity.
Qed.

Lemma recv_script1 c b rest k r :
  recv Client 1 (mkWorld (mkSock (Data (c :: b) :: rest) k) r)
  = (Ret [c], mkWorld (mkSock (unread b rest) k) r, [Recv Client 1 [c]]).
Proof. exact (recv_script 1 [c] b rest k r eq_refl). Qed.

Lemma sendall_script d i k r :
  k <> Some 0 ->
  sendall Client d (mkWorld (mkSock i k) r)
  = (Ret tt, mkWorld (mkSock i (spend k)) r, [Sent Client d]).
Proof.
  intros H. unfold sendall, sock_send. cbn.
  destruct k as [[|n]|]; [congruence | reflexivity | reflexivity].
Qed.

Lemma get_methods_script ms : forall acc more rest k r,
  get_methods_loop (length ms) Client acc
    (mkWorld (mkSock (unread (ms ++ more) rest) k) r)
  = (Ret (acc ++ map Byte.to_N ms),
     mkWorld (mkSock (unread more rest) k) r,
     map (fun b => Recv Client 1 [b]) ms).
Proof.
  induction ms as [|m ms IH]; intros acc more rest k r.
  - cbn. rewrite app_nil_r. reflexivity.
  - cbn [length get_methods_loop].
    cbn [app unread].
    rewrite (bind_run _ (recv_script1 m (ms ++ more) rest k r)).
    cbn [ord lift]. unfold bind at 1. cbn [lift].
    rewrite IH. cbn. rewrite <- app_assoc. reflexivity.
Qed.

Lemma bind_ret {A B} (a : A) (f : A -> M B) w : bind (ret a) f w = f a w.
Proof. unfold bind, ret. destruct (f a w) as [[r w2] t2]. reflexivity. Qed.

Lemma bind_lift {A B} (a : A) (f : A -> M B) w :
  bind (lift (Ret a)) f w = f a w.
Proof. exact (bind_ret a f w). Qed.

Lemma bind_lift_raise {A B} e (f : A -> M B) w :
  bind (lift (Raise e)) f w = (Raise e, w, []).
Proof. reflexivity. Qed.

Lemma bind_assert_true {B} (f : unit -> M B) w :
  bind (assert true) f w = f tt w.
Proof. exact (bind_ret tt f w). Qed.

Lemma bind_assert_false {B} (f : unit -> M B) w :
  bind (assert false) f w = (Raise AssertionError, w, []).
Proof. reflexivity. Qed.

Lemma bind_emit {B} e (f : unit -> M B) w :
  bind (emit e) f w = after [e] (f tt w).
Proof. apply (bind_run f). reflexivity. Qed.

Lemma to_N_inj_lit (b c : byte) : Byte.to_N b = Byte.to_N c -> b = c.
Proof.
  intros H. pose proof (Byte.of_to_N b) as Hb.
  rewrite H, Byte.of_to_N in Hb. congruence.
Qed.

Lemma methods_offer ms :
  existsb (N.eqb 2) (map Byte.to_N ms) = true <-> In x02 ms.
Proof.
  rewrite existsb_exists. split.
  - intros (n & Hin & Hn). apply in_map_iff in Hin as (b & Hb & Hin).
    apply N.eqb_eq in Hn. subst n.
    replace x02 with b; [exact Hin|].
    apply to_N_inj_lit. symmetry. exact Hn.
  - intros Hin. exists 2%N. split; [|reflexivity].
    apply in_map_iff. exists x02. split; [reflexivity | exact Hin].
Qed.

Lemma handle_greeting_script nmethods ms more rest k r :
  length ms = N.to_nat (Byte.to_N nmethods) ->
  ms <> [] ->
  k <> Some 0 ->
  handle_greeting
    (mkWorld (mkSock (Data ([x05; nmethods] ++ ms ++ more) :: rest) k) r)
  = if existsb (N.eqb 2) (map Byte.to_N ms)
    then (Ret true, mkWorld (mkSock (unread more rest) (spend k)) r,
          greeting_log nmethods ms ++ [Sent Client [x05; x02]])
    else (Ret false, mkWorld (mkSock (unread more rest) k) r,
          greeting_log nmethods ms ++ [CloseCall Client]).
Proof.
  intros Hlen Hne Hk. unfold handle_greeting.
  change (Data ([x05; nmethods] ++ ms ++ more) :: rest)
    with (unread ([x05; nmethods] ++ ms ++ more) rest).
  rewrite (bind_run _ (recv_script 2 [x05; nmethods] _ rest k r eq_refl)).
  cbn [unpack_BB]. rewrite bind_lift.
  change (Byte.to_N x05 =? SOCKS_VERSION)%N with true.
  rewrite bind_assert_true.
  assert (Hpos : (0 <? Byte.to_N nmethods)%N = true).
  { apply N.ltb_lt. destruct ms; [congruence|]. simpl in Hlen. lia. }
  rewrite Hpos, bind_assert_true.
  unfold get_available_methods. rewrite <- Hlen.
  rewrite (bind_run _ (get_methods_script ms [] more rest k r)).
  cbn [app]. destruct (existsb (N.eqb 2) (map Byte.to_N ms)); cbn [negb].
  - change (pack_BB SOCKS_VERSION 2) with (Ret [x05; x02]).
    rewrite bind_lift.
    rewrite (bind_run _ (sendall_script [x05; x02] _ r Hk)).
    unfold ret, after. cbn. unfold greeting_log. reflexivity.
  - unfold close_call. rewrite bind_emit. unfold ret, after. cbn.
    unfold greeting_log. reflexivity.
Qed.

Section AuthScript.

Variable self : SocksProxy.
Variables (ulen plen : byte) (uname pw more : bytes).
Variables (rest : list seg) (k : option nat) (r : sock).
Hypothesis Hulen : length uname = N.to_nat (Byte.to_N ulen).
Hypothesis Hplen : length pw = N.to_nat (Byte.to_N plen).

Let request : bytes := [x01; ulen] ++ uname ++ [plen] ++ pw ++ more.
Let W (i : list seg) (b : option nat) : world := mkWorld (mkSock i b) r.

Lemma verify_credentials_script u p :
  utf8_decode uname = Some u ->
  utf8_decode pw = Some p ->
  k <> Some 0 ->
  verify_credentials self Client (W (Data request :: rest) k)
  = if py_eq u (username self) && py_eq p (password self)
    then (Ret true, W (unread more rest) (spend k),
          auth_log ulen uname plen pw ++ [Sent Client [x01; x00]])
    else (Ret false, W (unread more rest) (spend k),
          auth_log ulen uname plen pw
          ++ [Sent Client [x01; xff]; Close Client]).
Proof.
  intros Hu Hp Hk. unfold verify_credentials, W, request. cbn [app].
  rewrite (bind_run _ (recv_script1 x01 _ rest k r)).
  cbn [ord unread]. rewrite bind_lift.
  change (Byte.to_N x01 =? 1)%N with true. rewrite bind_assert_true.
  rewrite (bind_run _ (recv_script1 ulen _ rest k r)).
  cbn [ord]. rewrite bind_lift.
  rewrite (bind_run _ (recv_script (Byte.to_N ulen) uname _ rest k r
                         (eq_sym Hulen))).
  cbn [app unread].
  unfold decode at 1. rewrite Hu, bind_lift.
  rewrite (bind_run _ (recv_script1 plen _ rest k r)).
  cbn [ord]. rewrite bind_lift.
  rewrite (bind_run _ (recv_script (Byte.to_N plen) pw _ rest k r
                         (eq_sym Hplen))).
  unfold decode at 1. rewrite Hp, bind_lift.
  destruct (py_eq u (username self) && py_eq p (password self)).
  - change (pack_BB (Byte.to_N x01) 0) with (Ret [x01; x00]).
    rewrite bind_lift.
    rewrite (bind_run _ (sendall_script [x01; x00] _ r Hk)).
    reflexivity.
  - change (pack_BB (Byte.to_N x01) 255) with (Ret [x01; xff]).
    rewrite bind_lift.
    rewrite (bind_run _ (sendall_script [x01; xff] _ r Hk)).
    reflexivity.
Qed.

Lemma verify_credentials_bad_username :
  utf8_decode uname = None ->
  verify_credentials self Client (W (Data request :: rest) k)
  = (Raise UnicodeDecodeError, W (Data ([plen] ++ pw ++ more) :: rest) k,
     [Recv Client 1 [x01]; Recv Client 1 [ulen];
      Recv Client (length uname) uname]).
Proof.
  intros Hu. unfold verify_credentials, W, request. cbn [app].
  rewrite (bind_run _ (recv_script1 x01 _ rest k r)).
  cbn [ord unread]. rewrite bind_lift.
  change (Byte.to_N x01 =? 1)%N with true. rewrite bind_assert_true.
  rewrite (bind_run _ (recv_script1 ulen _ rest k r)).
  cbn [ord]. rewrite bind_lift.
  rewrite (bind_run _ (recv_script (Byte.to_N ulen) uname _ rest k r
                         (eq_sym Hulen))).
  cbn [app unread].
  unfold decode at 1. rewrite Hu, bind_lift_raise.
  reflexivity.
Qed.

Lemma verify_credentials_bad_password u :
  utf8_decode uname = Some u ->
  utf8_decode pw = None ->
  verify_credentials self Client (W (Data request :: rest) k)
  = (Raise UnicodeDecodeError, W (unread more rest) k,
     auth_log ulen uname plen pw).
Proof.
  intros Hu Hp. unfold verify_credentials, W, request. cbn [app].
  rewrite (bind_run _ (recv_script1 x01 _ rest k r)).
  cbn [ord unread]. rewrite bind_lift.
  change (Byte.to_N x01 =? 1)%N with true. rewrite bind_assert_true.
  rewrite (bind_run _ (recv_script1 ulen _ rest k r)).
  cbn [ord]. rewrite bind_lift.
  rewrite (bind_run _ (recv_script (Byte.to_N ulen) uname _ rest k r
                         (eq_sym Hulen))).
  cbn [app unread].
  unfold decode at 1. rewrite Hu, bind_lift.
  rewrite (bind_run _ (recv_script1 plen _ rest k r)).
  cbn [ord]. rewrite bind_lift.
  rewrite (bind_run _ (recv_script (Byte.to_N plen) pw _ rest k r
                         (eq_sym Hplen))).
  unfold decode at 1. rewrite Hp, bind_lift_raise.
  reflexivity.
Qed.

End AuthScript.

(** ** The shape of a session

    The log of a phase of the handshake: reads from the client, then one
    of a few endings. *)

Section Span.

Variable p : event -> bool.

Lemma take_skip t : t = take_while p t ++ skip_while p t.
Proof.
  induction t as [|e t IH]; [reflexivity|].
  simpl. destruct (p e); simpl; congruence.
Qed.

Lemma take_while_all t : Forall (fun e => p e = true) (take_while p t).
Proof.
  induction t as [|e t IH]; simpl; [constructor|].
  destruct (p e) eqn:E; constructor; assumption.
Qed.

Lemma skip_while_app t1 t2 :
  Forall (fun e => p e = true) t1 ->
  skip_while p (t1 ++ t2) = skip_while p t2.
Proof.
  induction 1 as [|e t1 He _ IH]; simpl; [reflexivity|].
  rewrite He. exact IH.
Qed.

Lemma take_while_app t1 t2 :
  Forall (fun e => p e = true) t1 ->
  take_while p (t1 ++ t2) = t1 ++ take_while p t2.
Proof.
  induction 1 as [|e t1 He _ IH]; simpl; [reflexivity|].
  rewrite He, IH. reflexivity.
Qed.

End Span.

Lemma recv_cases n w :
  (exists data w1,
     recv Client n w = (Ret data, w1, [Recv Client (N.to_nat n) data])) \/
  (exists w1,
     recv Client n w = (Raise OSError, w1, [RecvFault Client (N.to_nat n)])).
Proof.
  unfold recv.
  destruct (sock_recv (N.to_nat n) (inbox (get_sock Client w)))
    as [[data|] i]; eauto.
Qed.

Lemma sendall_cases d w :
  (exists w1, sendall Client d w = (Ret tt, w1, [Sent Client d])) \/
  sendall Client d w = (Raise OSError, w, [SendFault Client d]).
Proof.
  unfold sendall. destruct (sock_send (get_sock Client w)); eauto.
Qed.

Lemma ord_cases b :
  (exists c, b = [c] /\ ord b = Ret (Byte.to_N c)) \/ ord b = Raise TypeError.
Proof. destruct b as [|c [|c' b]]; simpl; eauto. Qed.

Lemma get_methods_loop_reads k : forall acc w,
  reads (log (get_methods_loop k Client acc w)) /\
  outcome (get_methods_loop k Client acc w) <> OutOfFuel.
Proof.
  induction k as [|k IH]; intros acc w.
  - split; [constructor | discriminate].
  - cbn [get_methods_loop].
    destruct (recv_cases 1 w) as [(data & w1 & E)|(w1 & E)].
    + rewrite (bind_run _ E).
      destruct (ord_cases data) as [(c & -> & Ec)|Ec]; rewrite Ec.
      * rewrite bind_lift. destruct (IH (acc ++ [Byte.to_N c]) w1) as [H1 H2].
        split; [|exact H2].
        rewrite log_after. constructor; [reflexivity | exact H1].
      * rewrite bind_lift_raise. split; [|discriminate].
        repeat constructor.
    + rewrite (bind_raise _ E). split; [|discriminate].
      repeat constructor.
Qed.

Lemma bind_assoc {A B C} (m : M A) (g : A -> M B) (f : B -> M C) w :
  bind (bind m g) f w = bind m (fun x => bind (g x) f) w.
Proof.
  unfold bind. destruct (m w) as [[[a|e|] w1] t1]; try reflexivity.
  destruct (g a w1) as [[[b|e|] w2] t2]; try reflexivity.
  destruct (f b w2) as [[r w3] t3]. rewrite app_assoc. reflexivity.
Qed.

(** Symbolic execution: one call at the head of the program. *)
Ltac step_recv :=
  rewrite ?bind_assoc;
  match goal with
  | |- context [bind (recv Client ?n) ?f ?w] =>
      let data := fresh "data" in
      let w1 := fresh "w" in
      let E := fresh "E" in
      destruct (recv_cases n w) as [(data & w1 & E)|(w1 & E)];
      [rewrite (bind_run f E) | rewrite (bind_raise f E)];
      clear E; cbv beta
  end.

Ltac step_sendall :=
  rewrite ?bind_assoc;
  match goal with
  | |- context [bind (sendall Client ?d) ?f ?w] =>
      let w1 := fresh "w" in
      let E := fresh "E" in
      destruct (sendall_cases d w) as [(w1 & E)|E];
      [rewrite (bind_run f E) | rewrite (bind_raise f E)];
      clear E; cbv beta
  end.

Ltac step_assert :=
  rewrite ?bind_assoc;
  match goal with
  | |- context [bind (assert ?c) ?f ?w] =>
      let E := fresh "E" in
      destruct c eqn:E;
      [rewrite bind_assert_true | rewrite bind_assert_false]
  end.

Ltac step_lift :=
  rewrite ?bind_assoc;
  match goal with
  | |- context [bind (lift (Ret ?a)) ?f ?w] => rewrite (bind_lift a f w)
  | |- context [bind (lift (Raise ?e)) ?f ?w] =>
      rewrite (bind_lift_raise e f w)
  | |- context [bind (ret ?a) ?f ?w] => rewrite (bind_ret a f w)
  | |- context [bind (emit ?e) ?f ?w] => rewrite (bind_emit e f w)
  end; cbv beta iota.

Ltac tidy :=
  repeat rewrite ?outcome_after, ?log_after, ?final_after;
  cbn [app skip_while take_while is_read is_prep outcome log final fst snd].

Lemma handle_greeting_cases w :
  greeting_end (outcome (handle_greeting w))
               (skip_while is_read (log (handle_greeting w))).
Proof.
  unfold handle_greeting.
  step_recv; tidy; [|constructor].
  destruct data as [|b0 [|b1 [|b2 data]]]; cbn [unpack_BB];
    step_lift; tidy; try constructor.
  step_assert; tidy; [|constructor].
  step_assert; tidy; [|constructor].
  destruct (get_methods_loop_reads (N.to_nat (Byte.to_N b1)) [] w0)
    as [Hr Ho].
  fold (get_available_methods Client (Byte.to_N b1)) in Hr, Ho.
  destruct (get_available_methods Client (Byte.to_N b1) w0)
    as [[[ms|e|] w1] tm] eqn:EM; cbn [outcome log fst snd] in Hr, Ho.
  - rewrite (bind_run _ EM). tidy. rewrite (skip_while_app _ _ Hr).
    destruct (existsb (N.eqb 2) ms); cbn [negb].
    + change (pack_BB SOCKS_VERSION 2) with (Ret [x05; x02]).
      step_lift. step_sendall; tidy; constructor.
    + unfold close_call. step_lift. tidy. constructor.
  - rewrite (bind_raise _ EM). tidy.
    rewrite <- (app_nil_r tm), (skip_while_app _ _ Hr). constructor.
  - congruence.
Qed.

Ltac step_ord :=
  match goal with
  | |- context [bind (lift (ord ?b)) ?f ?w] =>
      let c := fresh "c" in
      let E := fresh "E" in
      destruct (ord_cases b) as [(c & -> & E)|E]; rewrite E; clear E;
      step_lift
  end.

Lemma decode_cases b :
  (exists s, decode b = Ret s) \/ decode b = Raise UnicodeDecodeError.
Proof. unfold decode. destruct (utf8_decode b); eauto. Qed.

Ltac step_decode :=
  match goal with
  | |- context [bind (lift (decode ?b)) ?f ?w] =>
      let s := fresh "s" in
      let E := fresh "E" in
      destruct (decode_cases b) as [(s & E)|E]; rewrite E; clear E;
      step_lift
  end.

Lemma verify_credentials_cases self w :
  verify_end (outcome (verify_credentials self Client w))
             (skip_while is_read (log (verify_credentials self Client w))).
Proof.
  unfold verify_credentials.
  step_recv; tidy; [|constructor].
  step_ord; tidy; [|constructor].
  step_assert; tidy; [|constructor].
  apply N.eqb_eq in E. rewrite E.
  step_recv; tidy; [|constructor].
  step_ord; tidy; [|constructor].
  step_recv; tidy; [|constructor].
  step_decode; tidy; [|constructor].
  step_recv; tidy; [|constructor].
  step_ord; tidy; [|constructor].
  step_recv; tidy; [|constructor].
  step_decode; tidy; [|constructor].
  destruct (py_eq s (username self) && py_eq s0 (password self)).
  - change (pack_BB 1 0) with (Ret [x01; x00]). step_lift.
    step_sendall; tidy; constructor.
  - change (pack_BB 1 255) with (Ret [x01; xff]). step_lift.
    step_sendall; tidy; [|constructor].
    unfold close. step_lift. tidy. constructor.
Qed.

Lemma bind_raise_now {A B} e (f : A -> M B) w :
  bind (raise e) f w = (Raise e, w, []).
Proof. reflexivity. Qed.

Lemma bind_try_ret {A B} (m : M A) h (f : A -> M B) w a w1 t :
  m w = (Ret a, w1, t) -> bind (try_except m h) f w = after t (f a w1).
Proof.
  intros E. apply (bind_run f). unfold try_except. rewrite E. reflexivity.
Qed.

Lemma bind_try_raise {A B} (m : M A) h (f : A -> M B) w e w1 t :
  m w = (Raise e, w1, t) ->
  bind (try_except m h) f w = after t (bind (h e) f w1).
Proof.
  intros E. unfold bind at 1, try_except. rewrite E.
  unfold bind, after.
  destruct (h e w1) as [[[a|e'|] w2] t2]; cbn; try reflexivity.
  destruct (f a w2) as [[r w3] t3]. cbn. rewrite app_assoc. reflexivity.
Qed.

Arguments bind_try_ret {A B m} h f {w a w1 t} _.
Arguments bind_try_raise {A B m} h f {w e w1 t} _.

(** ** struct.pack *)

Lemma pack_B_byte (b : byte) : pack_B (Byte.to_N b) = Ret [b].
Proof. unfold pack_B. rewrite Byte.of_to_N. reflexivity. Qed.

Lemma pack_B_length n b : pack_B n = Ret b -> length b = 1.
Proof.
  unfold pack_B. destruct (Byte.of_N n); intros H; inversion H. reflexivity.
Qed.

Lemma pack_H_length n b : pack_H n = Ret b -> length b = 2.
Proof.
  unfold pack_H. destruct (n <? 65536)%N; [|discriminate].
  destruct (pack_B (n / 256)) as [hi|e|] eqn:E1; cbn; try discriminate.
  destruct (pack_B (n mod 256)) as [lo|e|] eqn:E2; cbn; try discriminate.
  intros H; inversion H. rewrite length_app.
  rewrite (pack_B_length _ E1), (pack_B_length _ E2). reflexivity.
Qed.

Lemma pack_I_length n b : pack_I n = Ret b -> length b = 4.
Proof.
  unfold pack_I. destruct (n <? 4294967296)%N; [|discriminate].
  destruct (pack_H (n / 65536)) as [hi|e|] eqn:E1; cbn; try discriminate.
  destruct (pack_H (n mod 65536)) as [lo|e|] eqn:E2; cbn; try discriminate.
  intros H; inversion H. rewrite length_app.
  rewrite (pack_H_length _ E1), (pack_H_length _ E2). reflexivity.
Qed.

Lemma generate_failed_reply_bytes (a : byte) :
  generate_failed_reply (Byte.to_N a) 5 = Ret (failed_reply a).
Proof.
  unfold generate_failed_reply, pack_BBBBIH.
  change (pack_B SOCKS_VERSION) with (Ret [x05]).
  change (pack_B 5) with (Ret [x05]).
  change (pack_B 0) with (Ret [x00]).
  rewrite pack_B_byte. reflexivity.
Qed.

Lemma pack_ok_reply (a : byte) addr p reply :
  pack_BBBBIH SOCKS_VERSION 0 0 (Byte.to_N a) addr p = Ret reply ->
  ok_reply a reply.
Proof.
  unfold pack_BBBBIH.
  change (pack_B SOCKS_VERSION) with (Ret [x05]).
  change (pack_B 0) with (Ret [x00]).
  rewrite pack_B_byte. cbn [rbind].
  destruct (pack_I addr) as [xi|e|] eqn:E1; cbn; try discriminate.
  destruct (pack_H p) as [xh|e|] eqn:E2; cbn; try discriminate.
  intros H; inversion H. exists (xi ++ xh). split; [reflexivity|].
  rewrite length_app, (pack_I_length _ E1), (pack_H_length _ E2).
  reflexivity.
Qed.

Lemma pack_B_cases n :
  (exists b, pack_B n = Ret b) \/ pack_B n = Raise StructError.
Proof. unfold pack_B. destruct (Byte.of_N n); eauto. Qed.

Lemma pack_H_cases n :
  (exists b, pack_H n = Ret b) \/ pack_H n = Raise StructError.
Proof.
  unfold pack_H. destruct (n <? 65536)%N; [|auto].
  destruct (pack_B_cases (n / 256)) as [[hi ->]| ->]; cbn; [|auto].
  destruct (pack_B_cases (n mod 256)) as [[lo ->]| ->]; cbn; eauto.
Qed.

Lemma pack_I_cases n :
  (exists b, pack_I n = Ret b) \/ pack_I n = Raise StructError.
Proof.
  unfold pack_I. destruct (n <? 4294967296)%N; [|auto].
  destruct (pack_H_cases (n / 65536)) as [[hi ->]| ->]; cbn; [|auto].
  destruct (pack_H_cases (n mod 65536)) as [[lo ->]| ->]; cbn; eauto.
Qed.

Lemma pack_BBBBIH_cases a b c d i h :
  (exists x, pack_BBBBIH a b c d i h = Ret x) \/
  pack_BBBBIH a b c d i h = Raise StructError.
Proof.
  unfold pack_BBBBIH.
  destruct (pack_B_cases a) as [[xa ->]| ->]; cbn; [|auto].
  destruct (pack_B_cases b) as [[xb ->]| ->]; cbn; [|auto].
  destruct (pack_B_cases c) as [[xc ->]| ->]; cbn; [|auto].
  destruct (pack_B_cases d) as [[xd ->]| ->]; cbn; [|auto].
  destruct (pack_I_cases i) as [[xi ->]| ->]; cbn; [|auto].
  destruct (pack_H_cases h) as [[xh ->]| ->]; cbn; eauto.
Qed.

Lemma unpack_I_cases b :
  (exists n, unpack_I b = Ret n) \/ unpack_I b = Raise StructError.
Proof.
  destruct b as [|b0 [|b1 [|b2 [|b3 [|b4 b]]]]]; cbn; eauto.
Qed.

Lemma connect_cases net a p w :
  (exists name w1, connect net a p w = (Ret name, w1, [])) \/
  connect net a p w = (Raise OSError, w, []).
Proof.
  unfold connect. destruct (dial net a p) as [[name peer]|]; eauto.
Qed.

Lemma reads_preps t : reads t -> preps t.
Proof.
  induction 1 as [|e t H _ IH]; constructor; [|exact IH].
  destruct e as [[]| []| | | | | | | | | |]; try discriminate; reflexivity.
Qed.

Lemma try_connect_cases self net cmd a address p w :
  connect_end cmd a address
    (outcome (try_connect self net cmd (Byte.to_N a) address p w))
    (log (try_connect self net cmd (Byte.to_N a) address p w)).
Proof.
  unfold try_connect. destruct (cmd =? 1)%N eqn:Ec.
  - assert (Hrest : forall w' pre, preps pre ->
      connect_end cmd a address
        (outcome (after pre
           ((address' <- local address ;;
             bind_address <- connect net address' p ;;
             emit (Connected address' p) ;;
             addr <- lift (unpack_I (fst bind_address)) ;;
             reply <- lift (pack_BBBBIH SOCKS_VERSION 0 0 (Byte.to_N a) addr
                              (snd bind_address)) ;;
             ret (Some reply)) w')))
        (log (after pre
           ((address' <- local address ;;
             bind_address <- connect net address' p ;;
             emit (Connected address' p) ;;
             addr <- lift (unpack_I (fst bind_address)) ;;
             reply <- lift (pack_BBBBIH SOCKS_VERSION 0 0 (Byte.to_N a) addr
                              (snd bind_address)) ;;
             ret (Some reply)) w')))).
    { intros w' pre Hpre.
      destruct address as [ad|]; cbn [local].
      2:{ rewrite bind_raise_now. tidy. rewrite app_nil_r.
          apply ConnFail; assumption. }
      step_lift.
      destruct (connect_cases net ad p w') as [(name & w1 & E)|E].
      2:{ rewrite (bind_raise _ E). tidy. rewrite app_nil_r.
          apply ConnFail; assumption. }
      rewrite (bind_run _ E). step_lift.
      assert (Hps : preps (pre ++ [Connected ad p])).
      { apply Forall_app. split; [assumption | repeat constructor]. }
      destruct (unpack_I_cases (fst name)) as [[addr Ea]|Ea]; rewrite Ea;
        step_lift.
      2:{ tidy. apply ConnFail; assumption. }
      destruct (pack_BBBBIH_cases SOCKS_VERSION 0 0 (Byte.to_N a) addr
                  (snd name)) as [[reply Er]|Er]; rewrite Er; step_lift.
      2:{ tidy. apply ConnFail; assumption. }
      unfold ret. tidy.
      eapply ConnOk; eauto.
      - apply in_or_app. right. left. reflexivity.
      - eapply pack_ok_reply; eauto. }
    destruct (str_eqb (eip self) any_address); cbn [negb].
    + step_lift. pose proof (Hrest w [] (Forall_nil _)) as H.
      rewrite after_nil in H. exact H.
    + destruct (bind_ok net (eip self)).
      * step_lift. apply Hrest. repeat constructor.
      * rewrite bind_raise_now. apply ConnFail; [assumption | constructor].
  - unfold close_call. step_lift. unfold ret. tidy. apply ConnNot.
    assumption.
Qed.

Lemma forward_tcp_log src dst w :
  relay_log src dst (log (forward_tcp src dst w)).
Proof. unfold forward_tcp. apply forward_loop_spec. lia. Qed.

Lemma spawn_cases src dst w :
  exists t w1,
    spawn src dst w = (Ret (mkTask src dst (Ret tt) t), w1, [Spawn src dst])
    /\ relay_log src dst t.
Proof.
  unfold spawn.
  pose proof (forward_tcp_returns src dst w) as Ho.
  pose proof (forward_tcp_log src dst w) as Hl.
  destruct (forward_tcp src dst w) as [[r w1] t]. cbn in Ho, Hl. subst r.
  eauto.
Qed.

Lemma reply_and_relay_cases self net c a address p w pre :
  reads pre ->
  (address <> None -> a = x01) ->
  ending (Some (c, a))
    (outcome (reply_and_relay self net (Byte.to_N c) (Byte.to_N a) address p w))
    (pre ++ take_while is_prep
       (log (reply_and_relay self net (Byte.to_N c) (Byte.to_N a) address p w)))
    (skip_while is_prep
       (log (reply_and_relay self net (Byte.to_N c) (Byte.to_N a) address p w))).
Proof.
  intros Hpre Haddr. unfold reply_and_relay.
  pose proof (try_connect_cases self net (Byte.to_N c) a address p w) as Hc.
  destruct (try_connect self net (Byte.to_N c) (Byte.to_N a) address p w)
    as [[r w1] ps] eqn:ET.
  cbn [outcome log fst snd] in Hc.
  inversion Hc as [Ecmd|e ps' Ecmd Hps|reply ps' ad q Ecmd Hps Had Hin Hok];
    subst.
  - (* not CONNECT *)
    rewrite (bind_try_ret _ _ ET). unfold ret. tidy. rewrite app_nil_r.
    apply EndNotConnect; [|assumption].
    intros ->. discriminate.
  - (* the attempt failed *)
    apply N.eqb_eq in Ecmd.
    assert (c = x01) by (apply to_N_inj_lit; exact Ecmd). subst c.
    rewrite (bind_try_raise _ _ ET).
    rewrite !bind_assoc. step_lift. rewrite !bind_assoc.
    rewrite generate_failed_reply_bytes. step_lift. step_lift.
    tidy. rewrite (take_while_app _ _ Hps), (skip_while_app _ _ Hps).
    tidy.
    step_sendall; tidy; [|rewrite app_nil_r; apply EndRefusedLost].
    change (index1 (failed_reply a)) with (@Ret N 5%N). step_lift.
    cbn [N.eqb Pos.eqb andb]. step_lift. cbn [fst local].
    rewrite bind_raise_now. tidy. rewrite app_nil_r. apply EndRefused.
  - (* connected *)
    apply N.eqb_eq in Ecmd.
    assert (c = x01) by (apply to_N_inj_lit; exact Ecmd). subst c.
    assert (a = x01) by (apply Haddr; discriminate). subst a.
    assert (Hconn : forall tl, connected (pre ++ ps ++ tl)).
    { intros tl. exists ad, q. apply in_or_app. right.
      apply in_or_app. left. exact Hin. }
    rewrite (bind_try_ret _ _ ET).
    tidy. rewrite (take_while_app _ _ Hps), (skip_while_app _ _ Hps).
    destruct Hok as (bound & -> & Hb).
    step_sendall; tidy.
    2:{ apply EndReplyLost; [apply Hconn | exists bound; auto]. }
    change (index1 (x05 :: x00 :: x00 :: x01 :: bound)) with (@Ret N 0%N).
    step_lift. change (Byte.to_N x01 =? 1)%N with true.
    cbn [N.eqb andb]. rewrite !bind_assoc.
    destruct (spawn_cases Client Remote w0) as (t1 & w2 & E1 & H1).
    rewrite (bind_run _ E1). rewrite !bind_assoc.
    destruct (spawn_cases Remote Client w2) as (t2 & w3 & E2 & H2).
    rewrite (bind_run _ E2). step_lift. cbn [fst snd local]. step_lift.
    rewrite (bind_run (w1:=w3) (t1:=[Join Client Remote t1]) _ eq_refl).
    step_lift.
    rewrite (bind_run (w1:=w3) (t1:=[Join Remote Client t2]) _ eq_refl).
    unfold close, emit. tidy.
    apply EndRelay; [apply Hconn | exists bound; auto | exact H1 | exact H2].
Qed.

Lemma handle_request_cases self net w :
  ending (header_of (log (handle_request self net w)))
         (outcome (handle_request self net w))
         (take_while is_prep (log (handle_request self net w)))
         (skip_while is_prep (log (handle_request self net w))).
Proof.
  unfold handle_request.
  step_recv; tidy; [|apply EndAbort; repeat constructor].
  destruct data as [|v [|c [|rsv [|a [|b4 data]]]]]; cbn [unpack_BBBB];
    step_lift; tidy; cbn [header_of];
    try (apply EndAbort; repeat constructor).
  step_assert; tidy; [|apply EndAbort; repeat constructor].
  unfold read_address. destruct (Byte.to_N a =? 1)%N eqn:Ea.
  - rewrite !bind_assoc.
    step_recv; tidy; [|apply EndAbort; repeat constructor].
    destruct data as [|a0 [|a1 [|a2 [|a3 [|a4 data]]]]]; cbn [inet_ntoa];
      step_lift; tidy; try (apply EndAbort; repeat constructor).
    set (address := str_of_octet _ ++ _).
    step_lift.
    step_recv; tidy; [|apply EndAbort; repeat constructor].
    destruct data as [|p0 [|p1 [|p2 data]]]; cbn [unpack_H];
      step_lift; tidy; try (apply EndAbort; repeat constructor).
    refine (@reply_and_relay_cases self net c a _ _ _
              [Recv Client (N.to_nat 4) [v; c; rsv; a];
               Recv Client (N.to_nat 4) [a0; a1; a2; a3];
               Recv Client (N.to_nat 2) [p0; p1]] _ _).
    + repeat constructor.
    + intros _. apply to_N_inj_lit. apply N.eqb_eq. exact Ea.
  - destruct (Byte.to_N a =? 3)%N.
    + rewrite bind_raise_now. tidy. apply EndAbort. repeat constructor.
    + step_lift.
      step_recv; tidy; [|apply EndAbort; repeat constructor].
      destruct data as [|p0 [|p1 [|p2 data]]]; cbn [unpack_H];
        step_lift; tidy; try (apply EndAbort; repeat constructor).
      refine (@reply_and_relay_cases self net c a _ _ _
                [Recv Client (N.to_nat 4) [v; c; rsv; a];
                 Recv Client (N.to_nat 2) [p0; p1]] _ _).
      * repeat constructor.
      * congruence.
Qed.

(** ** The session as a whole

    The log of the handler follows the state machine: reads, the method
    selection, reads, the auth reply, then the request phase; it can stop
    at each state. *)

Lemma reads_take t : reads (take_while is_read t).
Proof. apply take_while_all. Qed.

Lemma preps_take t : preps (take_while is_prep t).
Proof. apply take_while_all. Qed.

Lemma split_reads t :
  exists rs, reads rs /\ t = rs ++ skip_while is_read t.
Proof.
  exists (take_while is_read t). split; [apply reads_take | apply take_skip].
Qed.

Lemma split_preps t :
  exists ps, preps ps /\ t = ps ++ skip_while is_prep t /\
             ps = take_while is_prep t.
Proof.
  exists (take_while is_prep t).
  repeat split; [apply preps_take | apply take_skip].
Qed.

Lemma handle_session self net w :
  session (outcome (handle self net w)) (log (handle self net w)).
Proof.
  unfold handle.
  pose proof (handle_greeting_cases w) as Hg.
  destruct (handle_greeting w) as [[r1 w1] t1] eqn:EG.
  cbn [outcome log fst snd] in Hg.
  destruct (split_reads t1) as (rs1 & Hr1 & Ht1).
  inversion Hg as [Ho Hs|Ho Hs|e Ho Hs|Ho Hs]; subst r1;
    rewrite <- Hs in Ht1; clear Hs Hg; subst t1.
  - (* method 2 selected *)
    rewrite (bind_run _ EG). cbn [negb].
    pose proof (verify_credentials_cases self w1) as Hv.
    destruct (verify_credentials self Client w1) as [[r2 w2] t2] eqn:EV.
    cbn [outcome log fst snd] in Hv.
    destruct (split_reads t2) as (rs2 & Hr2 & Ht2).
    inversion Hv as [Ho2 Hs2|Ho2 Hs2|e Ho2 Hs2|d Ho2 Hs2]; subst r2;
      rewrite <- Hs2 in Ht2; clear Hs2 Hv; subst t2.
    + rewrite (bind_run _ EV). cbn [negb].
      pose proof (handle_request_cases self net w2) as Hq.
      destruct (split_preps (log (handle_request self net w2)))
        as (ps & Hps & Hl & Hp).
      rewrite <- Hp in Hq. rewrite Hl in Hq at 1. tidy. rewrite Hl.
      rewrite <- !app_assoc. cbn [app].
      apply SessRequest; auto.
    + rewrite (bind_run _ EV). cbn [negb ret]. tidy.
      rewrite ?app_nil_r, <- !app_assoc. cbn [app].
      apply SessAuth; auto. constructor.
    + rewrite (bind_raise _ EV). tidy.
      rewrite <- !app_assoc. cbn [app].
      apply SessAuth; auto. constructor.
    + rewrite (bind_raise _ EV). tidy.
      rewrite <- !app_assoc. cbn [app].
      apply SessAuth; auto. constructor.
  - rewrite (bind_run _ EG). cbn [negb ret]. tidy. rewrite ?app_nil_r.
    apply SessGreeting; auto. constructor.
  - rewrite (bind_raise _ EG). tidy.
    apply SessGreeting; auto. constructor.
  - rewrite (bind_raise _ EG). tidy.
    apply SessGreeting; auto. constructor.
Qed.

(** ** Where events can stand in a log *)

Unset Implicit Arguments.

Section Positions.

Variable p : event -> bool.

Lemma none_app t1 t2 : none p t1 -> none p t2 -> none p (t1 ++ t2).
Proof. intros H1 H2. apply Forall_app. split; assumption. Qed.

Lemma none_cons e t : p e = false -> none p t -> none p (e :: t).
Proof. intros. constructor; assumption. Qed.

Lemma none_nil : none p [].
Proof. constructor. Qed.

Lemma none_absent t pre e post :
  none p t -> t = pre ++ e :: post -> p e = true -> False.
Proof.
  intros Hn -> He. apply Forall_app in Hn as [_ Hn].
  inversion Hn; subst. congruence.
Qed.

(** An event that satisfies [p], after a prefix in which no event does,
    is the first one. *)
Lemma first_after l1 : forall l2 pre e post,
  l1 ++ l2 = pre ++ e :: post -> none p l1 -> p e = true ->
  exists pre', pre = l1 ++ pre' /\ l2 = pre' ++ e :: post.
Proof.
  induction l1 as [|x l1 IH]; intros l2 pre e post H Hn He.
  - exists pre. split; [reflexivity | exact H].
  - inversion Hn as [|? ? Hx Hn']; subst.
    destruct pre as [|y pre]; cbn in H; inversion H; subst.
    + congruence.
    + destruct (IH _ _ _ _ H2 Hn' He) as (pre' & -> & ->).
      exists pre'. split; reflexivity.
Qed.

(** The only event that satisfies [p]. *)
Lemma only_at l1 : forall x l2 pre e post,
  l1 ++ x :: l2 = pre ++ e :: post ->
  none p l1 -> none p l2 -> p e = true ->
  pre = l1 /\ e = x /\ post = l2.
Proof.
  intros x l2 pre e post H H1 H2 He.
  destruct (first_after _ _ _ _ _ H H1 He) as (pre' & -> & H').
  destruct pre' as [|y pre']; cbn in H'; inversion H'; subst.
  - rewrite app_nil_r. auto.
  - exfalso. eapply none_absent; eauto.
Qed.

End Positions.

Lemma prep_not_relay e : is_prep e = true -> is_relay e = false.
Proof.
  destruct e as [[]| []| | | | | | | | | |]; try discriminate; reflexivity.
Qed.

Lemma preps_none p t :
  (forall e, is_prep e = true -> p e = false) -> preps t -> none p t.
Proof.
  intros Hp. induction 1 as [|e t H _ IH]; constructor; auto.
Qed.

Lemma reads_none p t :
  (forall e, is_prep e = true -> p e = false) -> reads t -> none p t.
Proof. intros Hp H. apply preps_none; [exact Hp | apply reads_preps, H]. Qed.

(** [none p t] for a log [t] made of reads, set-up and explicit events;
    [lem] shows that [p] holds of no read or set-up event. *)
Ltac solve_none lem :=
  repeat match goal with
  | |- none _ [] => apply none_nil
  | |- none _ (_ :: _) => apply none_cons; [reflexivity|]
  | |- none _ (_ ++ _) => apply none_app
  | H : reads ?t |- none _ ?t => apply reads_none; [exact lem | exact H]
  | H : preps ?t |- none _ ?t => apply preps_none; [exact lem | exact H]
  end.

(** A session that never starts the relay. *)
Lemma session_quiet out t :
  session out t ->
  none is_relay t \/
  exists hs reply t1 t2,
    out = Ret tt /\
    t = hs ++ [Sent Client reply; Spawn Client Remote; Spawn Remote Client;
               Join Client Remote t1; Join Remote Client t2; Close Client] /\
    none is_relay hs /\
    In (Sent Client [x05; x02]) hs /\ In (Sent Client [x01; x00]) hs /\
    connected hs /\ ok_reply x01 reply /\
    relay_log Client Remote t1 /\ relay_log Remote Client t2.
Proof.
  intros H. inversion H as [o rs tl Hr Hs|o rs1 rs2 tl Hr1 Hr2 Hs
                            |o rs1 rs2 ps tl Hr1 Hr2 Hps He]; subst.
  - left. inversion Hs; subst; solve_none prep_not_relay.
  - left. inversion Hs; subst; solve_none prep_not_relay.
  - inversion He as [| | | | |ps' reply t1 t2 Hc Hok Hl1 Hl2]; subst;
      try (left; solve [solve_none prep_not_relay]).
    right. exists (rs1 ++ Sent Client [x05; x02] :: rs2
                   ++ Sent Client [x01; x00] :: ps), reply, t1, t2.
    split; [reflexivity|]. split.
    { rewrite <- !app_assoc. cbn. rewrite <- !app_assoc. reflexivity. }
    split; [solve_none prep_not_relay|].
    split; [apply in_or_app; right; left; reflexivity|].
    split.
    { apply in_or_app. right. right. apply in_or_app. right. left.
      reflexivity. }
    split; [|auto].
    destruct Hc as (ad & q & Hin). exists ad, q.
    apply in_or_app. right. right. apply in_or_app. right. right.
    exact Hin.
Qed.

(** ** The claims *)

(** C1.  No relay task is created or joined, and the outbound socket is
    not read or written, before the method selection [05 02], the auth
    success reply [01 00] and a success reply (status 0) have been sent to
    the client and the outbound connection has been made; and a session
    that ends with an exception has no relay event at all. *)
Theorem relay_needs_handshake self net w :
  (forall pre e post,
     log (handle self net w) = pre ++ e :: post ->
     is_relay e = true ->
     In (Sent Client [x05; x02]) pre /\
     In (Sent Client [x01; x00]) pre /\
     connected pre /\
     exists reply, In (Sent Client reply) pre /\ ok_reply x01 reply) /\
  (forall err,
     outcome (handle self net w) = Raise err ->
     none is_relay (log (handle self net w))).
Proof.
  destruct (session_quiet _ _ (handle_session self net w))
    as [Hq|(hs & reply & t1 & t2 & Ho & Hl & Hn & H1 & H2 & H3 & H4 & _)].
  - split; [|intros; assumption].
    intros pre e post H He. exfalso. eapply none_absent; eauto.
  - split; [|intros err Herr; congruence].
    intros pre e post H He. rewrite Hl in H.
    change (hs ++ [Sent Client reply; Spawn Client Remote;
                   Spawn Remote Client; Join Client Remote t1;
                   Join Remote Client t2; Close Client])
      with (hs ++ [Sent Client reply]
               ++ [Spawn Client Remote; Spawn Remote Client;
                   Join Client Remote t1; Join Remote Client t2;
                   Close Client]) in H.
    rewrite app_assoc in H.
    destruct (first_after is_relay _ _ _ _ _ H) as (pre' & -> & _);
      [solve_none prep_not_relay; exact Hn | exact He |].
    repeat split.
    + apply in_or_app. left. apply in_or_app. left. exact H1.
    + apply in_or_app. left. apply in_or_app. left. exact H2.
    + destruct H3 as (ad & q & Hin). exists ad, q.
      apply in_or_app. left. apply in_or_app. left. exact Hin.
    + exists reply. split; [|exact H4].
      apply in_or_app. left. apply in_or_app. right. left. reflexivity.
Qed.

(** C1 at the session [Demo.connect_ok], for its first [Spawn]. *)
Lemma relay_needs_handshake_witness :
  let t := log (handle Demo.proxy Demo.net Demo.connect_ok) in
  In (Sent Client [x05; x02]) (firstn 14 t) /\
  In (Sent Client [x01; x00]) (firstn 14 t) /\
  connected (firstn 14 t) /\
  exists reply, In (Sent Client reply) (firstn 14 t) /\ ok_reply x01 reply.
Proof.
  intros t.
  apply (proj1 (relay_needs_handshake Demo.proxy Demo.net Demo.connect_ok)
           (firstn 14 t) (Spawn Client Remote) (skipn 15 t)).
  - vm_compute. reflexivity.
  - reflexivity.
Defined.

(** *** Replies in a session *)

Lemma prep_not_reply e : is_prep e = true -> is_reply e = false.
Proof.
  destruct e as [[]| []| | | | | | | | | |]; try discriminate; reflexivity.
Qed.

Lemma prep_not_auth_ok e : is_prep e = true -> is_auth_ok e = false.
Proof.
  destruct e as [[]| []| | | | | | | | | |]; try discriminate; reflexivity.
Qed.

Lemma ok_reply_not_auth_ok a reply :
  ok_reply a reply -> is_auth_ok (Sent Client reply) = false.
Proof.
  intros (bound & -> & Hb).
  destruct bound as [|? bound]; [discriminate | reflexivity].
Qed.

Lemma ok_reply_status a reply :
  ok_reply a reply -> length reply = 10 /\ nth_error reply 1 = Some x00.
Proof.
  intros (bound & -> & Hb). split; [|reflexivity].
  rewrite length_app, Hb. reflexivity.
Qed.

(** What follows the auth success reply is the request phase. *)
Lemma session_request out t pre post :
  session out t ->
  t = pre ++ Sent Client [x01; x00] :: post ->
  exists rs1 rs2 ps tl,
    reads rs1 /\ reads rs2 /\
    pre = rs1 ++ Sent Client [x05; x02] :: rs2 /\
    preps ps /\ post = ps ++ tl /\ ending (header_of post) out ps tl.
Proof.
  intros H Ht.
  destruct H as [o rs tl Hr Hs|o rs1 rs2 tl Hr1 Hr2 Hs
                 |o rs1 rs2 ps tl Hr1 Hr2 Hps He].
  - exfalso. eapply (none_absent is_auth_ok); [|exact Ht|reflexivity].
    inversion Hs; subst; solve_none prep_not_auth_ok.
  - exfalso. eapply (none_absent is_auth_ok); [|exact Ht|reflexivity].
    inversion Hs; subst; solve_none prep_not_auth_ok.
  - change (rs1 ++ Sent Client [x05; x02]
              :: rs2 ++ Sent Client [x01; x00] :: ps ++ tl)
      with (rs1 ++ [Sent Client [x05; x02]]
              ++ rs2 ++ Sent Client [x01; x00] :: ps ++ tl) in Ht.
    rewrite !app_assoc in Ht.
    apply (only_at is_auth_ok) in Ht as (-> & _ & ->);
      [| solve_none prep_not_auth_ok | | reflexivity].
    + exists rs1, rs2, ps, tl. rewrite <- app_assoc. auto 10.
    + apply none_app; [solve_none prep_not_auth_ok|].
      inversion He as [| | | |? reply Hc Hok|? reply ? ? Hc Hok]; subst;
        try (solve_none prep_not_auth_ok; fail);
        (apply none_cons;
         [exact (ok_reply_not_auth_ok _ _ Hok)
         | solve_none prep_not_auth_ok]).
Qed.

Lemma header_bytes n hdr post c a :
  header_of (Recv Client n hdr :: post) = Some (c, a) ->
  nth_error hdr 1 = Some c /\ nth_error hdr 3 = Some a.
Proof.
  destruct hdr as [|h0 [|h1 [|h2 [|h3 [|h4 hdr]]]]]; cbn; try discriminate.
  intros H; inversion H. auto.
Qed.

Lemma session_failure_reply out t pre reply post :
  session out t ->
  t = pre ++ Sent Client reply :: post ->
  length reply = 10 ->
  nth_error reply 1 <> Some x00 ->
  post = [] /\ none is_relay t /\ out = Raise UnboundLocalError.
Proof.
  intros H Ht Hlen Hst.
  assert (Hr : is_reply (Sent Client reply) = true)
    by (cbn; rewrite Hlen; reflexivity).
  destruct H as [o rs tl Hr1 Hs|o rs1 rs2 tl Hr1 Hr2 Hs
                 |o rs1 rs2 ps tl Hr1 Hr2 Hps He].
  - exfalso. eapply (none_absent is_reply); [|exact Ht|exact Hr].
    inversion Hs; subst; solve_none prep_not_reply.
  - exfalso. eapply (none_absent is_reply); [|exact Ht|exact Hr].
    inversion Hs; subst; solve_none prep_not_reply.
  - inversion He as [| |a ps' e|a ps' e|ps' r Hc Hok
                     |ps' r t1 t2 Hc Hok Hl1 Hl2]; subst;
      try (exfalso; eapply (none_absent is_reply);
           [|exact Ht|exact Hr]; solve_none prep_not_reply; fail).
    + (* the failure reply *)
      split; [|split; [solve_none prep_not_relay | reflexivity]].
      change (rs1 ++ Sent Client [x05; x02]
                :: rs2 ++ Sent Client [x01; x00]
                :: ps ++ [LogError e; Sent Client (failed_reply a)])
        with (rs1 ++ [Sent Client [x05; x02]]
                ++ rs2 ++ [Sent Client [x01; x00]]
                ++ ps ++ [LogError e]
                ++ Sent Client (failed_reply a) :: []) in Ht.
      rewrite !app_assoc in Ht.
      apply (only_at is_reply) in Ht as (_ & _ & ->);
        [reflexivity | solve_none prep_not_reply
        | apply none_nil | exact Hr].
    + (* a success reply has status 0 *)
      exfalso.
      change (rs1 ++ Sent Client [x05; x02]
                :: rs2 ++ Sent Client [x01; x00]
                :: ps ++ [Sent Client r; Spawn Client Remote;
                          Spawn Remote Client; Join Client Remote t1;
                          Join Remote Client t2; Close Client])
        with (rs1 ++ [Sent Client [x05; x02]]
                ++ rs2 ++ [Sent Client [x01; x00]]
                ++ ps ++ Sent Client r
                :: [Spawn Client Remote; Spawn Remote Client;
                    Join Client Remote t1; Join Remote Client t2;
                    Close Client]) in Ht.
      rewrite !app_assoc in Ht.
      apply (only_at is_reply) in Ht as (_ & Heq & _);
        [| solve_none prep_not_reply | solve_none prep_not_reply
         | exact Hr].
      inversion Heq; subst.
      apply Hst. apply (ok_reply_status _ _ Hok).
Qed.

Lemma session_not_connect out t pre hdr post :
  session out t ->
  t = pre ++ Sent Client [x01; x00] :: Recv Client 4 hdr :: post ->
  nth_error hdr 1 <> Some x01 ->
  none is_relay t /\
  Forall (fun e => is_read e || is_close e = true) post.
Proof.
  intros H Ht Hcmd.
  destruct (session_request _ _ _ _ H Ht)
    as (rs1 & rs2 & ps & tl & Hr1 & Hr2 & Hpre & Hps & Hl & He).
  assert (Hreads : forall l, reads l ->
            Forall (fun e => is_read e || is_close e = true) l).
  { intros l Hl'. eapply Forall_impl; [|exact Hl'].
    cbn. intros e0 ->. reflexivity. }
  assert (Hno : forall a, header_of (Recv Client 4 hdr :: post)
                          <> Some (x01, a)).
  { intros a Ha. apply Hcmd. apply (header_bytes _ _ _ _ _ Ha). }
  assert (Ht' : t = rs1 ++ Sent Client [x05; x02]
                      :: rs2 ++ Sent Client [x01; x00] :: ps ++ tl).
  { rewrite Ht, Hpre, <- Hl, <- app_assoc. reflexivity. }
  clear Ht Hpre H.
  remember (header_of (Recv Client 4 hdr :: post)) as h eqn:Hh.
  destruct He as [h e ps Hr|c a ps Hc Hr|a ps e|a ps e|ps r Hc Hok
                  |ps r t1 t2 Hc Hok Hl1 Hl2];
    try (exfalso; eapply Hno; reflexivity).
  - split; [subst t; solve_none prep_not_relay|].
    rewrite app_nil_r in Hl. subst ps.
    inversion Hr as [|? ? _ Hr']; subst.
    apply Hreads. exact Hr'.
  - split; [subst t; solve_none prep_not_relay|].
    destruct ps as [|e0 ps]; cbn in Hl; inversion Hl; subst.
    inversion Hr as [|? ? _ Hr']; subst.
    apply Forall_app. split; [apply Hreads; exact Hr'|].
    repeat constructor.
Qed.

(** C2.  When the reply sent carries a nonzero status, nothing follows it
    in the log of the handler and no relay task is ever created: the
    session is over, the handler ending with the [UnboundLocalError] of
    [job1.join()] (line 95).  And when the command of the request read
    after the auth success reply is not CONNECT (1), the handler only reads
    what is left of the request and calls [conn.close()] (line 75): no
    outbound connection, no reply, no relay task. *)
Theorem no_relay_without_success self net w :
  (forall pre reply post,
     log (handle self net w) = pre ++ Sent Client reply :: post ->
     length reply = 10 ->
     nth_error reply 1 <> Some x00 ->
     post = [] /\ none is_relay (log (handle self net w)) /\
     outcome (handle self net w) = Raise UnboundLocalError) /\
  (forall pre hdr post,
     log (handle self net w)
     = pre ++ Sent Client [x01; x00] :: Recv Client 4 hdr :: post ->
     nth_error hdr 1 <> Some x01 ->
     none is_relay (log (handle self net w)) /\
     Forall (fun e => is_read e || is_close e = true) post).
Proof.
  pose proof (handle_session self net w) as H. split.
  - intros pre reply post. exact (session_failure_reply _ _ _ _ _ H).
  - intros pre hdr post. exact (session_not_connect _ _ _ _ _ H).
Qed.

(** C2 at the sessions [Demo.connect_refused] and [Demo.bind_request]. *)
Lemma no_relay_without_success_witness :
  let refused := log (handle Demo.proxy Demo.net Demo.connect_refused) in
  let bound := log (handle Demo.proxy Demo.net Demo.bind_request) in
  (skipn 14 refused = [] /\ none is_relay refused /\
   outcome (handle Demo.proxy Demo.net Demo.connect_refused)
   = Raise UnboundLocalError) /\
  (none is_relay bound /\
   Forall (fun e => is_read e || is_close e = true) (skipn 10 bound)).
Proof.
  intros refused bound. split.
  - apply (proj1 (no_relay_without_success Demo.proxy Demo.net
                    Demo.connect_refused)
             (firstn 13 refused) (failed_reply x01) (skipn 14 refused)).
    + vm_compute. reflexivity.
    + reflexivity.
    + discriminate.
  - apply (proj2 (no_relay_without_success Demo.proxy Demo.net
                    Demo.bind_request)
             (firstn 8 bound) [x05; x02; x00; x01] (skipn 10 bound)).
    + vm_compute. reflexivity.
    + discriminate.
Defined.

(** *** Closing *)

Lemma prep_not_close_remote e :
  is_prep e = true -> is_close_remote e = false.
Proof.
  destruct e as [[]| []| | | | | | | | | |]; try discriminate; reflexivity.
Qed.

Lemma session_no_close_remote out t :
  session out t -> none is_close_remote t.
Proof.
  intros H.
  destruct H as [o rs tl Hr1 Hs|o rs1 rs2 tl Hr1 Hr2 Hs
                 |o rs1 rs2 ps tl Hr1 Hr2 Hps He].
  - inversion Hs; subst; solve_none prep_not_close_remote.
  - inversion Hs; subst; solve_none prep_not_close_remote.
  - inversion He; subst; solve_none prep_not_close_remote.
Qed.

(** C3, as stated, fails: in the session [Demo.connect_ok] both relay
    tasks are joined and the handler then closes the client connection
    only. *)
Lemma closes_both_after_relay_fails :
  ~ closes_both_after_relay Demo.proxy Demo.net Demo.connect_ok.
Proof.
  intros H.
  set (t := log (handle Demo.proxy Demo.net Demo.connect_ok)).
  destruct (H (firstn 16 t) (joined t 16) (joined t 17) (skipn 18 t))
    as [_ Hc].
  - vm_compute. reflexivity.
  - vm_compute in Hc. destruct Hc as [[Hc|[]]|[Hc|[]]]; discriminate.
Qed.

(** C3, amended.  A session that starts the relay ends with the creation
    of the two tasks, their joins and the close of the client connection,
    and returns normally; the handler never calls [close] on the outbound
    socket. *)
Theorem relay_closes_client self net w :
  (forall e,
     In e (log (handle self net w)) -> is_relay e = true ->
     exists pre t1 t2,
       log (handle self net w)
       = pre ++ [Spawn Client Remote; Spawn Remote Client;
                 Join Client Remote t1; Join Remote Client t2;
                 Close Client] /\
       relay_log Client Remote t1 /\ relay_log Remote Client t2 /\
       outcome (handle self net w) = Ret tt) /\
  ~ In (Close Remote) (log (handle self net w)) /\
  ~ In (CloseCall Remote) (log (handle self net w)).
Proof.
  pose proof (handle_session self net w) as H. split.
  - intros e Hin He.
    destruct (session_quiet _ _ H)
      as [Hq|(hs & reply & t1 & t2 & Ho & Hl & _ & _ & _ & _ & _ & H1 & H2)].
    + exfalso. unfold none in Hq. rewrite Forall_forall in Hq.
      specialize (Hq e Hin). congruence.
    + exists (hs ++ [Sent Client reply]), t1, t2.
      rewrite <- app_assoc. auto.
  - apply session_no_close_remote in H.
    unfold none in H. rewrite Forall_forall in H.
    split; intros Hin; specialize (H _ Hin); discriminate.
Qed.

(** C3, amended, at the session [Demo.connect_ok]. *)
Lemma relay_closes_client_witness :
  let t := log (handle Demo.proxy Demo.net Demo.connect_ok) in
  exists pre t1 t2,
    t = pre ++ [Spawn Client Remote; Spawn Remote Client;
                Join Client Remote t1; Join Remote Client t2;
                Close Client] /\
    relay_log Client Remote t1 /\ relay_log Remote Client t2 /\
    outcome (handle Demo.proxy Demo.net Demo.connect_ok) = Ret tt.
Proof.
  intros t.
  apply (proj1 (relay_closes_client Demo.proxy Demo.net Demo.connect_ok)
           (Spawn Client Remote)).
  - vm_compute. do 14 right. left. reflexivity.
  - reflexivity.
Defined.

(** *** The failure reply *)

Lemma prep_not_log_error e : is_prep e = true -> is_log_error e = false.
Proof.
  destruct e as [[]| []| | | | | | | | | |]; try discriminate; reflexivity.
Qed.

Lemma not_logged t e : none is_log_error t -> ~ In (LogError e) t.
Proof.
  unfold none. rewrite Forall_forall. intros H Hin.
  specialize (H _ Hin). discriminate.
Qed.

Lemma request_refused hdr post out ps tl e :
  Recv Client 4 hdr :: post = ps ++ tl ->
  preps ps ->
  ending (header_of (Recv Client 4 hdr :: post)) out ps tl ->
  In (LogError e) post ->
  exists a mid,
    nth_error hdr 1 = Some x01 /\ nth_error hdr 3 = Some a /\ preps mid /\
    (post = mid ++ [LogError e; Sent Client (failed_reply a)] \/
     post = mid ++ [LogError e; SendFault Client (failed_reply a)]).
Proof.
  intros Hl Hps He Hin.
  assert (Hmid : forall tl', tl' <> [] ->
            (forall e', tl' <> Recv Client 4 hdr :: e') ->
            Recv Client 4 hdr :: post = ps ++ tl' ->
            exists mid, preps mid /\ post = mid ++ tl').
  { intros tl' Hne Hhd Heq. destruct ps as [|e0 mid]; cbn in Heq.
    - exfalso. eapply Hhd. symmetry. exact Heq.
    - inversion Heq; subst. inversion Hps; subst. eauto. }
  remember (header_of (Recv Client 4 hdr :: post)) as h eqn:Hh.
  destruct He as [h e' ps Hr|c a ps Hc Hr|a ps e'|a ps e'|ps r Hc Hok
                  |ps r t1 t2 Hc Hok Hl1 Hl2].
  - exfalso. rewrite app_nil_r in Hl. subst ps.
    inversion Hps as [|? ? _ Hps']; subst.
    eapply not_logged; [|exact Hin].
    apply preps_none; [exact prep_not_log_error | exact Hps'].
  - exfalso. destruct (Hmid [CloseCall Client]) as (mid & Hm & ->);
      [discriminate | discriminate | exact Hl |].
    eapply not_logged; [|exact Hin]. solve_none prep_not_log_error.
  - destruct (Hmid [LogError e'; Sent Client (failed_reply a)])
      as (mid & Hm & ->); [discriminate | discriminate | exact Hl |].
    symmetry in Hh. destruct (header_bytes _ _ _ _ _ Hh) as [H1 H3].
    exists a, mid. repeat split; auto.
    apply in_app_or in Hin as [Hin|[Hin|[Hin|[]]]]; try discriminate.
    + exfalso. eapply not_logged; [|exact Hin].
      solve_none prep_not_log_error.
    + inversion Hin; subst. left. reflexivity.
  - destruct (Hmid [LogError e'; SendFault Client (failed_reply a)])
      as (mid & Hm & ->); [discriminate | discriminate | exact Hl |].
    symmetry in Hh. destruct (header_bytes _ _ _ _ _ Hh) as [H1 H3].
    exists a, mid. repeat split; auto.
    apply in_app_or in Hin as [Hin|[Hin|[Hin|[]]]]; try discriminate.
    + exfalso. eapply not_logged; [|exact Hin].
      solve_none prep_not_log_error.
    + inversion Hin; subst. right. reflexivity.
  - exfalso. destruct (Hmid [SendFault Client r]) as (mid & Hm & ->);
      [discriminate | discriminate | exact Hl |].
    eapply not_logged; [|exact Hin]. solve_none prep_not_log_error.
  - exfalso.
    destruct (Hmid [Sent Client r; Spawn Client Remote; Spawn Remote Client;
                    Join Client Remote t1; Join Remote Client t2;
                    Close Client]) as (mid & Hm & ->);
      [discriminate | discriminate | exact Hl |].
    eapply not_logged; [|exact Hin]. solve_none prep_not_log_error.
Qed.

(** C7.  The failure reply is the ten bytes [05 05 00 atyp 00 00 00 00 00
    00].  In every session, when the attempt to connect fails (line 83
    catches an exception, logged in line 84), what the handler then passes
    to [sendall] is this reply, with the address type of the request that
    was read after the auth success reply, whose command is CONNECT; the
    reply is the last event of the log. *)
Theorem failed_connect_reply self net w :
  (forall a, generate_failed_reply (Byte.to_N a) 5
             = Ret [x05; x05; x00; a; x00; x00; x00; x00; x00; x00]) /\
  (forall pre hdr post e,
     log (handle self net w)
     = pre ++ Sent Client [x01; x00] :: Recv Client 4 hdr :: post ->
     In (LogError e) post ->
     exists a mid,
       nth_error hdr 1 = Some x01 /\ nth_error hdr 3 = Some a /\
       preps mid /\
       (post = mid ++ [LogError e;
                       Sent Client
                         [x05; x05; x00; a; x00; x00; x00; x00; x00; x00]] \/
        post = mid ++ [LogError e;
                       SendFault Client
                         [x05; x05; x00; a; x00; x00; x00; x00; x00; x00]])).
Proof.
  split; [exact generate_failed_reply_bytes|].
  intros pre hdr post e Ht Hin.
  destruct (session_request _ _ _ _ (handle_session self net w) Ht)
    as (rs1 & rs2 & ps & tl & _ & _ & _ & Hps & Hl & He).
  exact (request_refused _ _ _ _ _ _ Hl Hps He Hin).
Qed.

(** C7 at the session [Demo.connect_refused]. *)
Lemma failed_connect_reply_witness :
  let t := log (handle Demo.proxy Demo.net Demo.connect_refused) in
  exists a mid,
    nth_error [x05; x01; x00; x01] 1 = Some x01 /\
    nth_error [x05; x01; x00; x01] 3 = Some a /\
    preps mid /\
    (skipn 10 t
     = mid ++ [LogError OSError;
               Sent Client
                 [x05; x05; x00; a; x00; x00; x00; x00; x00; x00]] \/
     skipn 10 t
     = mid ++ [LogError OSError;
               SendFault Client
                 [x05; x05; x00; a; x00; x00; x00; x00; x00; x00]]).
Proof.
  intros t.
  apply (proj2 (failed_connect_reply Demo.proxy Demo.net
                  Demo.connect_refused) (firstn 8 t)).
  - vm_compute. reflexivity.
  - vm_compute. do 2 right. left. reflexivity.
Defined.

(** *** The greeting *)

Lemma greeting_log_reads nmethods ms : reads (greeting_log nmethods ms).
Proof.
  unfold greeting_log. constructor; [reflexivity|].
  induction ms as [|m ms IH]; constructor; [reflexivity | exact IH].
Qed.

Lemma prep_not_selection e : is_prep e = true -> is_selection e = false.
Proof.
  destruct e as [[]| []| | | | | | | | | |]; try discriminate; reflexivity.
Qed.

(** C8.  For a greeting [05 n m1 .. mn] with n >= 1 that has arrived whole,
    and a client connection that can be written to: when method 2 is
    among the methods the handler reads the greeting and sends [05 02];
    when it is not, the handler reads the greeting, sends nothing, calls
    [conn.close()] (line 44) and returns.  So [05 02] is sent if and only
    if method 2 is offered. *)
Theorem greeting_method_selection self net w nmethods ms more rest :
  inbox (conn w) = Data ([x05; nmethods] ++ ms ++ more) :: rest ->
  length ms = N.to_nat (Byte.to_N nmethods) ->
  ms <> [] ->
  wbudget (conn w) <> Some 0 ->
  (In x02 ms ->
   exists tl,
     log (handle self net w)
     = greeting_log nmethods ms ++ Sent Client [x05; x02] :: tl) /\
  (~ In x02 ms ->
   log (handle self net w)
   = greeting_log nmethods ms ++ [CloseCall Client] /\
   outcome (handle self net w) = Ret tt) /\
  (In (Sent Client [x05; x02]) (log (handle self net w)) <-> In x02 ms).
Proof.
  destruct w as [[i k] r]. cbn [conn inbox wbudget].
  intros -> Hlen Hne Hk.
  pose proof (@handle_greeting_script nmethods ms more rest k r
                Hlen Hne Hk) as EG.
  unfold handle.
  destruct (existsb (N.eqb 2) (map Byte.to_N ms)) eqn:Eo.
  - apply methods_offer in Eo.
    rewrite (bind_run _ EG). cbn [negb]. tidy.
    rewrite <- app_assoc. cbn [app].
    split; [intros _; eexists; reflexivity|].
    split; [intros Hn; contradiction|].
    split; [intros _; exact Eo|].
    intros _. apply in_or_app. right. left. reflexivity.
  - assert (Hn : ~ In x02 ms).
    { intros Hin. apply methods_offer in Hin. congruence. }
    rewrite (bind_run _ EG). cbn [negb ret]. tidy. rewrite app_nil_r.
    split; [intros Hin; contradiction|].
    split; [intros _; split; reflexivity|].
    split; [|intros Hin; contradiction].
    intros Hin. exfalso.
    apply in_split in Hin as (l1 & l2 & Hs).
    apply (none_absent is_selection _ _ _ _) with (2 := Hs);
      [|reflexivity].
    pose proof (greeting_log_reads nmethods ms) as Hr.
    solve_none prep_not_selection.
Qed.

(** C8 at a greeting that offers method 2 alone. *)
Lemma greeting_method_selection_witness :
  let w := Demo.client [x05; x01; x00; x01; x7f; x00; x00; x01; x00; x50] []
  in
  In (Sent Client [x05; x02]) (log (handle Demo.proxy Demo.net w))
  <-> In x02 [x02].
Proof.
  intros w.
  apply (greeting_method_selection Demo.proxy Demo.net w x01 [x02] []
           [Data Demo.auth;
            Data [x05; x01; x00; x01; x7f; x00; x00; x01; x00; x50]]).
  - reflexivity.
  - reflexivity.
  - discriminate.
  - discriminate.
Defined.

(** *** Authentication *)

Lemma str_eqb_eq a : forall b, str_eqb a b = true <-> a = b.
Proof.
  induction a as [|x a IH]; intros [|y b]; cbn; split; intros H;
    try discriminate; try reflexivity.
  - apply andb_true_iff in H as [Hx Hab]. apply N.eqb_eq in Hx.
    apply IH in Hab. congruence.
  - inversion H; subst. apply andb_true_iff. split.
    + apply N.eqb_refl.
    + apply IH. reflexivity.
Qed.

Lemma py_eq_true s cfg : py_eq s cfg = true <-> cfg = Some s.
Proof.
  destruct cfg as [c|]; cbn.
  - rewrite str_eqb_eq. split; congruence.
  - split; discriminate.
Qed.

Lemma credentials_match self u p :
  py_eq u (username self) && py_eq p (password self) = true <->
  username self = Some u /\ password self = Some p.
Proof. rewrite andb_true_iff, !py_eq_true. reflexivity. Qed.

(** C9.  In a session whose greeting has been accepted and whose auth
    request [01 ulen uname plen passwd] has arrived whole and decodes,
    with a client connection that can be written to: if the decoded pair
    is the configured pair, the handler reads the request, sends [01 00],
    and the rest of the session is the request phase on the rest of the
    input; otherwise it reads the request, sends [01 FF], closes the
    client connection and returns, so nothing more is read. *)
Theorem auth_reply self net w t1 ulen plen uname pw more rest k r u p :
  handle_greeting w
  = (Ret true,
     mkWorld (mkSock (Data ([x01; ulen] ++ uname ++ [plen] ++ pw ++ more)
                      :: rest) k) r,
     t1) ->
  length uname = N.to_nat (Byte.to_N ulen) ->
  length pw = N.to_nat (Byte.to_N plen) ->
  utf8_decode uname = Some u ->
  utf8_decode pw = Some p ->
  k <> Some 0 ->
  let w' := mkWorld (mkSock (unread more rest) (spend k)) r in
  (username self = Some u /\ password self = Some p ->
   handle self net w
   = after (t1 ++ auth_log ulen uname plen pw ++ [Sent Client [x01; x00]])
           (handle_request self net w')) /\
  (~ (username self = Some u /\ password self = Some p) ->
   handle self net w
   = (Ret tt, w',
      t1 ++ auth_log ulen uname plen pw
         ++ [Sent Client [x01; xff]; Close Client])).
Proof.
  intros EG Hu Hp Du Dp Hk w'.
  pose proof (@verify_credentials_script self ulen plen uname pw more rest
                k r Hu Hp u p Du Dp Hk) as EV.
  unfold handle. rewrite (bind_run _ EG). cbn [negb].
  destruct (py_eq u (username self) && py_eq p (password self)) eqn:Em.
  - apply credentials_match in Em.
    split; [intros _|intros Hn; contradiction].
    rewrite (bind_run _ EV). cbn [negb]. apply after_after.
  - assert (Hn : ~ (username self = Some u /\ password self = Some p)).
    { intros Hm. apply credentials_match in Hm. congruence. }
    split; [intros Hm; contradiction|intros _].
    rewrite (bind_run _ EV). cbn [negb ret]. unfold after. cbn.
    reflexivity.
Qed.

(** C9 at the session [Demo.connect_ok]: user / pass is the configured
    pair. *)
Lemma auth_reply_witness :
  handle Demo.proxy Demo.net Demo.connect_ok
  = after ([Recv Client 2 [x05; x01]; Recv Client 1 [x02];
            Sent Client [x05; x02]]
           ++ auth_log x04 ["u"; "s"; "e"; "r"]%byte
                       x04 ["p"; "a"; "s"; "s"]%byte
           ++ [Sent Client [x01; x00]])
      (handle_request Demo.proxy Demo.net
         (mkWorld
            (mkSock
               [Data [x05; x01; x00; x01; x7f; x00; x00; x01; x00; x50];
                Data [x01; x02; x03]] None)
            (mkSock [] None))).
Proof.
  refine (proj1 (auth_reply Demo.proxy Demo.net Demo.connect_ok _
                   x04 x04 _ _ [] _ (spend None) _
                   [117; 115; 101; 114]%N [112; 97; 115; 115]%N
                   _ _ _ _ _ _) _).
  - vm_compute. reflexivity.
  - reflexivity.
  - reflexivity.
  - reflexivity.
  - reflexivity.
  - discriminate.
  - split; reflexivity.
Defined.

Lemma prep_not_auth_reply e : is_prep e = true -> is_auth_reply e = false.
Proof.
  destruct e as [[]| []| | | | | | | | | |]; try discriminate; reflexivity.
Qed.

Lemma greeting_no_auth_reply w w1 t1 :
  handle_greeting w = (Ret true, w1, t1) -> none is_auth_reply t1.
Proof.
  intros EG. pose proof (handle_greeting_cases w) as Hg.
  rewrite EG in Hg. cbn [outcome log fst snd] in Hg.
  destruct (split_reads t1) as (rs & Hr & Ht).
  inversion Hg as [Ho Hs| | |]. rewrite <- Hs in Ht. rewrite Ht.
  solve_none prep_not_auth_reply.
Qed.

(** C10.  In a session whose greeting has been accepted and whose auth
    request has arrived whole: when the bytes of the username, or those of
    the password, are not valid UTF-8, the handler ends with
    [UnicodeDecodeError] after reading at most the request; the log holds
    neither [01 00] nor [01 FF] nor any other auth reply: after the
    greeting it holds reads only. *)
Theorem undecodable_credentials self net w t1 ulen plen uname pw more rest
    k r :
  handle_greeting w
  = (Ret true,
     mkWorld (mkSock (Data ([x01; ulen] ++ uname ++ [plen] ++ pw ++ more)
                      :: rest) k) r,
     t1) ->
  length uname = N.to_nat (Byte.to_N ulen) ->
  length pw = N.to_nat (Byte.to_N plen) ->
  utf8_decode uname = None \/ utf8_decode pw = None ->
  outcome (handle self net w) = Raise UnicodeDecodeError /\
  (exists rs, reads rs /\ log (handle self net w) = t1 ++ rs) /\
  none is_auth_reply (log (handle self net w)) /\
  ~ In (Sent Client [x01; x00]) (log (handle self net w)) /\
  ~ In (Sent Client [x01; xff]) (log (handle self net w)).
Proof.
  intros EG Hu Hp Hbad.
  pose proof (greeting_no_auth_reply _ _ _ EG) as Hg.
  assert (Hrun : exists w2 rs,
            reads rs /\
            verify_credentials self Client
              (mkWorld (mkSock (Data ([x01; ulen] ++ uname ++ [plen]
                                        ++ pw ++ more) :: rest) k) r)
            = (Raise UnicodeDecodeError, w2, rs)).
  { destruct (utf8_decode uname) as [u|] eqn:Du.
    - destruct Hbad as [Hbad|Dp]; [discriminate|].
      eexists. exists (auth_log ulen uname plen pw). split.
      + repeat constructor.
      + exact (@verify_credentials_bad_password self ulen plen uname pw
                 more rest k r Hu Hp u Du Dp).
    - eexists. eexists. split.
      2:{ exact (@verify_credentials_bad_username self ulen plen uname pw
                   more rest k r Hu Du). }
      repeat constructor. }
  destruct Hrun as (w2 & rs & Hr & EV).
  unfold handle. rewrite (bind_run _ EG). cbn [negb].
  rewrite (bind_raise _ EV). tidy.
  assert (Hnone : none is_auth_reply (t1 ++ rs)).
  { solve_none prep_not_auth_reply. exact Hg. }
  split; [reflexivity|].
  split; [exists rs; auto|].
  split; [exact Hnone|].
  unfold none in Hnone. rewrite Forall_forall in Hnone.
  split; intros Hin; specialize (Hnone _ Hin); discriminate.
Qed.

(** C10 at an auth request whose username is the byte [FF]. *)
Lemma undecodable_credentials_witness :
  let w :=
    mkWorld (mkSock [Data Demo.greeting;
                     Data [x01; x01; xff; x04; "p"; "a"; "s"; "s"]%byte]
                    None)
            (mkSock [] None) in
  outcome (handle Demo.proxy Demo.net w) = Raise UnicodeDecodeError /\
  (exists rs, reads rs /\
     log (handle Demo.proxy Demo.net w)
     = [Recv Client 2 [x05; x01]; Recv Client 1 [x02];
        Sent Client [x05; x02]] ++ rs) /\
  none is_auth_reply (log (handle Demo.proxy Demo.net w)) /\
  ~ In (Sent Client [x01; x00]) (log (handle Demo.proxy Demo.net w)) /\
  ~ In (Sent Client [x01; xff]) (log (handle Demo.proxy Demo.net w)).
Proof.
  intros w.
  refine (undecodable_credentials Demo.proxy Demo.net w _
            x01 x04 [xff] ["p"; "a"; "s"; "s"]%byte [] [] None _ _ _ _ _).
  - vm_compute. reflexivity.
  - reflexivity.
  - reflexivity.
  - left. reflexivity.
Defined.

(** *** Address types *)

(** A request by domain name (address type 3) ends the request phase with
    [TypeError] as soon as its first four bytes have been read, whatever
    follows them. *)
Lemma handle_request_domain self net w v c rsv w1 :
  recv Client 4 w
  = (Ret [v; c; rsv; x03], w1, [Recv Client 4 [v; c; rsv; x03]]) ->
  Byte.to_N v = SOCKS_VERSION ->
  handle_request self net w
  = (Raise TypeError, w1, [Recv Client 4 [v; c; rsv; x03]]).
Proof.
  intros E Hv. unfold handle_request.
  rewrite (bind_run _ E). cbn [unpack_BBBB]. rewrite bind_lift.
  rewrite Hv, N.eqb_refl, bind_assert_true.
  unfold read_address. change (Byte.to_N x03 =? 1)%N with false.
  change (Byte.to_N x03 =? 3)%N with true. cbv iota.
  rewrite bind_raise_now. reflexivity.
Qed.

(** C4 (code).  The session [Demo.connect_domain] asks for
    [example.com:80] by name.  The handler reads the four bytes
    [05 01 00 03] and raises [TypeError]: the length byte, the name and
    the port stay unread in the client connection, no outbound connection
    is attempted and no reply is sent. *)
Theorem domain_request_raises :
  let x := handle Demo.proxy Demo.net Demo.connect_domain in
  outcome x = Raise TypeError /\
  log x = greeting_log x01 [x02]
          ++ Sent Client [x05; x02]
          :: auth_log x04 ["u"; "s"; "e"; "r"]%byte
                      x04 ["p"; "a"; "s"; "s"]%byte
          ++ [Sent Client [x01; x00];
              Recv Client 4 [x05; x01; x00; x03]] /\
  inbox (conn (final x))
  = [Data ([x0b; "e"; "x"; "a"; "m"; "p"; "l"; "e"; "."; "c"; "o"; "m";
            x00; x50]%byte)].
Proof. vm_compute. repeat split; reflexivity. Qed.

(** C5 (code).  The session [Demo.connect_ipv6] asks for [[::1]:80]
    (address type 4).  The handler does not reject the request: it takes
    the next two bytes [00 00] for the port, enters the [try] statement
    with [address] unassigned, catches the [UnboundLocalError] there,
    sends the failure reply [05 05 00 04 ..] and then ends with
    [UnboundLocalError] at [job1.join()]. *)
Theorem ipv6_request_proceeds :
  let x := handle Demo.proxy Demo.net Demo.connect_ipv6 in
  outcome x = Raise UnboundLocalError /\
  log x = greeting_log x01 [x02]
          ++ Sent Client [x05; x02]
          :: auth_log x04 ["u"; "s"; "e"; "r"]%byte
                      x04 ["p"; "a"; "s"; "s"]%byte
          ++ [Sent Client [x01; x00];
              Recv Client 4 [x05; x01; x00; x04];
              Recv Client 2 [x00; x00];
              LogError UnboundLocalError;
              Sent Client [x05; x05; x00; x04;
                           x00; x00; x00; x00; x00; x00]].
Proof. vm_compute. repeat split; reflexivity. Qed.

(** *** The relay *)

(** C6.  A relay direction reads with a limit of 4096 bytes and its log is
    a [relay_log]: every chunk read that is not empty is written as it
    is to the destination and the loop reads again, and the loop stops at
    the first read that returns no byte (after writing that empty chunk,
    which forwards nothing), at the first read fault or at the first write
    fault.  The loop always returns, with enough fuel for any source, and
    never raises.  What the destination has received is a prefix of the
    bytes the source delivers before its first fault, and is all of them
    when the destination's write side never breaks. *)
Theorem forward_tcp_relay src dst w :
  N.to_nat CHUNK = 4096 /\
  outcome (forward_tcp src dst w) = Ret tt /\
  (forall fuel,
     weight (inbox (get_sock src w)) < fuel ->
     forward_loop fuel src dst w = forward_tcp src dst w) /\
  relay_log src dst (log (forward_tcp src dst w)) /\
  (exists rest,
     stream_bytes (inbox (get_sock src w))
     = sent_bytes dst (log (forward_tcp src dst w)) ++ rest) /\
  (wbudget (get_sock dst w) = None ->
   sent_bytes dst (log (forward_tcp src dst w))
   = stream_bytes (inbox (get_sock src w))).
Proof.
  split; [vm_compute; reflexivity|].
  split; [apply forward_tcp_returns|].
  split; [intros fuel Hf; apply forward_tcp_fuel; exact Hf|].
  unfold forward_tcp.
  destruct (@forward_loop_spec src dst
              (S (weight (inbox (get_sock src w)))) w) as (_ & Hl & Hp & Hf);
    [lia|].
  auto.
Qed.

(** C6 at a source that delivers 5000 bytes and then two more. *)
Lemma forward_tcp_relay_witness :
  let w := mkWorld (mkSock [Data (repeat "a"%byte (N.to_nat 5000));
                            Data [x01; x02]] None)
                   (mkSock [] None) in
  forward_loop (N.to_nat 6000) Client Remote w
  = forward_tcp Client Remote w /\
  sent_bytes Remote (log (forward_tcp Client Remote w))
  = repeat "a"%byte (N.to_nat 5000) ++ [x01; x02].
Proof.
  intros w.
  destruct (forward_tcp_relay Client Remote w) as (_ & _ & Hfuel & _ & _ & H).
  split.
  - apply Hfuel. vm_compute. lia.
  - rewrite H; [|reflexivity].
    vm_compute. reflexivity.
Defined.

(** *** The two directions do not interfere *)

Lemma forward_loop_run src dst fuel : forall w,
  src <> dst ->
  forward_loop fuel src dst w
  = match relay_run fuel src dst (inbox (get_sock src w))
            (wbudget (get_sock dst w)) with
    | (r, (i, k), t) => (r, after_relay src dst i k w, t)
    end.
Proof.
  induction fuel as [|fuel IH]; intros w Hne.
  - destruct src, dst, w as [[ic kc] [ir kr]]; try congruence; reflexivity.
  - cbn [forward_loop relay_run].
    unfold bind at 1, try_except, bind, recv. cbv zeta.
    destruct (sock_recv (N.to_nat CHUNK) (inbox (get_sock src w)))
      as [[data|] i1].
    + unfold sendall, sock_send. rewrite wbudget_after_recv.
      destruct (wbudget (get_sock dst w)) as [[|n]|] eqn:Ek.
      * destruct src, dst, w as [[ic kc] [ir kr]]; try congruence;
          cbn in *; subst; reflexivity.
      * destruct data as [|b data].
        -- destruct src, dst, w as [[ic kc] [ir kr]]; try congruence;
             cbn in *; subst; reflexivity.
        -- cbn. rewrite IH by exact Hne.
           destruct src, dst, w as [[ic kc] [ir kr]]; try congruence;
             cbn in *; subst;
             match goal with
             | |- context [relay_run ?f ?s ?d ?i ?k] =>
                 destruct (relay_run f s d i k) as [[r [i2 k2]] t]
             end; reflexivity.
      * destruct data as [|b data].
        -- destruct src, dst, w as [[ic kc] [ir kr]]; try congruence;
             cbn in *; subst; reflexivity.
        -- cbn. rewrite IH by exact Hne.
           destruct src, dst, w as [[ic kc] [ir kr]]; try congruence;
             cbn in *; subst;
             match goal with
             | |- context [relay_run ?f ?s ?d ?i ?k] =>
                 destruct (relay_run f s d i k) as [[r [i2 k2]] t]
             end; reflexivity.
    + destruct src, dst, w as [[ic kc] [ir kr]]; try congruence;
        reflexivity.
Qed.

(** X14.  Whichever of the two relay tasks runs first, each does the
    same, and the sockets end in the same state. *)
Lemma relay_order w :
  let a := forward_tcp Client Remote w in
  let b := forward_tcp Remote Client (final a) in
  let b' := forward_tcp Remote Client w in
  let a' := forward_tcp Client Remote (final b') in
  outcome a = outcome a' /\ log a = log a' /\
  outcome b = outcome b' /\ log b = log b' /\
  final b = final a'.
Proof.
  destruct w as [[ic kc] [ir kr]].
  cbv zeta. unfold forward_tcp.
  rewrite (forward_loop_run Client Remote) by discriminate.
  cbn [get_sock conn remote inbox wbudget].
  destruct (relay_run (S (weight ic)) Client Remote ic kr)
    as [[r1 [i1 k1]] t1] eqn:E1.
  rewrite (forward_loop_run Remote Client) by discriminate.
  cbn [final fst snd after_relay get_sock set_sock conn remote inbox
       wbudget].
  destruct (relay_run (S (weight ir)) Remote Client ir kc)
    as [[r2 [i2 k2]] t2] eqn:E2.
  rewrite (forward_loop_run Remote Client) by discriminate.
  cbn [get_sock conn remote inbox wbudget]. rewrite E2.
  rewrite (forward_loop_run Client Remote) by discriminate.
  cbn [final fst snd after_relay get_sock set_sock conn remote inbox
       wbudget].
  rewrite E1. cbn. auto.
Qed.

(** *** Requests that are refused, read whole *)

Section RefusedScript.

Variables (self : SocksProxy) (net : network).
Variables (rsv p0 p1 : byte) (more : list byte).
Variables (rest : list seg) (k : option nat) (r : sock).
Hypothesis Heip : eip self = any_address.
Hypothesis Hk : k <> Some 0.

Let W (i : list seg) (b : option nat) : world := mkWorld (mkSock i b) r.

(** What follows a failed [try] body. *)
Lemma reply_and_relay_failed a address p w e w1 ps :
  try_connect self net 1 (Byte.to_N a) address p w = (Raise e, w1, ps) ->
  wbudget (conn w1) <> Some 0 ->
  exists w2,
    reply_and_relay self net 1 (Byte.to_N a) address p w
    = (Raise UnboundLocalError, w2,
       ps ++ [LogError e; Sent Client (failed_reply a)]) /\
    inbox (conn w2) = inbox (conn w1).
Proof.
  intros ET Hw. unfold reply_and_relay.
  rewrite (bind_try_raise _ _ ET). rewrite !bind_assoc.
  rewrite bind_emit, !bind_assoc, generate_failed_reply_bytes, bind_lift.
  rewrite bind_ret.
  destruct w1 as [[i1 k1] r1]. cbn [conn wbudget] in Hw.
  rewrite (bind_run _ (sendall_script (failed_reply a) i1 r1 Hw)).
  change (index1 (failed_reply a)) with (@Ret N 5%N). rewrite bind_lift.
  cbn [N.eqb Pos.eqb andb]. rewrite bind_ret. cbn [fst local].
  rewrite bind_raise_now. eexists. split; reflexivity.
Qed.

(** CONNECT to an IPv4 address that cannot be reached. *)
Lemma handle_request_unreachable a0 a1 a2 a3 address :
  inet_ntoa [a0; a1; a2; a3] = Ret address ->
  dial net address (Byte.to_N p0 * 256 + Byte.to_N p1) = None ->
  exists w2,
    handle_request self net
      (W (Data ([x05; x01; rsv; x01] ++ [a0; a1; a2; a3] ++ [p0; p1] ++ more)
          :: rest) k)
    = (Raise UnboundLocalError, w2,
       [Recv Client 4 [x05; x01; rsv; x01];
        Recv Client 4 [a0; a1; a2; a3];
        Recv Client 2 [p0; p1];
        LogError OSError;
        Sent Client (failed_reply x01)]) /\
    inbox (conn w2) = unread more rest.
Proof.
  intros Ha Hd. unfold handle_request, W.
  change (Data ([x05; x01; rsv; x01] ++ [a0; a1; a2; a3] ++ [p0; p1] ++ more)
          :: rest)
    with (unread ([x05; x01; rsv; x01]
                    ++ [a0; a1; a2; a3] ++ [p0; p1] ++ more) rest).
  rewrite (bind_run _ (recv_script 4 [x05; x01; rsv; x01] _ rest k r
                         eq_refl)).
  cbn [unpack_BBBB]. rewrite bind_lift.
  change (Byte.to_N x05 =? SOCKS_VERSION)%N with true.
  rewrite bind_assert_true.
  unfold read_address. change (Byte.to_N x01 =? 1)%N with true. cbv iota.
  rewrite !bind_assoc.
  rewrite (bind_run _ (recv_script 4 [a0; a1; a2; a3] _ rest k r eq_refl)).
  rewrite !bind_assoc, Ha, bind_lift, bind_ret.
  rewrite (bind_run _ (recv_script 2 [p0; p1] _ rest k r eq_refl)).
  cbn [unpack_H]. rewrite bind_lift.
  assert (ET : try_connect self net (Byte.to_N x01) (Byte.to_N x01)
                 (Some address) (Byte.to_N p0 * 256 + Byte.to_N p1)
                 (mkWorld (mkSock (unread more rest) k) r)
               = (Raise OSError, mkWorld (mkSock (unread more rest) k) r,
                  [])).
  { unfold try_connect. change (Byte.to_N x01 =? 1)%N with true. cbv iota.
    rewrite Heip. change (str_eqb any_address any_address) with true.
    cbn [negb]. rewrite bind_ret. cbn [local]. rewrite bind_ret.
    apply bind_raise. unfold connect. rewrite Hd. reflexivity. }
  destruct (reply_and_relay_failed x01 _ _ _ _ _ _ ET Hk) as (w2 & E2 & Hi).
  change (Byte.to_N x01) with 1%N in E2 |- *.
  rewrite E2. unfold after. cbn. eexists. split; [reflexivity | exact Hi].
Qed.

(** CONNECT with an address type that is neither 1 nor 3: the two bytes
    after the header are taken for the port, and the failure reply is sent
    from inside the connect phase. *)
Lemma handle_request_unsupported a :
  Byte.to_N a <> 1%N -> Byte.to_N a <> 3%N ->
  exists w2,
    handle_request self net
      (W (Data ([x05; x01; rsv; a] ++ [p0; p1] ++ more) :: rest) k)
    = (Raise UnboundLocalError, w2,
       [Recv Client 4 [x05; x01; rsv; a];
        Recv Client 2 [p0; p1];
        LogError UnboundLocalError;
        Sent Client (failed_reply a)]) /\
    inbox (conn w2) = unread more rest.
Proof.
  intros H1 H3. unfold handle_request, W.
  change (Data ([x05; x01; rsv; a] ++ [p0; p1] ++ more) :: rest)
    with (unread ([x05; x01; rsv; a] ++ [p0; p1] ++ more) rest).
  rewrite (bind_run _ (recv_script 4 [x05; x01; rsv; a] _ rest k r eq_refl)).
  cbn [unpack_BBBB]. rewrite bind_lift.
  change (Byte.to_N x05 =? SOCKS_VERSION)%N with true.
  rewrite bind_assert_true.
  unfold read_address.
  apply N.eqb_neq in H1. apply N.eqb_neq in H3. rewrite H1, H3.
  rewrite bind_ret.
  rewrite (bind_run _ (recv_script 2 [p0; p1] _ rest k r eq_refl)).
  cbn [unpack_H]. rewrite bind_lift.
  assert (ET : try_connect self net (Byte.to_N x01) (Byte.to_N a)
                 None (Byte.to_N p0 * 256 + Byte.to_N p1)
                 (mkWorld (mkSock (unread more rest) k) r)
               = (Raise UnboundLocalError,
                  mkWorld (mkSock (unread more rest) k) r, [])).
  { unfold try_connect. change (Byte.to_N x01 =? 1)%N with true. cbv iota.
    rewrite Heip. change (str_eqb any_address any_address) with true.
    cbn [negb]. rewrite bind_ret. cbn [local]. reflexivity. }
  destruct (reply_and_relay_failed a _ _ _ _ _ _ ET Hk) as (w2 & E2 & Hi).
  change (Byte.to_N x01) with 1%N in E2 |- *.
  rewrite E2. unfold after. cbn. eexists. split; [reflexivity | exact Hi].
Qed.

End RefusedScript.

(** * Further properties *)

(** ** Reading the greeting (lines 29-39, 99-103) *)

Lemma recv_run x n w data i :
  sock_recv (N.to_nat n) (inbox (get_sock x w)) = (Some data, i) ->
  recv x n w
  = (Ret data, set_sock x (mkSock i (wbudget (get_sock x w))) w,
     [Recv x (N.to_nat n) data]).
Proof. intros E. unfold recv. cbv zeta. rewrite E. reflexivity. Qed.

(** X1.  The greeting header is read with a single [recv(2)] (line 31).
    When that read returns fewer than two bytes (the client has closed,
    or the first segment holds one byte), the handler does not read
    again: [struct.unpack] raises [struct.error] (line 32) and the
    handler ends with it, having sent nothing. *)
Theorem greeting_short_read self net w data i :
  sock_recv 2 (inbox (conn w)) = (Some data, i) ->
  length data <> 2 ->
  handle self net w
  = (Raise StructError, mkWorld (mkSock i (wbudget (conn w))) (remote w),
     [Recv Client 2 data]).
Proof.
  intros E Hlen. unfold handle, handle_greeting.
  rewrite bind_assoc.
  rewrite (bind_run _ (recv_run Client 2 w _ _ E)).
  destruct data as [|b0 [|b1 [|b2 data]]]; cbn in Hlen; try congruence;
    cbn [unpack_BB]; rewrite bind_assoc, bind_lift_raise; reflexivity.
Qed.

(** X1 at a greeting whose first segment is the one byte [05], and at a
    client that has closed. *)
Lemma greeting_short_read_witness :
  handle Demo.proxy Demo.net
    (mkWorld (mkSock [Data [x05]; Data [x01; x02]] None) (mkSock [] None))
  = (Raise StructError,
     mkWorld (mkSock [Data [x01; x02]] None) (mkSock [] None),
     [Recv Client 2 [x05]]) /\
  handle Demo.proxy Demo.net (mkWorld (mkSock [] None) (mkSock [] None))
  = (Raise StructError, mkWorld (mkSock [] None) (mkSock [] None),
     [Recv Client 2 []]).
Proof.
  split.
  - apply (greeting_short_read Demo.proxy Demo.net
             (mkWorld (mkSock [Data [x05]; Data [x01; x02]] None)
                      (mkSock [] None)) [x05] [Data [x01; x02]]).
    + reflexivity.
    + discriminate.
  - apply (greeting_short_read Demo.proxy Demo.net
             (mkWorld (mkSock [] None) (mkSock [] None)) [] []).
    + reflexivity.
    + discriminate.
Defined.

(** X2.  The version checks (lines 35-36, 107 and 55).  A greeting whose
    version is not 5 or that announces no method, an auth request whose
    version is not 1, and a request whose version is not 5 each end with
    [AssertionError] right after the read that brought the byte: nothing
    is sent in answer and nothing more is read. *)
Theorem version_checks self net more rest k r :
  (forall v n,
     Byte.to_N v <> 5%N \/ Byte.to_N n = 0%N ->
     handle self net
       (mkWorld (mkSock (Data ([v; n] ++ more) :: rest) k) r)
     = (Raise AssertionError, mkWorld (mkSock (unread more rest) k) r,
        [Recv Client 2 [v; n]])) /\
  (forall v,
     Byte.to_N v <> 1%N ->
     verify_credentials self Client
       (mkWorld (mkSock (Data ([v] ++ more) :: rest) k) r)
     = (Raise AssertionError, mkWorld (mkSock (unread more rest) k) r,
        [Recv Client 1 [v]])) /\
  (forall v c rsv a,
     Byte.to_N v <> 5%N ->
     handle_request self net
       (mkWorld (mkSock (Data ([v; c; rsv; a] ++ more) :: rest) k) r)
     = (Raise AssertionError, mkWorld (mkSock (unread more rest) k) r,
        [Recv Client 4 [v; c; rsv; a]])).
Proof.
  split; [|split].
  - intros v n H. unfold handle, handle_greeting.
    change (Data ([v; n] ++ more) :: rest)
      with (unread ([v; n] ++ more) rest).
    rewrite bind_assoc.
    rewrite (bind_run _ (recv_script 2 [v; n] more rest k r eq_refl)).
    cbn [unpack_BB]. rewrite bind_assoc, bind_lift.
    unfold SOCKS_VERSION.
    destruct (Byte.to_N v =? 5)%N eqn:Ev.
    + destruct H as [H|H]; [apply N.eqb_eq in Ev; congruence|].
      rewrite bind_assoc, bind_assert_true, H.
      rewrite bind_assoc. reflexivity.
    + rewrite bind_assoc. reflexivity.
  - intros v H. unfold verify_credentials.
    rewrite (bind_run _ (recv_script1 v more rest k r)).
    cbn [ord]. rewrite bind_lift.
    apply N.eqb_neq in H. rewrite H. reflexivity.
  - intros v c rsv a H. unfold handle_request.
    change (Data ([v; c; rsv; a] ++ more) :: rest)
      with (unread ([v; c; rsv; a] ++ more) rest).
    rewrite (bind_run _ (recv_script 4 [v; c; rsv; a] more rest k r eq_refl)).
    cbn [unpack_BBBB]. rewrite bind_lift.
    apply N.eqb_neq in H. unfold SOCKS_VERSION. rewrite H. reflexivity.
Qed.

(** X2 at a greeting of version 4. *)
Lemma version_checks_witness :
  handle Demo.proxy Demo.net
    (mkWorld (mkSock [Data [x04; x01; x02]] None) (mkSock [] None))
  = (Raise AssertionError,
     mkWorld (mkSock [Data [x02]] None) (mkSock [] None),
     [Recv Client 2 [x04; x01]]).
Proof.
  apply (proj1 (version_checks Demo.proxy Demo.net [x02] [] None
                  (mkSock [] None)) x04 x01).
  left. discriminate.
Defined.

(** ** The methods, however they arrive *)

Lemma sock_recv_one b s : forall i,
  stream_bytes i = b :: s ->
  exists i',
    sock_recv 1 i = (Some [b], i') /\ stream_bytes i' = s /\
    (~ In Fault i -> ~ In Fault i').
Proof.
  induction i as [|[[|c bs]|] rest IH]; cbn [stream_bytes]; intros H.
  - discriminate.
  - destruct (IH H) as (i' & E & Hs & Hf). exists i'.
    split; [exact E|]. split; [exact Hs|].
    intros Hn. apply Hf. intros Hin. apply Hn. right. exact Hin.
  - cbn in H. inversion H; subst. exists (unread bs rest).
    split; [reflexivity|]. split; [apply stream_unread|].
    intros Hn Hin. apply Hn. right.
    destruct bs; cbn in Hin; [exact Hin|].
    destruct Hin as [Hin|Hin]; [discriminate | exact Hin].
  - discriminate.
Qed.

Lemma sock_recv_closed n : forall i,
  ~ In Fault i -> stream_bytes i = [] -> sock_recv (S n) i = (Some [], []).
Proof.
  induction i as [|[[|c bs]|] rest IH]; cbn [stream_bytes]; intros Hn H.
  - reflexivity.
  - cbn. apply IH; [|exact H]. intros Hin. apply Hn. right. exact Hin.
  - discriminate.
  - exfalso. apply Hn. left. reflexivity.
Qed.

Lemma get_sock_set_same x s w : get_sock x (set_sock x s w) = s.
Proof. destruct x; reflexivity. Qed.

Lemma get_methods_stream x ms : forall acc w tail,
  stream_bytes (inbox (get_sock x w)) = ms ++ tail ->
  exists i',
    get_methods_loop (length ms) x acc w
    = (Ret (acc ++ map Byte.to_N ms),
       set_sock x (mkSock i' (wbudget (get_sock x w))) w,
       map (fun b => Recv x 1 [b]) ms) /\
    stream_bytes i' = tail /\
    (~ In Fault (inbox (get_sock x w)) -> ~ In Fault i').
Proof.
  induction ms as [|m ms IH]; intros acc w tail H.
  - exists (inbox (get_sock x w)). cbn. rewrite app_nil_r.
    split; [|split; [exact H | auto]].
    destruct x, w as [[ic kc] [ir kr]]; reflexivity.
  - cbn [length get_methods_loop].
    destruct (sock_recv_one _ _ _ H) as (i1 & E & Hs & Hf).
    rewrite (bind_run _ (recv_run x 1 w _ _ E)).
    cbn [ord]. rewrite bind_lift.
    set (w1 := set_sock x (mkSock i1 (wbudget (get_sock x w))) w).
    assert (Hs1 : stream_bytes (inbox (get_sock x w1)) = ms ++ tail).
    { unfold w1. rewrite get_sock_set_same. exact Hs. }
    destruct (IH (acc ++ [Byte.to_N m]) w1 tail Hs1) as (i' & E' & Hs' & Hf').
    exists i'. rewrite E'. unfold after. cbn [outcome final log fst snd].
    split; [|split; [exact Hs'|]].
    + rewrite <- app_assoc. cbn [app map Pos.to_nat]. f_equal. f_equal.
      unfold w1. rewrite get_sock_set_same. cbn [wbudget].
      destruct x, w as [[ic kc] [ir kr]]; reflexivity.
    + intros Hn. apply Hf'. unfold w1. rewrite get_sock_set_same.
      apply Hf. exact Hn.
Qed.

(** X3.  [get_available_methods] reads one byte at a time (line 102), so
    it does not depend on how the methods arrive: whenever the stream
    holds the bytes [ms] before its first read error, in whatever
    segments, the result is their values in order, the reads are reads
    of one byte each, and the rest of the stream is left unread. *)
Theorem methods_any_segmentation x ms tail w :
  stream_bytes (inbox (get_sock x w)) = ms ++ tail ->
  exists i',
    get_available_methods x (N.of_nat (length ms)) w
    = (Ret (map Byte.to_N ms),
       set_sock x (mkSock i' (wbudget (get_sock x w))) w,
       map (fun b => Recv x 1 [b]) ms) /\
    stream_bytes i' = tail.
Proof.
  intros H. unfold get_available_methods. rewrite Nat2N.id.
  destruct (get_methods_stream x ms [] w tail H) as (i' & E & Hs & _).
  exists i'. split; [exact E | exact Hs].
Qed.

(** X3 at three methods in two segments, with an empty one between. *)
Lemma methods_any_segmentation_witness :
  exists i',
    get_available_methods Client 3
      (mkWorld (mkSock [Data [x00]; Data []; Data [x01; x02; x05]] None)
               (mkSock [] None))
    = (Ret [0; 1; 2]%N,
       mkWorld (mkSock i' None) (mkSock [] None),
       [Recv Client 1 [x00]; Recv Client 1 [x01]; Recv Client 1 [x02]]) /\
    stream_bytes i' = [x05].
Proof.
  apply (methods_any_segmentation Client [x00; x01; x02] [x05]
           (mkWorld (mkSock [Data [x00]; Data []; Data [x01; x02; x05]] None)
                    (mkSock [] None))).
  reflexivity.
Defined.

(** X4.  When the client closes before it has sent the methods it
    announced, [get_available_methods] does not return the methods it
    has: the read at the end of the stream returns [b''], on which [ord]
    raises [TypeError] (line 102). *)
Theorem methods_end_of_stream x ms n w :
  ~ In Fault (inbox (get_sock x w)) ->
  stream_bytes (inbox (get_sock x w)) = ms ->
  length ms < N.to_nat n ->
  get_available_methods x n w
  = (Raise TypeError,
     set_sock x (mkSock [] (wbudget (get_sock x w))) w,
     map (fun b => Recv x 1 [b]) ms ++ [Recv x 1 []]).
Proof.
  intros Hn Hs Hlen. unfold get_available_methods.
  replace (N.to_nat n) with (length ms + S (N.to_nat n - S (length ms)))
    by lia.
  generalize (N.to_nat n - S (length ms)). intros j.
  assert (Hsplit : forall a b acc w0,
            get_methods_loop (a + b) x acc w0
            = bind (get_methods_loop a x acc)
                   (fun acc' => get_methods_loop b x acc') w0).
  { induction a as [|a IH]; intros b acc w0.
    - cbn [plus get_methods_loop]. rewrite bind_ret. reflexivity.
    - cbn [plus get_methods_loop]. rewrite !bind_assoc.
      unfold bind at 1 3.
      destruct (recv x 1 w0) as [[[d|e|] w1] t1]; try reflexivity.
      rewrite !bind_assoc.
      unfold bind at 1 3. unfold lift.
      destruct (ord d) as [m|e|]; try reflexivity.
      rewrite IH. reflexivity. }
  rewrite Hsplit.
  rewrite <- (app_nil_r ms) in Hs.
  destruct (get_methods_stream x ms [] w [] Hs) as (i' & E & Hs' & Hf).
  rewrite (bind_run _ E). cbn [get_methods_loop].
  set (w1 := set_sock x (mkSock i' (wbudget (get_sock x w))) w).
  assert (E1 : sock_recv (N.to_nat 1) (inbox (get_sock x w1))
               = (Some [], [])).
  { unfold w1. rewrite get_sock_set_same. cbn [inbox].
    apply sock_recv_closed; [apply Hf; exact Hn | exact Hs']. }
  rewrite (bind_run _ (recv_run x 1 w1 _ _ E1)).
  cbn [ord]. rewrite bind_lift_raise. unfold after.
  cbn [outcome final log fst snd]. rewrite app_nil_r.
  f_equal. f_equal. unfold w1.
  destruct x, w as [[ic kc] [ir kr]]; reflexivity.
Qed.

(** X4 at a client that announced three methods and sent two. *)
Lemma methods_end_of_stream_witness :
  get_available_methods Client 3
    (mkWorld (mkSock [Data [x00]; Data [x02]] None) (mkSock [] None))
  = (Raise TypeError, mkWorld (mkSock [] None) (mkSock [] None),
     [Recv Client 1 [x00]; Recv Client 1 [x02]; Recv Client 1 []]).
Proof.
  apply (methods_end_of_stream Client [x00; x02] 3
           (mkWorld (mkSock [Data [x00]; Data [x02]] None)
                    (mkSock [] None))).
  - cbn. intros [H|[H|[]]]; discriminate.
  - reflexivity.
  - cbn. lia.
Defined.

(** ** Reading the request (lines 53-63) *)

Lemma unpack_BBBB_short data :
  length data <> 4 -> unpack_BBBB data = Raise StructError.
Proof.
  destruct data as [|b0 [|b1 [|b2 [|b3 [|b4 data]]]]]; cbn; congruence.
Qed.

Lemma unpack_H_short data :
  length data <> 2 -> unpack_H data = Raise StructError.
Proof. destruct data as [|b0 [|b1 [|b2 data]]]; cbn; congruence. Qed.

Lemma inet_ntoa_short data :
  length data <> 4 -> inet_ntoa data = Raise OSError.
Proof.
  destruct data as [|b0 [|b1 [|b2 [|b3 [|b4 data]]]]]; cbn; congruence.
Qed.

(** X5.  The request is read with [recv(4)], [recv(4)] and [recv(2)]
    (lines 54, 58, 63), none of them repeated.  A short read of the
    header ends the handler with [struct.error], a short read of the IPv4
    address with the [OSError] of [inet_ntoa], a short read of the port
    with [struct.error]; these reads stand before the [try] statement, so
    no reply is sent and no connection is attempted. *)
Theorem request_short_reads self net c rsv a0 a1 a2 a3 rest k r data i :
  (sock_recv 4 rest = (Some data, i) ->
   length data <> 4 ->
   handle_request self net (mkWorld (mkSock rest k) r)
   = (Raise StructError, mkWorld (mkSock i k) r, [Recv Client 4 data])) /\
  (sock_recv 4 rest = (Some data, i) ->
   length data <> 4 ->
   handle_request self net
     (mkWorld (mkSock (Data [x05; c; rsv; x01] :: rest) k) r)
   = (Raise OSError, mkWorld (mkSock i k) r,
      [Recv Client 4 [x05; c; rsv; x01]; Recv Client 4 data])) /\
  (sock_recv 2 rest = (Some data, i) ->
   length data <> 2 ->
   handle_request self net
     (mkWorld (mkSock (Data ([x05; c; rsv; x01] ++ [a0; a1; a2; a3])
                       :: rest) k) r)
   = (Raise StructError, mkWorld (mkSock i k) r,
      [Recv Client 4 [x05; c; rsv; x01]; Recv Client 4 [a0; a1; a2; a3];
       Recv Client 2 data])).
Proof.
  split; [|split]; intros E Hlen; unfold handle_request.
  - rewrite (bind_run _ (recv_run Client 4 (mkWorld (mkSock rest k) r)
                           data i E)).
    rewrite (unpack_BBBB_short _ Hlen). reflexivity.
  - rewrite (bind_run _ (recv_script 4 [x05; c; rsv; x01] [] rest k r
                           eq_refl)).
    cbn [unpack_BBBB]. rewrite bind_lift.
    change (Byte.to_N x05 =? SOCKS_VERSION)%N with true.
    rewrite bind_assert_true.
    unfold read_address. change (Byte.to_N x01 =? 1)%N with true. cbv iota.
    rewrite !bind_assoc. cbn [unread].
    rewrite (bind_run _ (recv_run Client 4 (mkWorld (mkSock rest k) r)
                           data i E)).
    rewrite (inet_ntoa_short _ Hlen). reflexivity.
  - change (Data ([x05; c; rsv; x01] ++ [a0; a1; a2; a3]) :: rest)
      with (unread ([x05; c; rsv; x01] ++ [a0; a1; a2; a3]) rest).
    rewrite (bind_run _ (recv_script 4 [x05; c; rsv; x01] _ rest k r
                           eq_refl)).
    cbn [unpack_BBBB]. rewrite bind_lift.
    change (Byte.to_N x05 =? SOCKS_VERSION)%N with true.
    rewrite bind_assert_true.
    unfold read_address. change (Byte.to_N x01 =? 1)%N with true. cbv iota.
    rewrite !bind_assoc.
    rewrite (bind_run _ (recv_script 4 [a0; a1; a2; a3] [] rest k r
                           eq_refl)).
    cbn [inet_ntoa]. rewrite !bind_assoc, bind_lift, bind_ret.
    cbn [unread].
    rewrite (bind_run _ (recv_run Client 2 (mkWorld (mkSock rest k) r)
                           data i E)).
    rewrite (unpack_H_short _ Hlen). reflexivity.
Qed.

(** X5 at an IPv4 address that arrives in two segments. *)
Lemma request_short_reads_witness :
  handle_request Demo.proxy Demo.net
    (mkWorld (mkSock [Data [x05; x01; x00; x01]; Data [x7f; x00];
                      Data [x00; x01; x00; x50]] None)
             (mkSock [] None))
  = (Raise OSError,
     mkWorld (mkSock [Data [x00; x01; x00; x50]] None) (mkSock [] None),
     [Recv Client 4 [x05; x01; x00; x01]; Recv Client 4 [x7f; x00]]).
Proof.
  apply (proj1 (proj2 (request_short_reads Demo.proxy Demo.net x01 x00
                         x00 x00 x00 x00
                         [Data [x7f; x00]; Data [x00; x01; x00; x50]]
                         None (mkSock [] None) [x7f; x00]
                         [Data [x00; x01; x00; x50]]))).
  - reflexivity.
  - discriminate.
Defined.

(** ** Credentials that were not configured *)

Lemma none_in p t e : none p t -> In e t -> p e = false.
Proof. unfold none. rewrite Forall_forall. auto. Qed.

Lemma verify_credentials_accepts self w :
  outcome (verify_credentials self Client w) = Ret true ->
  exists u p, username self = Some u /\ password self = Some p.
Proof.
  unfold verify_credentials.
  step_recv; tidy; [|discriminate].
  step_ord; tidy; [|discriminate].
  step_assert; tidy; [|discriminate].
  apply N.eqb_eq in E. rewrite E.
  step_recv; tidy; [|discriminate].
  step_ord; tidy; [|discriminate].
  step_recv; tidy; [|discriminate].
  step_decode; tidy; [|discriminate].
  step_recv; tidy; [|discriminate].
  step_ord; tidy; [|discriminate].
  step_recv; tidy; [|discriminate].
  step_decode; tidy; [|discriminate].
  destruct (py_eq s (username self) && py_eq s0 (password self)) eqn:Em.
  - apply credentials_match in Em. intros _. eauto.
  - change (pack_BB 1 255) with (Ret [x01; xff]). step_lift.
    step_sendall; tidy; [|discriminate].
    unfold close. step_lift. tidy. discriminate.
Qed.

Lemma reads_none_of p t :
  (forall e, is_read e = true -> p e = false) -> reads t -> none p t.
Proof.
  intros Hp. induction 1 as [|e t H _ IH]; constructor; auto.
Qed.

Lemma read_not_past_auth e : is_read e = true -> is_past_auth e = false.
Proof.
  destruct e as [[]| []| | | | | | | | | |]; try discriminate; reflexivity.
Qed.

Lemma handle_unauthenticated self net w :
  username self = None \/ password self = None ->
  none is_past_auth (log (handle self net w)).
Proof.
  intros Hcfg. unfold handle.
  pose proof (handle_greeting_cases w) as Hg.
  destruct (handle_greeting w) as [[r1 w1] t1] eqn:EG.
  cbn [outcome log fst snd] in Hg.
  destruct (split_reads t1) as (rs1 & Hr1 & Ht1).
  pose proof (reads_none_of _ _ read_not_past_auth Hr1) as Hn1.
  inversion Hg as [Ho Hs|Ho Hs|e Ho Hs|Ho Hs]; subst r1;
    rewrite <- Hs in Ht1; clear Hs Hg; subst t1.
  - rewrite (bind_run _ EG). cbn [negb].
    pose proof (verify_credentials_cases self w1) as Hv.
    pose proof (verify_credentials_accepts self w1) as Ha.
    destruct (verify_credentials self Client w1) as [[r2 w2] t2] eqn:EV.
    cbn [outcome log fst snd] in Hv, Ha.
    destruct (split_reads t2) as (rs2 & Hr2 & Ht2).
    pose proof (reads_none_of _ _ read_not_past_auth Hr2) as Hn2.
    inversion Hv as [Ho2 Hs2|Ho2 Hs2|e Ho2 Hs2|d Ho2 Hs2]; subst r2;
      rewrite <- Hs2 in Ht2; clear Hs2 Hv; subst t2.
    + exfalso. destruct (Ha eq_refl) as (u & p & Hu & Hp).
      destruct Hcfg; congruence.
    + rewrite (bind_run _ EV). cbn [negb ret]. tidy.
      rewrite app_nil_r.
      repeat (apply none_app || apply none_cons || apply none_nil
              || assumption || reflexivity).
    + rewrite (bind_raise _ EV). tidy.
      repeat (apply none_app || apply none_cons || apply none_nil
              || assumption || reflexivity).
    + rewrite (bind_raise _ EV). tidy.
      repeat (apply none_app || apply none_cons || apply none_nil
              || assumption || reflexivity).
  - rewrite (bind_run _ EG). cbn [negb ret]. tidy. rewrite app_nil_r.
    repeat (apply none_app || apply none_cons || apply none_nil
            || assumption || reflexivity).
  - rewrite (bind_raise _ EG). tidy.
    repeat (apply none_app || apply none_cons || apply none_nil
            || assumption || reflexivity).
  - rewrite (bind_raise _ EG). tidy.
    repeat (apply none_app || apply none_cons || apply none_nil
            || assumption || reflexivity).
Qed.

(** X6.  A decoded string never equals [None] (line 115), the value of
    an option that was not given.  With the username or the password left
    unset, [verify_credentials] never returns [True]: no session receives
    [01 00], makes an outbound connection or starts a relay. *)
Theorem unset_credentials_reject self net w :
  username self = None \/ password self = None ->
  (forall x, outcome (verify_credentials self Client x) <> Ret true) /\
  ~ In (Sent Client [x01; x00]) (log (handle self net w)) /\
  none is_relay (log (handle self net w)) /\
  (forall ad p, ~ In (Connected ad p) (log (handle self net w))).
Proof.
  intros Hcfg.
  pose proof (handle_unauthenticated self net w Hcfg) as Hn.
  split.
  { intros x Hx. destruct (verify_credentials_accepts self x Hx)
      as (u & p & Hu & Hp). destruct Hcfg; congruence. }
  split.
  { intros Hin. apply (none_in _ _ _ Hn) in Hin. discriminate. }
  split.
  { eapply Forall_impl; [|exact Hn]. cbn. intros e He.
    unfold is_past_auth in He.
    destruct (is_relay e); [|reflexivity].
    rewrite orb_true_r in He. discriminate. }
  intros ad p Hin. apply (none_in _ _ _ Hn) in Hin. discriminate.
Qed.

(** X6 at a proxy started without [--username] and [--password]. *)
Lemma unset_credentials_reject_witness :
  let self := mkSocksProxy any_address 11080 None None any_address in
  (forall x, outcome (verify_credentials self Client x) <> Ret true) /\
  ~ In (Sent Client [x01; x00]) (log (handle self Demo.net Demo.connect_ok)) /\
  none is_relay (log (handle self Demo.net Demo.connect_ok)) /\
  (forall ad p,
     ~ In (Connected ad p) (log (handle self Demo.net Demo.connect_ok))).
Proof.
  intros self.
  apply (unset_credentials_reject self Demo.net Demo.connect_ok).
  left. reflexivity.
Defined.

(** ** A username that arrives in two segments *)

(** X7.  [recv(username_len)] is not repeated either (line 110).  When
    the segment that brings the auth request ends inside the username,
    the part that has arrived is taken for the whole username and the
    next byte of the stream for the length of the password; the request
    is accepted only if that part is the configured username. *)
Theorem split_username self ulen u1 c more rest k r u :
  u1 <> [] ->
  length u1 < N.to_nat (Byte.to_N ulen) ->
  utf8_decode u1 = Some u ->
  let x := verify_credentials self Client
             (mkWorld (mkSock (Data ([x01; ulen] ++ u1)
                               :: Data (c :: more) :: rest) k) r) in
  (exists tl,
     log x = [Recv Client 1 [x01]; Recv Client 1 [ulen];
              Recv Client (N.to_nat (Byte.to_N ulen)) u1;
              Recv Client 1 [c]] ++ tl) /\
  (outcome x = Ret true -> username self = Some u).
Proof.
  intros Hne Hlen Hu x. subst x. unfold verify_credentials.
  cbn [app].
  rewrite (bind_run _ (recv_script1 x01 (ulen :: u1)
                         (Data (c :: more) :: rest) k r)).
  cbn [ord unread]. rewrite bind_lift.
  change (Byte.to_N x01 =? 1)%N with true. rewrite bind_assert_true.
  rewrite (bind_run _ (recv_script1 ulen u1 (Data (c :: more) :: rest) k r)).
  cbn [ord]. rewrite bind_lift.
  assert (E3 : recv Client (Byte.to_N ulen)
                 (mkWorld (mkSock (unread u1 (Data (c :: more) :: rest)) k) r)
               = (Ret u1, mkWorld (mkSock (Data (c :: more) :: rest) k) r,
                  [Recv Client (N.to_nat (Byte.to_N ulen)) u1])).
  { unfold recv. cbn [get_sock conn inbox wbudget set_sock remote].
    destruct u1 as [|b u1]; [congruence|]. cbn [unread].
    destruct (N.to_nat (Byte.to_N ulen)) as [|n] eqn:En; [cbn in Hlen; lia|].
    cbn [sock_recv sock_recv_pos].
    rewrite firstn_all2 by lia. rewrite skipn_all2 by lia. reflexivity. }
  rewrite (bind_run _ E3).
  assert (Hd : decode u1 = Ret u) by (unfold decode; rewrite Hu; reflexivity).
  rewrite Hd, bind_lift.
  rewrite (bind_run _ (recv_script1 c more rest k r)).
  cbn [ord]. rewrite bind_lift.
  rewrite !after_after. cbn [app].
  split.
  - rewrite log_after. eexists. reflexivity.
  - rewrite outcome_after.
    step_recv; tidy; [|discriminate].
    step_decode; tidy; [|discriminate].
    destruct (py_eq u (username self) && py_eq s (password self)) eqn:Em.
    + apply credentials_match in Em. intros _. apply Em.
    + change (pack_BB (Byte.to_N x01) 255) with (Ret [x01; xff]). step_lift.
      step_sendall; tidy; [|discriminate].
      unfold close. step_lift. tidy. discriminate.
Qed.

(** X7 at the credentials user / pass, with the segment boundary after
    [us]. *)
Lemma split_username_witness :
  let x := verify_credentials Demo.proxy Client
             (mkWorld (mkSock [Data [x01; x04; "u"; "s"]%byte;
                               Data ["e"; "r"; x04; "p"; "a"; "s"; "s"]%byte]
                              None)
                      (mkSock [] None)) in
  (exists tl,
     log x = [Recv Client 1 [x01]; Recv Client 1 [x04];
              Recv Client 4 ["u"; "s"]%byte;
              Recv Client 1 ["e"]%byte] ++ tl) /\
  (outcome x = Ret true -> username Demo.proxy = Some [117; 115]%N).
Proof.
  apply (split_username Demo.proxy x04 ["u"; "s"]%byte "e"%byte
           ["r"; x04; "p"; "a"; "s"; "s"]%byte [] None (mkSock [] None)
           [117; 115]%N).
  - discriminate.
  - cbn. lia.
  - reflexivity.
Defined.

(** ** What is read before authentication *)

Lemma bytes_read_app x t1 t2 :
  bytes_read x (t1 ++ t2) = bytes_read x t1 + bytes_read x t2.
Proof.
  induction t1 as [|e t1 IH]; [reflexivity|].
  destruct e; cbn; rewrite IH; lia.
Qed.

Lemma recv_cases_len n w :
  (exists data w1,
     recv Client n w = (Ret data, w1, [Recv Client (N.to_nat n) data]) /\
     length data <= N.to_nat n) \/
  (exists w1,
     recv Client n w = (Raise OSError, w1, [RecvFault Client (N.to_nat n)])).
Proof.
  unfold recv.
  destruct (sock_recv (N.to_nat n) (inbox (get_sock Client w)))
    as [[data|] i] eqn:E; eauto.
  left. exists data. eexists. split; [reflexivity|].
  eapply sock_recv_length. exact E.
Qed.

Ltac step_recv_len :=
  rewrite ?bind_assoc;
  match goal with
  | |- context [bind (recv Client ?n) ?f ?w] =>
      let data := fresh "data" in
      let w1 := fresh "w" in
      let E := fresh "E" in
      let L := fresh "L" in
      destruct (recv_cases_len n w) as [(data & w1 & E & L)|(w1 & E)];
      [rewrite (bind_run f E) | rewrite (bind_raise f E)];
      clear E; cbv beta
  end.

Ltac count :=
  repeat rewrite ?log_after, ?bytes_read_app;
  unfold ret;
  cbn [app bytes_read who_eqb log snd length].

Lemma get_methods_loop_bytes k : forall acc w,
  bytes_read Client (log (get_methods_loop k Client acc w)) <= k.
Proof.
  induction k as [|k IH]; intros acc w; [cbn; lia|].
  cbn [get_methods_loop].
  step_recv_len; count; [|lia].
  destruct (ord data) as [m|e|]; [|cbn in *; lia..].
  rewrite bind_lift. specialize (IH (acc ++ [m]) w0).
  change (N.to_nat 1) with 1 in L. lia.
Qed.

Lemma handle_greeting_bytes w :
  bytes_read Client (log (handle_greeting w)) <= 257.
Proof.
  unfold handle_greeting.
  step_recv_len; count; [|lia].
  change (N.to_nat 2) with 2 in L.
  destruct data as [|b0 [|b1 [|b2 data]]]; cbn [unpack_BB];
    try (rewrite bind_lift_raise; cbn in *; lia).
  rewrite bind_lift.
  step_assert; count; [|cbn; lia].
  step_assert; count; [|cbn; lia].
  pose proof (get_methods_loop_bytes (N.to_nat (Byte.to_N b1)) [] w0) as Hm.
  fold (get_available_methods Client (Byte.to_N b1)) in Hm.
  pose proof (Byte.to_N_bounded b1) as Hb.
  destruct (get_available_methods Client (Byte.to_N b1) w0)
    as [[[ms|e|] w1] tm] eqn:EM; cbn [log snd] in Hm.
  - rewrite (bind_run _ EM). count.
    destruct (existsb (N.eqb 2) ms); cbn [negb].
    + change (pack_BB SOCKS_VERSION 2) with (Ret [x05; x02]).
      step_lift. step_sendall; count; lia.
    + unfold close_call. step_lift. count. lia.
  - rewrite (bind_raise _ EM). count. lia.
  - unfold bind. rewrite EM. count. lia.
Qed.

Lemma verify_credentials_bytes self w :
  bytes_read Client (log (verify_credentials self Client w)) <= 513.
Proof.
  unfold verify_credentials.
  step_recv_len; count; [|lia]. change (N.to_nat 1) with 1 in L.
  step_ord; count; [|lia].
  step_assert; count; [|lia].
  apply N.eqb_eq in E. rewrite E.
  step_recv_len; count; [|lia]. change (N.to_nat 1) with 1 in L0.
  step_ord; count; [|lia].
  pose proof (Byte.to_N_bounded c0) as Hu.
  step_recv_len; count; [|lia].
  step_decode; count; [|lia].
  step_recv_len; count; [|lia]. change (N.to_nat 1) with 1 in L2.
  step_ord; count; [|lia].
  pose proof (Byte.to_N_bounded c1) as Hp.
  step_recv_len; count; [|lia].
  step_decode; count; [|lia].
  destruct (py_eq s (username self) && py_eq s0 (password self)).
  - change (pack_BB 1 0) with (Ret [x01; x00]). step_lift.
    step_sendall; count; lia.
  - change (pack_BB 1 255) with (Ret [x01; xff]). step_lift.
    step_sendall; count; [|lia].
    unfold close. step_lift. count. lia.
Qed.

Lemma bytes_read_prefix x pre post :
  bytes_read x pre <= bytes_read x (pre ++ post).
Proof. rewrite bytes_read_app. lia. Qed.

(** The handshake up to the end of [verify_credentials]: what it logs,
    and whether the handler goes on to the request. *)
Lemma handle_phases self net w :
  exists t12 t3,
    log (handle self net w) = t12 ++ t3 /\
    bytes_read Client t12 <= 770 /\
    (t3 = [] \/ exists t12', t12 = t12' ++ [Sent Client [x01; x00]]).
Proof.
  unfold handle.
  pose proof (handle_greeting_bytes w) as Hg.
  destruct (handle_greeting w) as [[[sel|e|] w1] t1] eqn:EG;
    cbn [log snd] in Hg.
  - rewrite (bind_run _ EG), log_after.
    destruct sel; cbn [negb].
    2:{ exists t1, []. cbn. split; [reflexivity|]. split; [lia | auto]. }
    pose proof (verify_credentials_bytes self w1) as Hv.
    pose proof (verify_credentials_cases self w1) as Hc.
    destruct (verify_credentials self Client w1) as [[[ok|e|] w2] t2] eqn:EV;
      cbn [log snd outcome fst] in Hv, Hc.
    + rewrite (bind_run _ EV), log_after.
      destruct ok; cbn [negb].
      * exists (t1 ++ t2), (log (handle_request self net w2)).
        split; [apply app_assoc|]. split; [rewrite bytes_read_app; lia|].
        right. destruct (split_reads t2) as (rs & Hr & Ht).
        inversion Hc as [Ho Hs| | |]. rewrite <- Hs in Ht.
        exists (t1 ++ rs). rewrite Ht. apply app_assoc.
      * exists (t1 ++ t2), []. cbn [ret log snd].
        split; [rewrite !app_nil_r; reflexivity|].
        split; [rewrite bytes_read_app; lia | auto].
    + rewrite (bind_raise _ EV). exists (t1 ++ t2), [].
      cbn [log snd]. split; [rewrite app_nil_r; reflexivity|].
      split; [rewrite bytes_read_app; lia | auto].
    + exists (t1 ++ t2), []. unfold bind at 1. rewrite EV. cbn [log snd].
      split; [rewrite app_nil_r; reflexivity|].
      split; [rewrite bytes_read_app; lia | auto].
  - rewrite (bind_raise _ EG). exists t1, []. cbn [log snd].
    split; [rewrite app_nil_r; reflexivity|]. split; [lia | auto].
  - exists t1, []. unfold bind. rewrite EG. cbn [log snd].
    split; [rewrite app_nil_r; reflexivity|]. split; [lia | auto].
Qed.

(** X8.  Before the auth success reply is sent the handler reads at most
    770 bytes from the client: 2 and at most 255 for the greeting, and
    1 + 1 + 255 + 1 + 255 for the auth request.  It holds of every prefix
    of the log without that reply, hence of the whole log of a session
    that is never authenticated. *)
Theorem preauth_read_bound self net w pre post :
  log (handle self net w) = pre ++ post ->
  none is_auth_ok pre ->
  bytes_read Client pre <= 770.
Proof.
  intros Hl Hn.
  destruct (handle_phases self net w) as (t12 & t3 & Ht & Hb & Hcase).
  rewrite Ht in Hl.
  destruct Hcase as [->|(t12' & ->)].
  - rewrite app_nil_r in Hl. subst t12.
    pose proof (bytes_read_prefix Client pre post). lia.
  - rewrite <- app_assoc in Hl. cbn [app] in Hl.
    assert (Hpre : exists m, t12' = pre ++ m).
    { apply app_eq_app in Hl as [l [[H1 H2]|[H1 H2]]].
      - exists l. exact H1.
      - destruct l as [|x l].
        + exists []. rewrite app_nil_r in H1 |- *. congruence.
        + exfalso. cbn in H2. inversion H2 as [[Hx Ht3]].
          unfold none in Hn. rewrite H1 in Hn.
          apply Forall_app in Hn as [_ Hn].
          inversion Hn as [|? ? Hx' _]. rewrite <- Hx in Hx'.
          discriminate. }
    destruct Hpre as (m & ->).
    rewrite !bytes_read_app in Hb. lia.
Qed.

(** X8 at the session [Demo.connect_ok], up to the auth reply. *)
Lemma preauth_read_bound_witness :
  bytes_read Client
    (firstn 8 (log (handle Demo.proxy Demo.net Demo.connect_ok))) <= 770.
Proof.
  apply (preauth_read_bound Demo.proxy Demo.net Demo.connect_ok
           (firstn 8 (log (handle Demo.proxy Demo.net Demo.connect_ok)))
           (skipn 8 (log (handle Demo.proxy Demo.net Demo.connect_ok)))).
  - symmetry. apply firstn_skipn.
  - vm_compute. repeat constructor.
Defined.

(** ** One byte string for each name *)

Lemma in_range_bounds lo hi b :
  in_range lo hi b = true -> (lo <= Byte.to_N b <= hi)%N.
Proof.
  unfold in_range. intros H. apply andb_true_iff in H as [H1 H2].
  apply N.leb_le in H1. apply N.leb_le in H2. auto.
Qed.

Lemma option_map_some {A B} (f : A -> B) o y :
  option_map f o = Some y -> exists x, o = Some x /\ y = f x.
Proof. destruct o as [x|]; cbn; intros H; inversion H. eauto. Qed.

(** The first code point of a decoded string, and the bytes it came
    from. *)
Lemma utf8_decode_head b0 t0 s :
  utf8_decode (b0 :: t0) = Some s ->
  let n0 := Byte.to_N b0 in
  exists s',
    (n0 < 128 /\ s = n0 :: s' /\ utf8_decode t0 = Some s')%N \/
    (exists b1 t1,
       (194 <= n0 < 224)%N /\ t0 = b1 :: t1 /\
       (128 <= Byte.to_N b1 <= 191)%N /\
       s = ((n0 - 192) * 64 + (Byte.to_N b1 - 128))%N :: s' /\
       utf8_decode t1 = Some s') \/
    (exists b1 b2 t2,
       (224 <= n0 < 240)%N /\ t0 = b1 :: b2 :: t2 /\
       (128 <= Byte.to_N b1 <= 191)%N /\
       (n0 = 224%N -> (160 <= Byte.to_N b1)%N) /\
       (128 <= Byte.to_N b2 <= 191)%N /\
       s = (((n0 - 224) * 64 + (Byte.to_N b1 - 128)) * 64
            + (Byte.to_N b2 - 128))%N :: s' /\
       utf8_decode t2 = Some s') \/
    (exists b1 b2 b3 t3,
       (240 <= n0 < 245)%N /\ t0 = b1 :: b2 :: b3 :: t3 /\
       (128 <= Byte.to_N b1 <= 191)%N /\
       (n0 = 240%N -> (144 <= Byte.to_N b1)%N) /\
       (128 <= Byte.to_N b2 <= 191)%N /\
       (128 <= Byte.to_N b3 <= 191)%N /\
       s = ((((n0 - 240) * 64 + (Byte.to_N b1 - 128)) * 64
             + (Byte.to_N b2 - 128)) * 64 + (Byte.to_N b3 - 128))%N :: s' /\
       utf8_decode t3 = Some s').
Proof.
  cbn [utf8_decode]. cbv zeta.
  destruct (Byte.to_N b0 <? 128)%N eqn:E1.
  { intros H. apply option_map_some in H as (s' & H & ->).
    apply N.ltb_lt in E1. exists s'. left. auto. }
  apply N.ltb_ge in E1.
  destruct (Byte.to_N b0 <? 194)%N eqn:E2; [discriminate|].
  apply N.ltb_ge in E2.
  destruct (Byte.to_N b0 <? 224)%N eqn:E3.
  { apply N.ltb_lt in E3. destruct t0 as [|b1 t1]; [discriminate|].
    destruct (in_range 128 191 b1) eqn:R1; [|discriminate].
    apply in_range_bounds in R1.
    intros H. apply option_map_some in H as (s' & H & ->).
    exists s'. right. left. exists b1, t1. unfold low6. auto 10. }
  apply N.ltb_ge in E3.
  destruct (Byte.to_N b0 <? 240)%N eqn:E4.
  { apply N.ltb_lt in E4.
    destruct t0 as [|b1 [|b2 t2]]; try discriminate.
    destruct (in_range _ _ b1) eqn:R1; [|discriminate].
    destruct (in_range 128 191 b2) eqn:R2; [|discriminate].
    apply in_range_bounds in R1. apply in_range_bounds in R2.
    cbn [andb].
    intros H. apply option_map_some in H as (s' & H & ->).
    exists s'. right. right. left. exists b1, b2, t2. unfold low6.
    split; [lia|]. split; [reflexivity|].
    split.
    { destruct (Byte.to_N b0 =? 224)%N, (Byte.to_N b0 =? 237)%N; lia. }
    split.
    { intros H0. rewrite H0 in R1. cbn in R1. lia. }
    auto. }
  apply N.ltb_ge in E4.
  destruct (Byte.to_N b0 <? 245)%N eqn:E5; [|discriminate].
  apply N.ltb_lt in E5.
  destruct t0 as [|b1 [|b2 [|b3 t3]]]; try discriminate.
  destruct (in_range _ _ b1) eqn:R1; [|discriminate].
  destruct (in_range 128 191 b2) eqn:R2; [|discriminate].
  destruct (in_range 128 191 b3) eqn:R3; [|discriminate].
  apply in_range_bounds in R1. apply in_range_bounds in R2.
  apply in_range_bounds in R3.
  cbn [andb].
  intros H. apply option_map_some in H as (s' & H & ->).
  exists s'. right. right. right. exists b1, b2, b3, t3. unfold low6.
  split; [lia|]. split; [reflexivity|].
  split.
  { destruct (Byte.to_N b0 =? 240)%N, (Byte.to_N b0 =? 244)%N; lia. }
  split.
  { intros H0. rewrite H0 in R1. cbn in R1. lia. }
  auto.
Qed.

Lemma utf8_decode_inj s : forall a b,
  utf8_decode a = Some s -> utf8_decode b = Some s -> a = b.
Proof.
  induction s as [|c s IH]; intros a b Ha Hb.
  - destruct a as [|a0 ta].
    + destruct b as [|b0 tb]; [reflexivity|].
      apply utf8_decode_head in Hb.
      destruct Hb as (s' & [H|[H|[H|H]]]);
        [destruct H as (_ & H & _)
        |destruct H as (? & ? & _ & _ & _ & H & _)
        |destruct H as (? & ? & ? & _ & _ & _ & _ & _ & H & _)
        |destruct H as (? & ? & ? & ? & _ & _ & _ & _ & _ & _ & H & _)];
        discriminate.
    + apply utf8_decode_head in Ha.
      destruct Ha as (s' & [H|[H|[H|H]]]);
        [destruct H as (_ & H & _)
        |destruct H as (? & ? & _ & _ & _ & H & _)
        |destruct H as (? & ? & ? & _ & _ & _ & _ & _ & H & _)
        |destruct H as (? & ? & ? & ? & _ & _ & _ & _ & _ & _ & H & _)];
        discriminate.
  - destruct a as [|a0 ta]; [discriminate|].
    destruct b as [|b0 tb]; [discriminate|].
    apply utf8_decode_head in Ha. apply utf8_decode_head in Hb.
    cbv zeta in Ha, Hb.
    destruct Ha as (sa & Ha). destruct Hb as (sb & Hb).
    destruct Ha as [Ha|[Ha|[Ha|Ha]]];
      [destruct Ha as (Ra & Ea & Da)
      |destruct Ha as (a1 & ta1 & Ra & -> & Ra1 & Ea & Da)
      |destruct Ha as (a1 & a2 & ta2 & Ra & -> & Ra1 & Ra1' & Ra2 & Ea & Da)
      |destruct Ha as (a1 & a2 & a3 & ta3 & Ra & -> & Ra1 & Ra1' & Ra2
                       & Ra3 & Ea & Da)];
      inversion Ea; subst c sa; clear Ea;
      (destruct Hb as [Hb|[Hb|[Hb|Hb]]];
       [destruct Hb as (Rb & Eb & Db)
       |destruct Hb as (b1 & tb1 & Rb & -> & Rb1 & Eb & Db)
       |destruct Hb as (b1 & b2 & tb2 & Rb & -> & Rb1 & Rb1' & Rb2 & Eb & Db)
       |destruct Hb as (b1 & b2 & b3 & tb3 & Rb & -> & Rb1 & Rb1' & Rb2
                        & Rb3 & Eb & Db)];
       inversion Eb as [[Ec Es]]; subst sb; clear Eb;
       try (exfalso; lia)).
    + f_equal; [apply to_N_inj_lit; lia | apply IH; assumption].
    + assert (Byte.to_N a0 = Byte.to_N b0) by lia.
      assert (Byte.to_N a1 = Byte.to_N b1) by lia.
      f_equal; [apply to_N_inj_lit; assumption|].
      f_equal; [apply to_N_inj_lit; assumption|].
      apply IH; assumption.
    + assert (Byte.to_N a0 = Byte.to_N b0) by lia.
      assert (Byte.to_N a1 = Byte.to_N b1) by lia.
      assert (Byte.to_N a2 = Byte.to_N b2) by lia.
      f_equal; [apply to_N_inj_lit; assumption|].
      f_equal; [apply to_N_inj_lit; assumption|].
      f_equal; [apply to_N_inj_lit; assumption|].
      apply IH; assumption.
    + assert (Byte.to_N a0 = Byte.to_N b0) by lia.
      assert (Byte.to_N a1 = Byte.to_N b1) by lia.
      assert (Byte.to_N a2 = Byte.to_N b2) by lia.
      assert (Byte.to_N a3 = Byte.to_N b3) by lia.
      f_equal; [apply to_N_inj_lit; assumption|].
      f_equal; [apply to_N_inj_lit; assumption|].
      f_equal; [apply to_N_inj_lit; assumption|].
      f_equal; [apply to_N_inj_lit; assumption|].
      apply IH; assumption.
Qed.

Section Accepted.

Variable self : SocksProxy.
Variables (ulen plen : byte) (uname pw more : list byte).
Variables (rest : list seg) (k : option nat) (r : sock).
Hypothesis Hulen : length uname = N.to_nat (Byte.to_N ulen).
Hypothesis Hplen : length pw = N.to_nat (Byte.to_N plen).

Lemma verify_credentials_decides :
  outcome (verify_credentials self Client
             (mkWorld (mkSock (Data ([x01; ulen] ++ uname ++ [plen] ++ pw
                                       ++ more) :: rest) k) r))
  = Ret true ->
  exists u p,
    utf8_decode uname = Some u /\ utf8_decode pw = Some p /\
    username self = Some u /\ password self = Some p.
Proof.
  destruct (utf8_decode uname) as [u|] eqn:Du.
  2:{ rewrite (@verify_credentials_bad_username self ulen plen uname pw
                 more rest k r Hulen Du). discriminate. }
  destruct (utf8_decode pw) as [p|] eqn:Dp.
  2:{ rewrite (@verify_credentials_bad_password self ulen plen uname pw
                 more rest k r Hulen Hplen u Du Dp). discriminate. }
  assert (Hdu : decode uname = Ret u)
    by (unfold decode; rewrite Du; reflexivity).
  assert (Hdp : decode pw = Ret p)
    by (unfold decode; rewrite Dp; reflexivity).
  unfold verify_credentials. cbn [app].
  rewrite (bind_run _ (recv_script1 x01 _ rest k r)).
  cbn [ord unread]. rewrite bind_lift.
  change (Byte.to_N x01 =? 1)%N with true. rewrite bind_assert_true.
  rewrite (bind_run _ (recv_script1 ulen _ rest k r)).
  cbn [ord]. rewrite bind_lift.
  rewrite (bind_run _ (recv_script (Byte.to_N ulen) uname _ rest k r
                         (eq_sym Hulen))).
  cbn [app unread]. rewrite Hdu, bind_lift.
  rewrite (bind_run _ (recv_script1 plen _ rest k r)).
  cbn [ord]. rewrite bind_lift.
  rewrite (bind_run _ (recv_script (Byte.to_N plen) pw _ rest k r
                         (eq_sym Hplen))).
  rewrite Hdp, bind_lift. rewrite !outcome_after.
  destruct (py_eq u (username self) && py_eq p (password self)) eqn:Em.
  - apply credentials_match in Em. intros _. exists u, p. tauto.
  - change (pack_BB (Byte.to_N x01) 255) with (Ret [x01; xff]). step_lift.
    step_sendall; tidy; [|discriminate].
    unfold close. step_lift. tidy. discriminate.
Qed.

End Accepted.

(** X9.  An auth request that is accepted carries the configured
    username and password in their one UTF-8 form: the strict decoder
    maps no other byte string to the same text, so no variant encoding of
    the credentials is accepted. *)
Theorem accepted_credentials_exact self ulen plen uname pw more rest k r :
  length uname = N.to_nat (Byte.to_N ulen) ->
  length pw = N.to_nat (Byte.to_N plen) ->
  outcome (verify_credentials self Client
             (mkWorld (mkSock (Data ([x01; ulen] ++ uname ++ [plen] ++ pw
                                       ++ more) :: rest) k) r))
  = Ret true ->
  utf8_decode uname = username self /\
  utf8_decode pw = password self /\
  (forall b, utf8_decode b = username self -> b = uname) /\
  (forall b, utf8_decode b = password self -> b = pw).
Proof.
  intros Hu Hp Hok.
  destruct (verify_credentials_decides self ulen plen uname pw more rest k r
              Hu Hp Hok) as (u & p & Du & Dp & Eu & Ep).
  rewrite Eu, Ep. split; [exact Du|]. split; [exact Dp|].
  split; intros b Hb; eapply utf8_decode_inj; eassumption.
Qed.

(** X9 at the credentials user / pass. *)
Lemma accepted_credentials_exact_witness :
  utf8_decode ["u"; "s"; "e"; "r"]%byte = username Demo.proxy /\
  utf8_decode ["p"; "a"; "s"; "s"]%byte = password Demo.proxy /\
  (forall b, utf8_decode b = username Demo.proxy
             -> b = ["u"; "s"; "e"; "r"]%byte) /\
  (forall b, utf8_decode b = password Demo.proxy
             -> b = ["p"; "a"; "s"; "s"]%byte).
Proof.
  apply (accepted_credentials_exact Demo.proxy x04 x04
           ["u"; "s"; "e"; "r"]%byte ["p"; "a"; "s"; "s"]%byte
           [] [] None (mkSock [] None)).
  - reflexivity.
  - reflexivity.
  - vm_compute. reflexivity.
Defined.

(** ** One dotted quad for each address *)

Lemma str_of_octet_digits (b : byte) :
  Forall (fun d => d <> 46%N) (str_of_octet (Byte.to_N b)).
Proof.
  destruct b; vm_compute; repeat constructor; discriminate.
Qed.

Lemma str_of_octet_value (b : byte) :
  fold_left (fun acc d => (acc * 10 + (d - 48))%N)
            (str_of_octet (Byte.to_N b)) 0%N
  = Byte.to_N b.
Proof. destruct b; reflexivity. Qed.

Lemma str_of_octet_inj (a b : byte) :
  str_of_octet (Byte.to_N a) = str_of_octet (Byte.to_N b) -> a = b.
Proof.
  intros H. apply to_N_inj_lit.
  rewrite <- (str_of_octet_value a), <- (str_of_octet_value b), H.
  reflexivity.
Qed.

Lemma split_at_dot (ds : list N) : forall es r r',
  Forall (fun d => d <> 46%N) ds ->
  Forall (fun d => d <> 46%N) es ->
  ds ++ 46%N :: r = es ++ 46%N :: r' ->
  ds = es /\ r = r'.
Proof.
  induction ds as [|d ds IH]; intros es r r' Hd He H.
  - destruct es as [|e es]; cbn in H.
    + inversion H. auto.
    + inversion H; subst. inversion He; subst. congruence.
  - destruct es as [|e es]; cbn in H.
    + inversion H; subst. inversion Hd; subst. congruence.
    + inversion H; subst. inversion Hd; subst. inversion He; subst.
      destruct (IH es r r') as [-> ->]; auto.
Qed.

(** X10.  The address the handler connects to for an IPv4 request is
    the dotted quad of the four address bytes (line 58); different
    addresses have different dotted quads. *)
Theorem inet_ntoa_injective a b s :
  inet_ntoa a = Ret s -> inet_ntoa b = Ret s -> a = b.
Proof.
  destruct a as [|a0 [|a1 [|a2 [|a3 [|a4 a]]]]]; cbn [inet_ntoa];
    try discriminate.
  destruct b as [|b0 [|b1 [|b2 [|b3 [|b4 b]]]]]; cbn [inet_ntoa];
    try discriminate.
  intros Ha Hb. inversion Ha as [Ea]. inversion Hb as [Eb].
  rewrite <- Eb in Ea. clear Ha Hb Eb. cbn [app] in Ea.
  apply split_at_dot in Ea as [E0 Ea]; try apply str_of_octet_digits.
  apply split_at_dot in Ea as [E1 Ea]; try apply str_of_octet_digits.
  apply split_at_dot in Ea as [E2 E3]; try apply str_of_octet_digits.
  apply str_of_octet_inj in E0, E1, E2, E3. congruence.
Qed.

(** X10 at 127.0.0.1. *)
Lemma inet_ntoa_injective_witness :
  [x7f; x00; x00; x01] = [x7f; x00; x00; x01].
Proof.
  apply (inet_ntoa_injective [x7f; x00; x00; x01] [x7f; x00; x00; x01]
           [49; 50; 55; 46; 48; 46; 48; 46; 49]%N); reflexivity.
Defined.

(** ** struct: packing what was unpacked *)

Lemma pack_H_bytes b0 b1 :
  pack_H (Byte.to_N b0 * 256 + Byte.to_N b1) = Ret [b0; b1].
Proof.
  pose proof (Byte.to_N_bounded b0) as H0.
  pose proof (Byte.to_N_bounded b1) as H1.
  unfold pack_H.
  assert (Hlt : (Byte.to_N b0 * 256 + Byte.to_N b1 <? 65536)%N = true)
    by (apply N.ltb_lt; lia).
  rewrite Hlt.
  rewrite <- (N.div_unique (Byte.to_N b0 * 256 + Byte.to_N b1) 256
                (Byte.to_N b0) (Byte.to_N b1)) by lia.
  rewrite <- (N.mod_unique (Byte.to_N b0 * 256 + Byte.to_N b1) 256
                (Byte.to_N b0) (Byte.to_N b1)) by lia.
  rewrite !pack_B_byte. reflexivity.
Qed.

Lemma pack_I_bytes b0 b1 b2 b3 :
  pack_I (((Byte.to_N b0 * 256 + Byte.to_N b1) * 256 + Byte.to_N b2) * 256
          + Byte.to_N b3)
  = Ret [b0; b1; b2; b3].
Proof.
  pose proof (Byte.to_N_bounded b0) as H0.
  pose proof (Byte.to_N_bounded b1) as H1.
  pose proof (Byte.to_N_bounded b2) as H2.
  pose proof (Byte.to_N_bounded b3) as H3.
  unfold pack_I.
  set (n := (((Byte.to_N b0 * 256 + Byte.to_N b1) * 256 + Byte.to_N b2) * 256
             + Byte.to_N b3)%N).
  assert (Hlt : (n <? 4294967296)%N = true)
    by (apply N.ltb_lt; unfold n; lia).
  rewrite Hlt.
  rewrite <- (N.div_unique n 65536 (Byte.to_N b0 * 256 + Byte.to_N b1)
                (Byte.to_N b2 * 256 + Byte.to_N b3)) by (unfold n; lia).
  rewrite <- (N.mod_unique n 65536 (Byte.to_N b0 * 256 + Byte.to_N b1)
                (Byte.to_N b2 * 256 + Byte.to_N b3)) by (unfold n; lia).
  rewrite !pack_H_bytes. reflexivity.
Qed.

Lemma pack_B_small n :
  (n < 256)%N -> exists b, Byte.to_N b = n /\ pack_B n = Ret [b].
Proof.
  intros H. unfold pack_B. destruct (Byte.of_N n) as [b|] eqn:E.
  - exists b. split; [apply Byte.to_of_N; exact E | reflexivity].
  - apply Byte.of_N_None_iff in E. lia.
Qed.

Lemma pack_B_large n : (256 <= n)%N -> pack_B n = Raise StructError.
Proof.
  intros H. unfold pack_B. destruct (Byte.of_N n) as [b|] eqn:E;
    [|reflexivity].
  apply Byte.to_of_N in E. pose proof (Byte.to_N_bounded b). lia.
Qed.

Lemma pack_H_small q :
  (q < 65536)%N ->
  exists hi lo, unpack_H [hi; lo] = Ret q /\ pack_H q = Ret [hi; lo].
Proof.
  intros H.
  assert (Hd : (q / 256 < 256)%N)
    by (apply N.Div0.div_lt_upper_bound; lia).
  assert (Hm : (q mod 256 < 256)%N) by (apply N.mod_lt; lia).
  destruct (pack_B_small _ Hd) as (hi & Hhi & Ehi).
  destruct (pack_B_small _ Hm) as (lo & Hlo & Elo).
  exists hi, lo. split.
  - cbn [unpack_H]. rewrite Hhi, Hlo. f_equal.
    rewrite (N.div_mod q 256) at 3 by lia. lia.
  - unfold pack_H. apply N.ltb_lt in H. rewrite H, Ehi, Elo. reflexivity.
Qed.

(** X11.  [generate_failed_reply] packs both arguments as unsigned bytes
    (line 128): for values below 256 the result is the ten bytes
    [05 err 00 atyp 00 00 00 00 00 00], and for a value of 256 or more
    [struct.pack] raises [struct.error]. *)
Theorem generate_failed_reply_range address_type error_number :
  ((address_type < 256)%N -> (error_number < 256)%N ->
   exists a e,
     Byte.to_N a = address_type /\ Byte.to_N e = error_number /\
     generate_failed_reply address_type error_number
     = Ret [x05; e; x00; a; x00; x00; x00; x00; x00; x00]) /\
  ((256 <= address_type)%N \/ (256 <= error_number)%N ->
   generate_failed_reply address_type error_number = Raise StructError).
Proof.
  unfold generate_failed_reply, pack_BBBBIH.
  change (pack_B SOCKS_VERSION) with (Ret [x05]).
  change (pack_B 0) with (Ret [x00]). cbn [rbind].
  split.
  - intros Ha He.
    destruct (pack_B_small _ Ha) as (a & Ha' & Ea).
    destruct (pack_B_small _ He) as (e & He' & Ee).
    exists a, e. rewrite Ea, Ee. auto.
  - intros H.
    destruct (N.lt_ge_cases error_number 256) as [He|He].
    + destruct (pack_B_small _ He) as (e & He' & Ee). rewrite Ee.
      cbn [rbind]. destruct H as [H|H]; [|lia].
      rewrite (pack_B_large _ H). reflexivity.
    + rewrite (pack_B_large _ He). reflexivity.
Qed.

(** X11 at the error numbers 7 and 256. *)
Lemma generate_failed_reply_range_witness :
  (exists a e,
     Byte.to_N a = 4%N /\ Byte.to_N e = 7%N /\
     generate_failed_reply 4 7
     = Ret [x05; e; x00; a; x00; x00; x00; x00; x00; x00]) /\
  generate_failed_reply 1 256 = Raise StructError.
Proof.
  split.
  - apply (proj1 (generate_failed_reply_range 4 7)); reflexivity.
  - apply (proj2 (generate_failed_reply_range 1 256)). right. discriminate.
Defined.

(** ** The outbound socket *)

Lemma binding_run {B} self net (f : unit -> M B) w :
  eip self = any_address \/ bind_ok net (eip self) = true ->
  bind (if negb (str_eqb (eip self) any_address)
        then (if bind_ok net (eip self)
              then emit (Bind (eip self))
              else raise OSError)
        else ret tt) f w
  = after (binding self) (f tt w).
Proof.
  intros H. unfold binding.
  destruct (str_eqb (eip self) any_address) eqn:E; cbn [negb].
  - rewrite bind_ret, after_nil. reflexivity.
  - destruct H as [H|H].
    + apply str_eqb_eq in H. congruence.
    + rewrite H. apply bind_emit.
Qed.

Lemma try_connect_ok self net a ad p w n0 n1 n2 n3 q peer hi lo :
  eip self = any_address \/ bind_ok net (eip self) = true ->
  dial net ad p = Some ([n0; n1; n2; n3], q, peer) ->
  pack_H q = Ret [hi; lo] ->
  try_connect self net 1 (Byte.to_N a) (Some ad) p w
  = (Ret (Some [x05; x00; x00; a; n0; n1; n2; n3; hi; lo]),
     set_sock Remote peer w,
     binding self ++ [Connected ad p]).
Proof.
  intros Hb Hd Hq. unfold try_connect.
  change (1 =? 1)%N with true. cbv iota.
  rewrite (binding_run self net _ w Hb). cbn [local]. rewrite bind_ret.
  assert (EC : connect net ad p w
               = (Ret ([n0; n1; n2; n3], q), set_sock Remote peer w, []))
    by (unfold connect; rewrite Hd; reflexivity).
  rewrite (bind_run _ EC), bind_emit. cbn [fst snd unpack_I].
  rewrite bind_lift.
  unfold pack_BBBBIH.
  change (pack_B SOCKS_VERSION) with (Ret [x05]).
  change (pack_B 0) with (Ret [x00]).
  rewrite pack_B_byte, pack_I_bytes, Hq. cbn [rbind app].
  rewrite bind_lift. unfold ret, after. cbn. rewrite ?app_nil_r. reflexivity.
Qed.

(** X12.  The success reply (lines 78-81): when the outbound connection
    is made and the name of the socket is the address [n0.n1.n2.n3] and
    the port [q], the reply is [05 00 00 atyp n0 n1 n2 n3] followed by
    [q] in network byte order; the four bytes that [inet_aton] gives pass
    through [unpack] and [pack] unchanged. *)
Theorem success_reply_layout self net a ad p w n0 n1 n2 n3 q peer :
  eip self = any_address \/ bind_ok net (eip self) = true ->
  dial net ad p = Some ([n0; n1; n2; n3], q, peer) ->
  (q < 65536)%N ->
  exists hi lo,
    unpack_H [hi; lo] = Ret q /\
    try_connect self net 1 (Byte.to_N a) (Some ad) p w
    = (Ret (Some [x05; x00; x00; a; n0; n1; n2; n3; hi; lo]),
       set_sock Remote peer w,
       binding self ++ [Connected ad p]).
Proof.
  intros Hb Hd Hq.
  destruct (pack_H_small q Hq) as (hi & lo & Hu & Hp).
  exists hi, lo. split; [exact Hu|].
  exact (try_connect_ok self net a ad p w n0 n1 n2 n3 q peer hi lo Hb Hd Hp).
Qed.

(** X12 at the network of [Demo]: the socket is 10.0.0.2:40000. *)
Lemma success_reply_layout_witness :
  exists hi lo,
    unpack_H [hi; lo] = Ret 40000%N /\
    try_connect Demo.proxy Demo.net 1 (Byte.to_N x01)
      (Some [49; 50; 55; 46; 48; 46; 48; 46; 49]%N) 80
      (mkWorld (mkSock [] None) (mkSock [] None))
    = (Ret (Some [x05; x00; x00; x01; x0a; x00; x00; x02; hi; lo]),
       set_sock Remote Demo.peer (mkWorld (mkSock [] None) (mkSock [] None)),
       binding Demo.proxy ++ [Connected [49; 50; 55; 46; 48; 46; 48; 46; 49]%N
                                80]).
Proof.
  apply (success_reply_layout Demo.proxy Demo.net x01
           [49; 50; 55; 46; 48; 46; 48; 46; 49]%N 80
           (mkWorld (mkSock [] None) (mkSock [] None))
           x0a x00 x00 x02 40000 Demo.peer).
  - left. reflexivity.
  - reflexivity.
  - reflexivity.
Defined.

(** ** One direction of the relay and the other *)

Lemma forward_tcp_frame_aux src dst w :
  src <> dst ->
  inbox (get_sock dst (final (forward_tcp src dst w)))
  = inbox (get_sock dst w) /\
  wbudget (get_sock src (final (forward_tcp src dst w)))
  = wbudget (get_sock src w).
Proof.
  intros Hne. unfold forward_tcp.
  rewrite (forward_loop_run src dst _ w Hne).
  destruct (relay_run (S (weight (inbox (get_sock src w)))) src dst
              (inbox (get_sock src w)) (wbudget (get_sock dst w)))
    as [[r [i k]] t].
  destruct src, dst, w as [[ic kc] [ir kr]]; try congruence;
    split; reflexivity.
Qed.




(** ** A session that is relayed *)

Lemma forward_tcp_delivers src dst w :
  wbudget (get_sock dst w) = None ->
  sent_bytes dst (log (forward_tcp src dst w))
  = stream_bytes (inbox (get_sock src w)).
Proof.
  intros H. unfold forward_tcp.
  apply (@forward_loop_spec src dst (S (weight (inbox (get_sock src w)))) w);
    [lia | exact H].
Qed.

Lemma spawn_run src dst w :
  spawn src dst w
  = (Ret (mkTask src dst (Ret tt) (log (forward_tcp src dst w))),
     final (forward_tcp src dst w), [Spawn src dst]).
Proof.
  unfold spawn. pose proof (forward_tcp_returns src dst w) as H.
  destruct (forward_tcp src dst w) as [[r w1] t]. cbn in H. subst r.
  reflexivity.
Qed.

Section Relayed.

Variables (self : SocksProxy) (net : network).
Variables (rsv a0 a1 a2 a3 p0 p1 : byte) (more : list byte).
Variables (rest : list seg) (r : sock).
Variables (address : list N) (n0 n1 n2 n3 : byte) (q : N) (peer : sock).

Hypothesis Hbind : eip self = any_address \/ bind_ok net (eip self) = true.
Hypothesis Haddr : inet_ntoa [a0; a1; a2; a3] = Ret address.
Hypothesis Hdial :
  dial net address (Byte.to_N p0 * 256 + Byte.to_N p1)
  = Some ([n0; n1; n2; n3], q, peer).
Hypothesis Hq : (q < 65536)%N.
Hypothesis Hpeer : wbudget peer = None.

Lemma handle_request_relayed :
  exists hi lo t1 t2 w',
    unpack_H [hi; lo] = Ret q /\
    handle_request self net
      (mkWorld
         (mkSock (Data ([x05; x01; rsv; x01] ++ [a0; a1; a2; a3]
                          ++ [p0; p1] ++ more) :: rest) None) r)
    = (Ret tt, w',
       [Recv Client 4 [x05; x01; rsv; x01];
        Recv Client 4 [a0; a1; a2; a3];
        Recv Client 2 [p0; p1]]
       ++ binding self
       ++ [Connected address (Byte.to_N p0 * 256 + Byte.to_N p1);
           Sent Client [x05; x00; x00; x01; n0; n1; n2; n3; hi; lo];
           Spawn Client Remote; Spawn Remote Client;
           Join Client Remote t1; Join Remote Client t2;
           Close Client]) /\
    relay_log Client Remote t1 /\ relay_log Remote Client t2 /\
    sent_bytes Remote t1 = stream_bytes (unread more rest) /\
    sent_bytes Client t2 = stream_bytes (inbox peer).
Proof.
  destruct (pack_H_small q Hq) as (hi & lo & Hu & Hp).
  exists hi, lo.
  set (W1 := mkWorld (mkSock (unread more rest) None) peer).
  set (W2 := final (forward_tcp Client Remote W1)).
  exists (log (forward_tcp Client Remote W1)),
         (log (forward_tcp Remote Client W2)),
         (final (forward_tcp Remote Client W2)).
  split; [exact Hu|].
  destruct (forward_tcp_frame_aux Client Remote W1) as [Hf1 Hf2];
    [discriminate|]. fold W2 in Hf1, Hf2.
  cbn [get_sock] in Hf1, Hf2.
  split; [|split; [apply forward_tcp_log|split; [apply forward_tcp_log|]]].
  - unfold handle_request.
    change (Data ([x05; x01; rsv; x01] ++ [a0; a1; a2; a3]
                    ++ [p0; p1] ++ more) :: rest)
      with (unread ([x05; x01; rsv; x01]
                      ++ [a0; a1; a2; a3] ++ [p0; p1] ++ more) rest).
    rewrite (bind_run _ (recv_script 4 [x05; x01; rsv; x01] _ rest None r
                           eq_refl)).
    cbn [unpack_BBBB]. rewrite bind_lift.
    change (Byte.to_N x05 =? SOCKS_VERSION)%N with true.
    rewrite bind_assert_true.
    unfold read_address. change (Byte.to_N x01 =? 1)%N with true. cbv iota.
    rewrite !bind_assoc.
    rewrite (bind_run _ (recv_script 4 [a0; a1; a2; a3] _ rest None r
                           eq_refl)).
    rewrite !bind_assoc, Haddr, bind_lift, bind_ret.
    rewrite (bind_run _ (recv_script 2 [p0; p1] _ rest None r eq_refl)).
    cbn [unpack_H]. rewrite bind_lift.
    unfold reply_and_relay.
    change (Byte.to_N x01) with 1%N.
    pose proof (try_connect_ok self net x01 address
                  (Byte.to_N p0 * 256 + Byte.to_N p1)
                  (mkWorld (mkSock (unread more rest) None) r)
                  n0 n1 n2 n3 q peer hi lo Hbind Hdial Hp) as ET.
    change (Byte.to_N x01) with 1%N in ET.
    rewrite (bind_try_ret _ _ ET).
    cbn [set_sock conn remote].
    rewrite (bind_run _ (sendall_script _ (unread more rest) peer
                           (k:=None) ltac:(discriminate))).
    change (index1 [x05; x00; x00; x01; n0; n1; n2; n3; hi; lo])
      with (@Ret N 0%N).
    rewrite bind_lift. change ((0 =? 0)%N && (1 =? 1)%N) with true.
    cbv iota. cbn [spend]. rewrite !bind_assoc.
    fold W1.
    rewrite (bind_run _ (spawn_run Client Remote W1)). fold W2.
    rewrite !bind_assoc.
    rewrite (bind_run _ (spawn_run Remote Client W2)).
    rewrite bind_ret. cbn [fst snd local]. rewrite bind_ret.
    unfold join at 1. cbn [t_result t_src t_dst t_log].
    rewrite (bind_run (a:=tt) _ eq_refl).
    rewrite bind_ret.
    unfold join at 1. cbn [t_result t_src t_dst t_log].
    rewrite (bind_run (a:=tt) _ eq_refl).
    unfold close, emit, after. cbn [outcome final log fst snd].
    rewrite <- !app_assoc. reflexivity.
  - split.
    + apply (forward_tcp_delivers Client Remote W1). exact Hpeer.
    + rewrite (forward_tcp_delivers Remote Client W2).
      * cbn [get_sock]. rewrite Hf1. reflexivity.
      * cbn [get_sock]. rewrite Hf2. reflexivity.
Qed.

End Relayed.

(** ** At most one outbound connection *)

Lemma reads_no_setup t : reads t -> filter is_setup t = [].
Proof.
  induction 1 as [|e t H _ IH]; [reflexivity|].
  cbn. rewrite IH.
  destruct e as [[]| []| | | | | | | | | |]; try discriminate; reflexivity.
Qed.

Lemma relay_phase_no_setup w (job1 job2 : option task) :
  filter is_setup
    (log ((j1 <- local job1 ;; join j1 ;;
           j2 <- local job2 ;; join j2 ;; close Client) w)) = [].
Proof.
  destruct job1 as [j1|]; cbn [local]; [|reflexivity].
  rewrite bind_ret.
  unfold join at 1, bind at 1.
  destruct (t_result j1); try reflexivity.
  destruct job2 as [j2|]; cbn [local]; [|reflexivity].
  rewrite bind_ret.
  unfold join at 1, bind at 1.
  destruct (t_result j2); reflexivity.
Qed.

Lemma reply_and_relay_setup self net c a address p w :
  filter is_setup (log (reply_and_relay self net c a address p w))
  = filter is_setup (log (try_connect self net c a address p w)).
Proof.
  assert (Hsend : forall reply w0,
            filter is_setup
              (log ((sendall Client reply ;;
                     status <- lift (index1 reply) ;;
                     jobs <- (if (status =? 0)%N && (c =? 1)%N
                              then
                                job1 <- spawn Client Remote ;;
                                job2 <- spawn Remote Client ;;
                                ret (Some job1, Some job2)
                              else ret (None, None)) ;;
                     job1 <- local (fst jobs) ;;
                     join job1 ;;
                     job2 <- local (snd jobs) ;;
                     join job2 ;;
                     close Client) w0)) = []).
  { intros reply w0.
    destruct (sendall_cases reply w0) as [(w1 & E)|E].
    2:{ rewrite (bind_raise _ E). reflexivity. }
    rewrite (bind_run _ E), log_after. cbn [app filter is_setup].
    destruct (index1 reply) as [status|e|]; [|reflexivity|reflexivity].
    rewrite bind_lift.
    destruct ((status =? 0)%N && (c =? 1)%N).
    - rewrite !bind_assoc.
      rewrite (bind_run _ (spawn_run Client Remote w1)).
      rewrite !bind_assoc.
      rewrite (bind_run _ (spawn_run Remote Client _)).
      rewrite bind_ret, !log_after. cbn [app filter is_setup fst snd].
      apply relay_phase_no_setup.
    - rewrite bind_ret. cbn [fst snd]. apply relay_phase_no_setup. }
  unfold reply_and_relay.
  destruct (try_connect self net c a address p w) as [[[r|e|] w1] ps] eqn:ET.
  - rewrite (bind_try_ret _ _ ET), log_after, filter_app.
    cbn [log snd].
    destruct r as [reply|].
    + rewrite Hsend. apply app_nil_r.
    + apply app_nil_r.
  - rewrite (bind_try_raise _ _ ET), log_after, filter_app.
    cbn [log snd].
    rewrite !bind_assoc, bind_emit, log_after. cbn [app filter is_setup].
    rewrite !bind_assoc.
    destruct (generate_failed_reply a 5) as [reply|e'|];
      [|rewrite app_nil_r; reflexivity..].
    rewrite bind_lift, bind_ret, Hsend. apply app_nil_r.
  - unfold bind, try_except. rewrite ET. reflexivity.
Qed.

Lemma handle_request_setup self net w :
  filter is_setup (log (handle_request self net w)) = [] \/
  exists c a address p w',
    filter is_setup (log (handle_request self net w))
    = filter is_setup (log (try_connect self net c a address p w')).
Proof.
  unfold handle_request.
  step_recv; rewrite ?log_after; cbn [app filter is_setup log snd];
    [|left; reflexivity].
  destruct (unpack_BBBB data) as [[[[v c] rsv] a]|e|];
    [|left; reflexivity..].
  rewrite bind_lift.
  step_assert; [|left; reflexivity].
  unfold read_address. destruct (a =? 1)%N.
  - rewrite !bind_assoc.
    step_recv; rewrite ?log_after; cbn [app filter is_setup log snd];
      [|left; reflexivity].
    rewrite !bind_assoc.
    destruct (inet_ntoa data0) as [address|e|]; [|left; reflexivity..].
    rewrite bind_lift, bind_ret.
    step_recv; rewrite ?log_after; cbn [app filter is_setup log snd];
      [|left; reflexivity].
    destruct (unpack_H data1) as [p|e|]; [|left; reflexivity..].
    rewrite bind_lift. right. exists c, a, (Some address), p, w2.
    apply reply_and_relay_setup.
  - destruct (a =? 3)%N; [left; reflexivity|].
    rewrite bind_ret.
    step_recv; rewrite ?log_after; cbn [app filter is_setup log snd];
      [|left; reflexivity].
    destruct (unpack_H data0) as [p|e|]; [|left; reflexivity..].
    rewrite bind_lift. right. exists c, a, None, p, w1.
    apply reply_and_relay_setup.
Qed.

Lemma greeting_no_setup w : filter is_setup (log (handle_greeting w)) = [].
Proof.
  pose proof (handle_greeting_cases w) as H.
  destruct (split_reads (log (handle_greeting w))) as (rs & Hr & Hl).
  rewrite Hl, filter_app, (reads_no_setup _ Hr).
  inversion H; reflexivity.
Qed.

Lemma verify_no_setup self w :
  filter is_setup (log (verify_credentials self Client w)) = [].
Proof.
  pose proof (verify_credentials_cases self w) as H.
  destruct (split_reads (log (verify_credentials self Client w)))
    as (rs & Hr & Hl).
  rewrite Hl, filter_app, (reads_no_setup _ Hr).
  inversion H; reflexivity.
Qed.

Lemma handle_setup self net w :
  filter is_setup (log (handle self net w)) = [] \/
  exists c a address p w',
    filter is_setup (log (handle self net w))
    = filter is_setup (log (try_connect self net c a address p w')).
Proof.
  unfold handle.
  pose proof (greeting_no_setup w) as Hg.
  destruct (handle_greeting w) as [[[sel|e|] w1] t1] eqn:EG;
    cbn [log snd] in Hg.
  - rewrite (bind_run _ EG), log_after, filter_app, Hg. cbn [app].
    destruct sel; cbn [negb]; [|left; reflexivity].
    pose proof (verify_no_setup self w1) as Hv.
    destruct (verify_credentials self Client w1) as [[[ok|e|] w2] t2] eqn:EV;
      cbn [log snd] in Hv.
    + rewrite (bind_run _ EV), log_after, filter_app, Hv. cbn [app].
      destruct ok; cbn [negb]; [|left; reflexivity].
      apply handle_request_setup.
    + rewrite (bind_raise _ EV). left. exact Hv.
    + left. unfold bind. rewrite EV. exact Hv.
  - rewrite (bind_raise _ EG). left. exact Hg.
  - left. unfold bind. rewrite EG. exact Hg.
Qed.

Lemma try_connect_setup self net c a address p w :
  let t := filter is_setup (log (try_connect self net c a address p w)) in
  t = [] \/
  (exists ad q,
     eip self = any_address /\ dial net ad q <> None /\
     t = [Connected ad q]) \/
  (eip self <> any_address /\ bind_ok net (eip self) = true /\
   (t = [Bind (eip self)] \/
    exists ad q,
      dial net ad q <> None /\ t = [Bind (eip self); Connected ad q])).
Proof.
  assert (Hrest : forall w0,
            filter is_setup
              (log ((address' <- local address ;;
                     bind_address <- connect net address' p ;;
                     emit (Connected address' p) ;;
                     addr <- lift (unpack_I (fst bind_address)) ;;
                     reply <- lift (pack_BBBBIH SOCKS_VERSION 0 0 a addr
                                      (snd bind_address)) ;;
                     ret (Some reply)) w0)) = [] \/
            exists ad q,
              dial net ad q <> None /\
              filter is_setup
                (log ((address' <- local address ;;
                       bind_address <- connect net address' p ;;
                       emit (Connected address' p) ;;
                       addr <- lift (unpack_I (fst bind_address)) ;;
                       reply <- lift (pack_BBBBIH SOCKS_VERSION 0 0 a addr
                                        (snd bind_address)) ;;
                       ret (Some reply)) w0)) = [Connected ad q]).
  { intros w0. destruct address as [ad|]; cbn [local]; [|left; reflexivity].
    rewrite bind_ret.
    destruct (dial net ad p) as [[name peer]|] eqn:Ed.
    2:{ left.
        assert (EC : connect net ad p w0 = (Raise OSError, w0, []))
          by (unfold connect; rewrite Ed; reflexivity).
        rewrite (bind_raise _ EC). reflexivity. }
    right. exists ad, p. split; [congruence|].
    assert (EC : connect net ad p w0
                 = (Ret name, set_sock Remote peer w0, []))
      by (unfold connect; rewrite Ed; reflexivity).
    rewrite (bind_run _ EC), after_nil.
    rewrite bind_emit, log_after. cbn [app filter is_setup].
    destruct (unpack_I (fst name)) as [addr|e|]; [|reflexivity..].
    rewrite bind_lift.
    destruct (pack_BBBBIH SOCKS_VERSION 0 0 a addr (snd name));
      reflexivity. }
  intros t. subst t. unfold try_connect.
  destruct (c =? 1)%N; [|left; reflexivity].
  destruct (str_eqb (eip self) any_address) eqn:Ee; cbn [negb].
  - apply str_eqb_eq in Ee. rewrite bind_ret.
    destruct (Hrest w) as [H|(ad & q & Hd & H)]; rewrite H.
    + left. reflexivity.
    + right. left. exists ad, q. auto.
  - assert (Hne : eip self <> any_address).
    { intros H. apply str_eqb_eq in H. congruence. }
    destruct (bind_ok net (eip self)) eqn:Eb; [|left; reflexivity].
    rewrite bind_emit, log_after. cbn [app filter is_setup].
    right. right. split; [exact Hne|]. split; [reflexivity|].
    destruct (Hrest w) as [H|(ad & q & Hd & H)]; rewrite H.
    + left. reflexivity.
    + right. exists ad, q. auto.
Qed.

(** X15.  In every session the handler binds and connects the outbound
    socket at most once each.  With [eip] left at ['0.0.0.0'] it never
    binds; with an [eip] configured it binds to it before it connects,
    and does not connect when the bind fails (lines 68-71). *)
Theorem outbound_setup self net w :
  let t := filter is_setup (log (handle self net w)) in
  t = [] \/
  (exists ad q,
     eip self = any_address /\ dial net ad q <> None /\
     t = [Connected ad q]) \/
  (eip self <> any_address /\ bind_ok net (eip self) = true /\
   (t = [Bind (eip self)] \/
    exists ad q,
      dial net ad q <> None /\ t = [Bind (eip self); Connected ad q])).
Proof.
  intros t. subst t.
  destruct (handle_setup self net w) as [H|(c & a & address & p & w' & H)];
    rewrite H.
  - left. reflexivity.
  - apply try_connect_setup.
Qed.

(** ** A whole session *)

(** X16.  A whole session.  A client that offers method 2, sends the
    configured credentials and asks to CONNECT to an IPv4 address that
    can be reached gets [05 02], [01 00] and the success reply; then
    every byte it sends reaches the target and every byte of the target
    reaches the client, unchanged and in order, and the handler closes
    the client connection and returns. *)
Theorem relayed_session self net nmethods ms ulen uname plen pw u p
    rsv a0 a1 a2 a3 p0 p1 more rest r address n0 n1 n2 n3 q peer :
  length ms = N.to_nat (Byte.to_N nmethods) ->
  In x02 ms ->
  length uname = N.to_nat (Byte.to_N ulen) ->
  length pw = N.to_nat (Byte.to_N plen) ->
  utf8_decode uname = Some u ->
  utf8_decode pw = Some p ->
  username self = Some u ->
  password self = Some p ->
  eip self = any_address \/ bind_ok net (eip self) = true ->
  inet_ntoa [a0; a1; a2; a3] = Ret address ->
  dial net address (Byte.to_N p0 * 256 + Byte.to_N p1)
  = Some ([n0; n1; n2; n3], q, peer) ->
  (q < 65536)%N ->
  wbudget peer = None ->
  exists hi lo t1 t2 w',
    unpack_H [hi; lo] = Ret q /\
    handle self net
      (mkWorld
         (mkSock
            (Data ([x05; nmethods] ++ ms
                   ++ [x01; ulen] ++ uname ++ [plen] ++ pw
                   ++ [x05; x01; rsv; x01] ++ [a0; a1; a2; a3]
                   ++ [p0; p1] ++ more) :: rest) None) r)
    = (Ret tt, w',
       greeting_log nmethods ms
       ++ [Sent Client [x05; x02]]
       ++ auth_log ulen uname plen pw
       ++ [Sent Client [x01; x00];
           Recv Client 4 [x05; x01; rsv; x01];
           Recv Client 4 [a0; a1; a2; a3];
           Recv Client 2 [p0; p1]]
       ++ binding self
       ++ [Connected address (Byte.to_N p0 * 256 + Byte.to_N p1);
           Sent Client [x05; x00; x00; x01; n0; n1; n2; n3; hi; lo];
           Spawn Client Remote; Spawn Remote Client;
           Join Client Remote t1; Join Remote Client t2;
           Close Client]) /\
    relay_log Client Remote t1 /\ relay_log Remote Client t2 /\
    sent_bytes Remote t1 = stream_bytes (unread more rest) /\
    sent_bytes Client t2 = stream_bytes (inbox peer).
Proof.
  intros Hms H2 Hul Hpl Du Dp Hu Hp Hb Ha Hd Hq Hpeer.
  destruct (handle_request_relayed self net rsv a0 a1 a2 a3 p0 p1 more rest r
              address n0 n1 n2 n3 q peer Hb Ha Hd Hq Hpeer)
    as (hi & lo & t1 & t2 & w' & Hhl & ER & Hl1 & Hl2 & Hs1 & Hs2).
  exists hi, lo, t1, t2, w'.
  split; [exact Hhl|]. split; [|auto].
  assert (Hne : ms <> []) by (intros ->; destruct H2).
  pose proof (@handle_greeting_script nmethods ms
                ([x01; ulen] ++ uname ++ [plen] ++ pw
                 ++ [x05; x01; rsv; x01] ++ [a0; a1; a2; a3]
                 ++ [p0; p1] ++ more) rest None r Hms Hne
                ltac:(discriminate)) as EG.
  apply methods_offer in H2. rewrite H2 in EG.
  pose proof (@verify_credentials_script self ulen plen uname pw
                ([x05; x01; rsv; x01] ++ [a0; a1; a2; a3]
                 ++ [p0; p1] ++ more) rest None r Hul Hpl u p Du Dp
                ltac:(discriminate)) as EV.
  assert (Hm : py_eq u (username self) && py_eq p (password self) = true)
    by (apply credentials_match; auto).
  rewrite Hm in EV.
  unfold handle. rewrite (bind_run _ EG). cbn [negb].
  cbn [app unread] in EV |- *.
  rewrite (bind_run _ EV). cbn [negb spend unread].
  cbn [app] in ER. rewrite ER.
  unfold after. cbn [outcome final log fst snd].
  rewrite <- !app_assoc. reflexivity.
Qed.

(** X16 at a client that sends everything in one segment, with three
    bytes for the target. *)
Lemma relayed_session_witness :
  let w := mkWorld
             (mkSock [Data ([x05; x01; x02;
                             x01; x04; "u"; "s"; "e"; "r";
                             x04; "p"; "a"; "s"; "s";
                             x05; x01; x00; x01; x7f; x00; x00; x01;
                             x00; x50; x01; x02; x03]%byte)] None)
             (mkSock [] None) in
  exists hi lo t1 t2 w',
    unpack_H [hi; lo] = Ret 40000%N /\
    handle Demo.proxy Demo.net w
    = (Ret tt, w',
       greeting_log x01 [x02]
       ++ [Sent Client [x05; x02]]
       ++ auth_log x04 ["u"; "s"; "e"; "r"]%byte x04 ["p"; "a"; "s"; "s"]%byte
       ++ [Sent Client [x01; x00];
           Recv Client 4 [x05; x01; x00; x01];
           Recv Client 4 [x7f; x00; x00; x01];
           Recv Client 2 [x00; x50]]
       ++ binding Demo.proxy
       ++ [Connected [49; 50; 55; 46; 48; 46; 48; 46; 49]%N
             (Byte.to_N x00 * 256 + Byte.to_N x50);
           Sent Client [x05; x00; x00; x01; x0a; x00; x00; x02; hi; lo];
           Spawn Client Remote; Spawn Remote Client;
           Join Client Remote t1; Join Remote Client t2;
           Close Client]) /\
    relay_log Client Remote t1 /\ relay_log Remote Client t2 /\
    sent_bytes Remote t1 = stream_bytes (unread [x01; x02; x03] []) /\
    sent_bytes Client t2 = stream_bytes (inbox Demo.peer).
Proof.
  intros w.
  apply (relayed_session Demo.proxy Demo.net x01 [x02]
           x04 ["u"; "s"; "e"; "r"]%byte x04 ["p"; "a"; "s"; "s"]%byte
           [117; 115; 101; 114]%N [112; 97; 115; 115]%N
           x00 x7f x00 x00 x01 x00 x50 [x01; x02; x03] [] (mkSock [] None)
           [49; 50; 55; 46; 48; 46; 48; 46; 49]%N
           x0a x00 x00 x02 40000%N Demo.peer).
  - reflexivity.
  - left. reflexivity.
  - reflexivity.
  - reflexivity.
  - reflexivity.
  - reflexivity.
  - reflexivity.
  - reflexivity.
  - left. reflexivity.
  - reflexivity.
  - reflexivity.
  - reflexivity.
  - reflexivity.
Defined.

(** ** Errors on the client connection *)

Lemma stops_after {A} t (x : result A * world * list event) :
  none is_fault t -> stops_at_fault x -> stops_at_fault (after t x).
Proof.
  intros Ht [Hx|(pre & e & Hl & He & Hp & Ho)].
  - left. rewrite log_after. apply none_app; assumption.
  - right. exists (t ++ pre), e. rewrite log_after, outcome_after, Hl.
    split; [apply app_assoc|]. split; [exact He|].
    split; [apply none_app; assumption | exact Ho].
Qed.

Lemma stops_quiet {A} (x : result A * world * list event) a :
  stops_at_fault x -> outcome x = Ret a -> none is_fault (log x).
Proof.
  intros [Hx|(pre & e & _ & _ & _ & Ho)] H; [exact Hx | congruence].
Qed.

Lemma stops_raise_any {A B} e w t :
  @stops_at_fault A (Raise e, w, t) -> @stops_at_fault B (Raise e, w, t).
Proof.
  intros [H|(pre & e0 & Hl & He & Hp & Ho)]; [left; exact H|].
  right. exists pre, e0. cbn [outcome log fst snd] in *.
  inversion Ho. auto.
Qed.

Lemma stops_bind {A B} (m : M A) (f : A -> M B) w :
  stops_at_fault (m w) ->
  (forall a w1 t1, m w = (Ret a, w1, t1) -> stops_at_fault (f a w1)) ->
  stops_at_fault (bind m f w).
Proof.
  intros Hm Hf. destruct (m w) as [[[a|e|] w1] t1] eqn:E.
  - rewrite (bind_run _ E). apply stops_after.
    + exact (stops_quiet _ a Hm eq_refl).
    + eapply Hf. reflexivity.
  - rewrite (bind_raise _ E). exact (stops_raise_any _ _ _ Hm).
  - unfold bind. rewrite E. left.
    destruct Hm as [H|(pre & e0 & _ & _ & _ & Ho)]; [exact H | discriminate].
Qed.

Lemma stops_silent {A} (r : result A) w : stops_at_fault (r, w, []).
Proof. left. apply none_nil. Qed.

Lemma stops_event {A} (r : result A) w e :
  is_fault e = false -> stops_at_fault (r, w, [e]).
Proof. intros H. left. apply none_cons; [exact H | apply none_nil]. Qed.

Lemma stops_recv x n w : stops_at_fault (recv x n w).
Proof.
  unfold recv.
  destruct (sock_recv (N.to_nat n) (inbox (get_sock x w))) as [[data|] i].
  - apply stops_event. reflexivity.
  - destruct x.
    + right. exists [], (RecvFault Client (N.to_nat n)).
      repeat split. apply none_nil.
    + apply stops_event. reflexivity.
Qed.

Lemma stops_sendall x d w : stops_at_fault (sendall x d w).
Proof.
  unfold sendall. destruct (sock_send (get_sock x w)) as [s|].
  - apply stops_event. destruct x; reflexivity.
  - destruct x.
    + right. exists [], (SendFault Client d). repeat split. apply none_nil.
    + apply stops_event. reflexivity.
Qed.

Lemma stops_spawn src dst w : stops_at_fault (spawn src dst w).
Proof. rewrite spawn_run. apply stops_event. reflexivity. Qed.

Lemma stops_join j w : stops_at_fault (join j w).
Proof. apply stops_event. reflexivity. Qed.

Lemma stops_local {A} (v : option A) w : stops_at_fault (local v w).
Proof. destruct v; apply stops_silent. Qed.

Lemma stops_assert b w : stops_at_fault (assert b w).
Proof. destruct b; apply stops_silent. Qed.

(** One step of a program in [M]. *)
Ltac stops_step :=
  match goal with
  | |- stops_at_fault (bind _ _ _) => apply stops_bind; [|intros ? ? ? _]
  | |- stops_at_fault (recv _ _ _) => apply stops_recv
  | |- stops_at_fault (sendall _ _ _) => apply stops_sendall
  | |- stops_at_fault (spawn _ _ _) => apply stops_spawn
  | |- stops_at_fault (join _ _) => apply stops_join
  | |- stops_at_fault (local _ _) => apply stops_local
  | |- stops_at_fault (assert _ _) => apply stops_assert
  | |- stops_at_fault (lift _ _) => apply stops_silent
  | |- stops_at_fault (ret _ _) => apply stops_silent
  | |- stops_at_fault (raise _ _) => apply stops_silent
  | |- stops_at_fault (emit _ _) => apply stops_event; reflexivity
  | |- stops_at_fault (close _ _) => apply stops_event; reflexivity
  | |- stops_at_fault (close_call _ _) => apply stops_event; reflexivity
  | |- stops_at_fault ((if ?c then _ else _) _) => destruct c
  | |- stops_at_fault ((let (_, _) := ?x in _) _) => destruct x
  | |- stops_at_fault (match ?x with _ => _ end _) => destruct x
  end.

Lemma stops_get_methods k : forall x acc w,
  stops_at_fault (get_methods_loop k x acc w).
Proof.
  induction k as [|k IH]; intros x acc w; cbn [get_methods_loop].
  - apply stops_silent.
  - repeat stops_step. apply IH.
Qed.

Lemma stops_handle_greeting w : stops_at_fault (handle_greeting w).
Proof.
  unfold handle_greeting. repeat stops_step.
  apply stops_get_methods.
Qed.

Lemma stops_verify_credentials self w :
  stops_at_fault (verify_credentials self Client w).
Proof. unfold verify_credentials. repeat stops_step. Qed.

Lemma quiet_connect net ad p w : none is_fault (log (connect net ad p w)).
Proof.
  unfold connect. destruct (dial net ad p) as [[name peer]|];
    apply none_nil.
Qed.

(** The body of the [try] statement does not use the client connection. *)
Lemma quiet_try_connect self net c a address p w :
  none is_fault (log (try_connect self net c a address p w)).
Proof.
  assert (Hq : forall A (m : M A) B (f : A -> M B) w0,
            none is_fault (log (m w0)) ->
            (forall x w1, none is_fault (log (f x w1))) ->
            none is_fault (log (bind m f w0))).
  { intros A m B f w0 Hm Hf. unfold bind.
    destruct (m w0) as [[[x|e|] w1] t1]; cbn [log snd] in Hm |- *;
      try exact Hm.
    specialize (Hf x w1). destruct (f x w1) as [[r w2] t2].
    cbn [log snd] in Hf |- *. apply none_app; assumption. }
  unfold try_connect. destruct (c =? 1)%N.
  - apply Hq.
    { destruct (negb (str_eqb (eip self) any_address)); [|apply none_nil].
      destruct (bind_ok net (eip self)); [|apply none_nil].
      apply none_cons; [reflexivity | apply none_nil]. }
    intros _ w1. apply Hq.
    { destruct address; apply none_nil. }
    intros ad w2. apply Hq; [apply quiet_connect|].
    intros name w3. apply Hq.
    { apply none_cons; [reflexivity | apply none_nil]. }
    intros _ w4. apply Hq.
    { apply none_nil. }
    intros addr w5. apply Hq; [apply none_nil|].
    intros reply w6. apply none_nil.
  - apply Hq.
    { apply none_cons; [reflexivity | apply none_nil]. }
    intros _ w1. apply none_nil.
Qed.

Lemma stops_try {A} (m : M A) h w :
  none is_fault (log (m w)) ->
  (forall e w1, stops_at_fault (h e w1)) ->
  stops_at_fault (try_except m h w).
Proof.
  intros Hm Hh. unfold try_except.
  destruct (m w) as [[[a|e|] w1] t1]; cbn [log snd] in Hm.
  - left. exact Hm.
  - specialize (Hh e w1). destruct (h e w1) as [[r w2] t2] eqn:E.
    change (stops_at_fault (after t1 (r, w2, t2))).
    apply stops_after; assumption.
  - left. exact Hm.
Qed.

Lemma stops_reply_and_relay self net c a address p w :
  stops_at_fault (reply_and_relay self net c a address p w).
Proof.
  unfold reply_and_relay. apply stops_bind.
  - apply stops_try; [apply quiet_try_connect|].
    intros e w1. repeat stops_step.
  - intros r w1 t1 _. repeat stops_step.
Qed.

Lemma stops_handle_request self net w :
  stops_at_fault (handle_request self net w).
Proof.
  unfold handle_request, read_address. repeat stops_step;
    apply stops_reply_and_relay.
Qed.

Lemma stops_handle self net w : stops_at_fault (handle self net w).
Proof.
  unfold handle. apply stops_bind; [apply stops_handle_greeting|].
  intros sel w1 t1 _. destruct sel; cbn [negb]; [|apply stops_silent].
  apply stops_bind; [apply stops_verify_credentials|].
  intros ok w2 t2 _. destruct ok; cbn [negb]; [|apply stops_silent].
  apply stops_handle_request.
Qed.

(** X19.  No error on the client connection is caught or retried
    outside the relay tasks: in every session a failed [recv] or
    [sendall] on the client connection is the last event of the log of
    the handler, and the handler ends with [OSError]. *)
Theorem client_fault_ends_handler self net w pre e post :
  log (handle self net w) = pre ++ e :: post ->
  is_fault e = true ->
  post = [] /\ outcome (handle self net w) = Raise OSError.
Proof.
  intros Hl He.
  destruct (stops_handle self net w) as [Hn|(pre' & e' & Hl' & He' & Hp & Ho)].
  - exfalso. eapply none_absent; eauto.
  - rewrite Hl' in Hl.
    apply (only_at is_fault) in Hl as (_ & _ & ->);
      [auto | exact Hp | apply none_nil | exact He].
Qed.

(** X19 at a read error in the middle of the auth request. *)
Lemma client_fault_ends_handler_witness :
  let w := mkWorld (mkSock [Data Demo.greeting; Data [x01; x04]; Fault;
                            Data Demo.auth] None)
                   (mkSock [] None) in
  skipn 6 (log (handle Demo.proxy Demo.net w)) = [] /\
  outcome (handle Demo.proxy Demo.net w) = Raise OSError.
Proof.
  intros w.
  apply (client_fault_ends_handler Demo.proxy Demo.net w
           (firstn 5 (log (handle Demo.proxy Demo.net w)))
           (RecvFault Client 4)
           (skipn 6 (log (handle Demo.proxy Demo.net w)))).
  - vm_compute. reflexivity.
  - reflexivity.
Defined.

(** ** What the handler writes, and how it ends *)

Lemma client_writes_app t1 t2 :
  client_writes (t1 ++ t2) = client_writes t1 ++ client_writes t2.
Proof.
  induction t1 as [|e t1 IH]; [reflexivity|].
  destruct e as [| |[] d| | | | | | | | |]; cbn; rewrite IH; reflexivity.
Qed.

Lemma preps_no_writes t : preps t -> client_writes t = [].
Proof.
  induction 1 as [|e t H _ IH]; [reflexivity|].
  destruct e as [[]| []| | | | | | | | | |]; try discriminate; exact IH.
Qed.

Lemma reads_no_writes t : reads t -> client_writes t = [].
Proof. intros H. apply preps_no_writes, reads_preps, H. Qed.

(** X17.  What the handler itself writes to the client, outside the
    relay tasks: [05 02], then [01 00] or [01 FF], then one reply of ten
    bytes; in this order, each at most once, and none without the ones
    before. *)
Theorem handler_writes self net w :
  let ws := client_writes (log (handle self net w)) in
  ws = [] \/
  ws = [[x05; x02]] \/
  ws = [[x05; x02]; [x01; xff]] \/
  ws = [[x05; x02]; [x01; x00]] \/
  (exists a, ws = [[x05; x02]; [x01; x00]; failed_reply a]) \/
  (exists reply,
     ok_reply x01 reply /\ ws = [[x05; x02]; [x01; x00]; reply]).
Proof.
  intros ws. subst ws.
  generalize (handle_session self net w).
  generalize (outcome (handle self net w)), (log (handle self net w)).
  intros out t H.
  destruct H as [o rs tl Hr Hs|o rs1 rs2 tl Hr1 Hr2 Hs
                 |o rs1 rs2 ps tl Hr1 Hr2 Hps He].
  - left. rewrite client_writes_app, (reads_no_writes _ Hr).
    inversion Hs; reflexivity.
  - rewrite client_writes_app, (reads_no_writes _ Hr1). cbn [app client_writes].
    rewrite client_writes_app, (reads_no_writes _ Hr2). cbn [app].
    inversion Hs; subst; cbn; auto.
  - rewrite client_writes_app, (reads_no_writes _ Hr1). cbn [app client_writes].
    rewrite client_writes_app, (reads_no_writes _ Hr2). cbn [app client_writes].
    rewrite client_writes_app, (preps_no_writes _ Hps). cbn [app].
    remember (header_of (ps ++ tl)) as h eqn:Hh.
    destruct He as [h e ps Hr|c a ps Hc Hr|a ps e|a ps e|ps r Hc Hok
                    |ps r t1 t2 Hc Hok Hl1 Hl2]; cbn [client_writes];
      auto 10.
    + right. right. right. right. left. exists a. reflexivity.
    + right. right. right. right. right. exists r. auto.
Qed.

Lemma prep_not_await_close e : is_prep e = true -> is_await_close e = false.
Proof.
  destruct e as [[]| []| | | | | | | | | |]; try discriminate; reflexivity.
Qed.

Ltac flat := repeat (progress (rewrite <- ?app_assoc; cbn [app])).

(** X18.  The handler always ends.  It returns normally in three cases
    only: after [conn.close()] was called without [await] (method 2 not
    offered, or a command other than CONNECT), after the auth failure
    reply and the close, and after the relay and the close.  The client
    connection is closed with [await conn.close()] only as the last step
    of a handler that returns. *)
Theorem handler_endings self net w :
  outcome (handle self net w) <> OutOfFuel /\
  (outcome (handle self net w) = Ret tt ->
   (exists pre, log (handle self net w) = pre ++ [CloseCall Client] /\
                none is_relay (log (handle self net w))) \/
   (exists pre,
      log (handle self net w)
      = pre ++ [Sent Client [x01; xff]; Close Client] /\
      none is_relay (log (handle self net w))) \/
   (exists pre reply t1 t2,
      log (handle self net w)
      = pre ++ [Sent Client reply; Spawn Client Remote;
                Spawn Remote Client; Join Client Remote t1;
                Join Remote Client t2; Close Client] /\
      ok_reply x01 reply)) /\
  (In (Close Client) (log (handle self net w)) ->
   outcome (handle self net w) = Ret tt /\
   exists pre, log (handle self net w) = pre ++ [Close Client]).
Proof.
  generalize (handle_session self net w).
  generalize (outcome (handle self net w)), (log (handle self net w)).
  intros out t H.
  destruct H as [o rs tl Hr Hs|o rs1 rs2 tl Hr1 Hr2 Hs
                 |o rs1 rs2 ps tl Hr1 Hr2 Hps He].
  - assert (Hn : none is_await_close (rs ++ tl))
      by (inversion Hs; subst; solve_none prep_not_await_close).
    split; [inversion Hs; discriminate|]. split.
    + intros Ho. left. inversion Hs; subst; try discriminate.
      exists rs. split; [reflexivity | solve_none prep_not_relay].
    + intros Hin. apply (none_in _ _ _ Hn) in Hin. discriminate.
  - split; [inversion Hs; discriminate|]. split.
    + intros Ho. right. left. inversion Hs; subst; try discriminate.
      exists (rs1 ++ Sent Client [x05; x02] :: rs2).
      split; [rewrite <- app_assoc; reflexivity|].
      solve_none prep_not_relay.
    + intros Hin. inversion Hs; subst.
      * split; [reflexivity|].
        exists (rs1 ++ Sent Client [x05; x02] :: rs2
                    ++ [Sent Client [x01; xff]]).
        flat. reflexivity.
      * exfalso.
        assert (Hn : none is_await_close
                       (rs1 ++ Sent Client [x05; x02] :: rs2 ++ []))
          by solve_none prep_not_await_close.
        apply (none_in _ _ _ Hn) in Hin. discriminate.
      * exfalso.
        assert (Hn : none is_await_close
                       (rs1 ++ Sent Client [x05; x02]
                            :: rs2 ++ [SendFault Client d]))
          by solve_none prep_not_await_close.
        apply (none_in _ _ _ Hn) in Hin. discriminate.
  - remember (header_of (ps ++ tl)) as h eqn:Hh.
    destruct He as [h e ps Hr|c a ps Hc Hr|a ps e|a ps e|ps r Hc Hok
                    |ps r t1 t2 Hc Hok Hl1 Hl2].
    + split; [discriminate|]. split; [discriminate|].
      intros Hin. exfalso.
      assert (Hn : none is_await_close
                     (rs1 ++ Sent Client [x05; x02]
                          :: rs2 ++ Sent Client [x01; x00] :: ps ++ []))
        by solve_none prep_not_await_close.
      apply (none_in _ _ _ Hn) in Hin. discriminate.
    + split; [discriminate|]. split.
      * intros _. left.
        exists (rs1 ++ Sent Client [x05; x02]
                    :: rs2 ++ Sent Client [x01; x00] :: ps).
        split; [|solve_none prep_not_relay].
        flat. reflexivity.
      * intros Hin. exfalso.
        assert (Hn : none is_await_close
                       (rs1 ++ Sent Client [x05; x02]
                            :: rs2 ++ Sent Client [x01; x00]
                            :: ps ++ [CloseCall Client]))
          by solve_none prep_not_await_close.
        apply (none_in _ _ _ Hn) in Hin. discriminate.
    + split; [discriminate|]. split; [discriminate|].
      intros Hin. exfalso.
      assert (Hn : none is_await_close
                     (rs1 ++ Sent Client [x05; x02]
                          :: rs2 ++ Sent Client [x01; x00]
                          :: ps ++ [LogError e;
                                    Sent Client (failed_reply a)]))
        by solve_none prep_not_await_close.
      apply (none_in _ _ _ Hn) in Hin. discriminate.
    + split; [discriminate|]. split; [discriminate|].
      intros Hin. exfalso.
      assert (Hn : none is_await_close
                     (rs1 ++ Sent Client [x05; x02]
                          :: rs2 ++ Sent Client [x01; x00]
                          :: ps ++ [LogError e;
                                    SendFault Client (failed_reply a)]))
        by solve_none prep_not_await_close.
      apply (none_in _ _ _ Hn) in Hin. discriminate.
    + split; [discriminate|]. split; [discriminate|].
      intros Hin. exfalso.
      assert (Hn : none is_await_close
                     (rs1 ++ Sent Client [x05; x02]
                          :: rs2 ++ Sent Client [x01; x00]
                          :: ps ++ [SendFault Client r]))
        by solve_none prep_not_await_close.
      apply (none_in _ _ _ Hn) in Hin. discriminate.
    + split; [discriminate|]. split.
      * intros _. right. right.
        exists (rs1 ++ Sent Client [x05; x02]
                    :: rs2 ++ Sent Client [x01; x00] :: ps), r, t1, t2.
        split; [|exact Hok].
        flat. reflexivity.
      * intros _. split; [reflexivity|].
        exists (rs1 ++ Sent Client [x05; x02]
                    :: rs2 ++ Sent Client [x01; x00]
                    :: ps ++ [Sent Client r; Spawn Client Remote;
                              Spawn Remote Client; Join Client Remote t1;
                              Join Remote Client t2]).
        flat. reflexivity.
Qed.

(** X18 at the session [Demo.connect_ok]. *)
Lemma handler_endings_witness :
  outcome (handle Demo.proxy Demo.net Demo.connect_ok) = Ret tt /\
  exists pre,
    log (handle Demo.proxy Demo.net Demo.connect_ok) = pre ++ [Close Client].
Proof.
  apply (proj2 (proj2 (handler_endings Demo.proxy Demo.net Demo.connect_ok))).
  vm_compute. do 18 right. left. reflexivity.
Defined.
